(** * Calibration engine of calibration-app: telemetry framing and parsing,
      channel store, temperature conversion, capture controller and the
      coefficient solver of [CalibrationPage.tsx].

    JavaScript numbers are IEEE-754 binary64 values, so they are modelled by
    Rocq's primitive [float]; [Math.log] and [Math.pow] are left abstract (the
    language only asks for an implementation-defined approximation), and a
    concrete instance is given at the end of the definitions to run the model. *)

From Stdlib Require Import ZArith List Bool Ascii String Floats Lia.
From stdpp Require Import base option list gmap strings.

Set Warnings "-inexact-float".

(** ** JavaScript numbers *)

Module JS.

Definition NaN : float := nan.

(** [a > b], [a < b]: false as soon as one side is NaN. *)
Definition gt (a b : float) : bool := (b <? a)%float.
Definition lt (a b : float) : bool := (a <? b)%float.

(** [isNaN(x)] *)
Definition isNaN (x : float) : bool := negb (x =? x)%float.

(** Errors the modelled code can raise. *)
Inductive error : Type :=
| SingularMatrix   (* new Error("Matrix is singular or nearly singular") *)
| TypeError.       (* reading a property of undefined *)

Inductive res (A : Type) : Type :=
| Ok (a : A)
| Throw (e : error).
Arguments Ok {A} a.
Arguments Throw {A} e.

#[global] Instance res_bind : MBind res := fun A B k m =>
  match m with
  | Ok a => k a
  | Throw e => Throw e
  end.
#[global] Instance res_ret : MRet res := fun A a => Ok a.

(** [arr[i] = v] on an array used as a plain list: a write past the end
    extends the array, the skipped slots being filled with [hole]. *)
Definition set_index {A} (hole : A) (l : list A) (i : nat) (v : A) : list A :=
  if (i <? length l)%nat then <[i := v]> l
  else l ++ replicate (i - length l) hole ++ [v].

End JS.

Import JS.

(** ** Coefficient solver: [solveLinearSystem] on values

    The elimination works on the copies [A] and [b]; this section follows
    the values those copies hold. The store and the copying itself are
    followed in [Module Heap] below. *)

Abbreviation matrix := (list (list float)).
Abbreviation vector := (list float).

(** [A[k][i]] and [b[k]] for the 4x4 systems the callers build. *)
Definition mget (A : matrix) (k i : nat) : float := nth i (nth k A []) NaN.
Definition vget (b : vector) (k : nat) : float := nth k b NaN.

Definition mset (A : matrix) (k j : nat) (v : float) : matrix :=
  <[k := <[j := v]> (nth k A [])]> A.

(** [[l[i], l[m]] = [l[m], l[i]]] *)
Definition swap {T} (l : list T) (i m : nat) : list T :=
  match l !! i, l !! m with
  | Some a, Some c => <[m := a]> (<[i := c]> l)
  | _, _ => l
  end.

Definition n : nat := 4.

(** The inner search of the pivot row: [k] from [i + 1] to [n - 1]. *)
Definition findMaxRow (A : matrix) (i : nat) : nat :=
  fold_left
    (fun maxRow k =>
       if gt (abs (mget A k i)) (abs (mget A maxRow i)) then k else maxRow)
    (seq (i + 1) (n - (i + 1))) i.

Definition pivotSwap (i : nat) (Ab : matrix * vector) : matrix * vector :=
  let '(A, b) := Ab in
  let maxRow := findMaxRow A i in
  (swap A i maxRow, swap b i maxRow).

(** [for (j = i; j < n; j++) A[k][j] -= factor * A[i][j]] *)
Definition elimRow (i k : nat) (factor : float) (A : matrix) : matrix :=
  fold_left
    (fun A j => mset A k j (mget A k j - factor * mget A i j)%float)
    (seq i (n - i)) A.

(** [for (k = i + 1; k < n; k++) { ... }] *)
Definition elimBelow (i : nat) (Ab : matrix * vector) : matrix * vector :=
  fold_left
    (fun '(A, b) k =>
       let factor := (mget A k i / mget A i i)%float in
       let A' := elimRow i k factor A in
       (A', <[k := (vget b k - factor * vget b i)%float]> b))
    (seq (i + 1) (n - (i + 1))) Ab.

Definition threshold : float := 1e-12%float.

(** The forward phase, with its [throw]. *)
Fixpoint eliminate (steps : list nat) (Ab : matrix * vector)
  : res (matrix * vector) :=
  match steps with
  | [] => Ok Ab
  | i :: rest =>
      let Ab1 := pivotSwap i Ab in
      if lt (abs (mget (fst Ab1) i i)) threshold then Throw SingularMatrix
      else eliminate rest (elimBelow i Ab1)
  end.

(** [for (i = n - 1; i >= 0; i--) { sum = ...; x[i] = (b[i] - sum) / A[i][i] }] *)
Definition backSubstitute (A : matrix) (b : vector) : vector :=
  fold_left
    (fun x i =>
       let sum :=
         fold_left (fun s j => (s + mget A i j * vget x j)%float)
                   (seq (i + 1) (n - (i + 1))) 0%float in
       <[i := ((vget b i - sum) / mget A i i)%float]> x)
    (rev (seq 0 n)) (replicate n 0%float).

Definition solveLinearSystem (X : matrix) (Y : vector) : res vector :=
  Ab ← eliminate (seq 0 n) (X, Y);
  Ok (backSubstitute (fst Ab) (snd Ab)).


(** ** Data model ([interface] declarations of the page) *)

Module ThermistorData.
Record t : Type := mk {
  id : Z;                 (* 1-4, channel = id + 28 *)
  name : string;
  resistance : float;
  temperature : float;
  color : string;
  active : bool
}.
End ThermistorData.
Abbreviation Thermistor := ThermistorData.t.

Record CalibrationLogEntry : Type := {
  calibrationNumber : Z;
  time : string;
  measuredTemperature : float;
  measuredResistanceT1 : float;
  measuredResistanceT2 : float;
  measuredResistanceT3 : float;
  measuredResistanceT4 : float
}.

Module CalibrationPoint.
Record t : Type := mk {
  time : string;
  timestamp : Z;
  temperature : float;
  thermistorId : Z;
  resistance : float;
  color : string
}.
End CalibrationPoint.

Record CalibrationCoeffs : Type := { A : float; B : float; C : float; D : float }.

(** [{ time, timestamp, [name]: temperature }] *)
Record ChartDataPoint : Type := {
  cd_time : string;
  cd_timestamp : Z;
  cd_series : gmap string float
}.

(** The element type of [points] in [computeCoeffs]. *)
Record Point : Type := { pt_resistance : float; pt_temperature : float }.

(** ** [computeCoeffs] *)

Definition channelResistance (channel : Z) (log : CalibrationLogEntry) : float :=
  if (channel =? 29)%Z then measuredResistanceT1 log
  else if (channel =? 30)%Z then measuredResistanceT2 log
  else if (channel =? 31)%Z then measuredResistanceT3 log
  else if (channel =? 32)%Z then measuredResistanceT4 log
  else 0%float.

(** [calibrationLog.forEach(log => { ...; if (r > 0) points.push(...) })] *)
Definition collectPoints (channel : Z) (calibrationLog : list CalibrationLogEntry)
  : list Point :=
  fold_left
    (fun points log =>
       let r := channelResistance channel log in
       if gt r 0 then
         points ++ [{| pt_resistance := r;
                       pt_temperature := (measuredTemperature log + 273.15)%float |}]
       else points)
    calibrationLog [].

Definition standard_resistances : list float := [3017.3; 1265.1; 974.3; 533.8]%float.
Definition standard_temperatures : list float :=
  [60 + 273.15; 90 + 273.15; 100 + 273.15; 125 + 273.15]%float.

(** An array slot that was never written. *)
Definition undefinedPoint : Point := {| pt_resistance := NaN; pt_temperature := NaN |}.

(** [if (points.length < 4) { for (i...) points[i] = ... } else { points.splice(0, points.length - 4) }] *)
Definition selectPoints (points : list Point) : list Point :=
  if (length points <? 4)%nat then
    fold_left
      (fun points i =>
         set_index undefinedPoint points i
           {| pt_resistance := vget standard_resistances i;
              pt_temperature := vget standard_temperatures i |})
      (seq 0 4) points
  else drop (length points - 4) points.

Section Runtime.

(** [Math.log] and [Math.pow]. *)
Variable ln : float -> float.
Variable pow : float -> float -> float.

Definition designRow (p : Point) : list float :=
  let lnR := ln (pt_resistance p) in
  [1; lnR; lnR * lnR; lnR * lnR * lnR]%float.

Definition designMatrix (points : list Point) : matrix := map designRow points.
Definition rhs (points : list Point) : vector :=
  map (fun p => (1 / pt_temperature p)%float) points.

(** The fit on four chosen points: the last four lines of [computeCoeffs]. *)
Definition fit (points : list Point) : res CalibrationCoeffs :=
  coeffs ← solveLinearSystem (designMatrix points) (rhs points);
  Ok {| A := vget coeffs 0; B := vget coeffs 1;
        C := vget coeffs 2; D := vget coeffs 3 |}.

Definition computeCoeffs (channel : Z) (calibrationLog : list CalibrationLogEntry)
  : res CalibrationCoeffs :=
  fit (selectPoints (collectPoints channel calibrationLog)).

(** ** Temperature conversion

    The block
    [let tempC = 0; if (R > 0 && coeff) { lnR = Math.log(R); tempK = 1 / (...); tempC = tempK - 273.15 }]
    that the page repeats at every place it recomputes a temperature. *)
Definition tempC (R : float) (coeff : option CalibrationCoeffs) : float :=
  match gt R 0, coeff with
  | true, Some coeff =>
      let lnR := ln R in
      let tempK :=
        (1 / (A coeff + B coeff * lnR + C coeff * pow lnR 2 + D coeff * pow lnR 3))%float in
      (tempK - 273.15)%float
  | _, _ => 0%float
  end.

(** ** Channel store: the [setThermistors] updater of [updateSensorData] *)

Import ThermistorData.

(** The variant that fits on the fly (no stored coefficients). *)
Definition updateThermistor (calibrationLog : list CalibrationLogEntry)
    (dataMap : gmap Z float) (t : Thermistor) : res Thermistor :=
  if negb (active t) then Ok t
  else
    let channel := (id t + 28)%Z in
    match dataMap !! channel with
    | Some R =>
        coeff ← computeCoeffs channel calibrationLog;
        let temp := tempC R (Some coeff) in
        Ok (mk (id t) (name t) R temp (color t) (active t))
    | None =>
        Ok (mk (id t) (name t) NaN NaN (color t) (active t))
    end.

(** The variant of [src/pages/CalibrationPage.tsx], with the stored
    [calibrationCoeffs]: the test and the logarithm read [t.resistance]. *)
Definition updateThermistor_stored (calibrationCoeffs : gmap Z CalibrationCoeffs)
    (dataMap : gmap Z float) (t : Thermistor) : Thermistor :=
  if negb (active t) then t
  else
    let channel := (id t + 28)%Z in
    match dataMap !! channel with
    | Some R =>
        let coeff := calibrationCoeffs !! channel in
        let temp := tempC (resistance t) coeff in
        mk (id t) (name t) R temp (color t) (active t)
    | None =>
        mk (id t) (name t) NaN NaN (color t) (active t)
    end.

(** [newPoint[t.name] = ...], assigned inside the updater for every
    active thermistor. *)
Definition chartSeries (ts : list Thermistor) : gmap string float :=
  fold_left
    (fun m t => if active t then <[name t := temperature t]> m else m)
    ts ∅.

(** The refit the capture handler runs once the save has settled. *)
Definition refitThermistor (calibrationLog : list CalibrationLogEntry)
    (t : Thermistor) : res Thermistor :=
  if negb (active t) then Ok t
  else
    let channel := (id t + 28)%Z in
    coeff ← computeCoeffs channel calibrationLog;
    let temp := tempC (resistance t) (Some coeff) in
    Ok (mk (id t) (name t) (resistance t) temp (color t) (active t)).

End Runtime.

(** ** Strings

    A JavaScript string is a sequence of code units; the device sends ASCII,
    and the model keeps to code units below 256. *)

Module Str.

(** White space of [trim], [parseInt] and [parseFloat]: TAB, LF, VT, FF,
    CR, SP and NBSP. *)
Definition isWhiteSpace (c : ascii) : bool :=
  let k := nat_of_ascii c in
  ((9 <=? k) && (k <=? 13) || (k =? 32) || (k =? 160))%nat.

Fixpoint trimStart (s : string) : string :=
  match s with
  | String c r => if isWhiteSpace c then trimStart r else s
  | EmptyString => s
  end.

(** Drops the white space that ends the string. *)
Fixpoint trimEnd (s : string) : string :=
  match s with
  | String c r =>
      match trimEnd r with
      | EmptyString => if isWhiteSpace c then EmptyString else String c EmptyString
      | r' => String c r'
      end
  | EmptyString => EmptyString
  end.

Definition trim (s : string) : string := trimEnd (trimStart s).

Fixpoint startsWith (p s : string) : bool :=
  match p, s with
  | EmptyString, _ => true
  | String a p', String c s' => Ascii.eqb a c && startsWith p' s'
  | String _ _, EmptyString => false
  end.

(** [s.split(sep)] for a separator of one code unit: never empty. *)
Fixpoint split (sep : ascii) (s : string) : list string :=
  match s with
  | EmptyString => [EmptyString]
  | String c r =>
      if Ascii.eqb c sep then EmptyString :: split sep r
      else
        match split sep r with
        | h :: t => String c h :: t
        | [] => [String c EmptyString]
        end
  end.

Definition digitValue (c : ascii) : option Z :=
  let k := Z.of_nat (nat_of_ascii c) in
  if ((48 <=? k) && (k <=? 57))%Z then Some (k - 48)%Z else None.

Definition hexValue (c : ascii) : option Z :=
  let k := Z.of_nat (nat_of_ascii c) in
  if ((48 <=? k) && (k <=? 57))%Z then Some (k - 48)%Z
  else if ((65 <=? k) && (k <=? 70))%Z then Some (k - 55)%Z
  else if ((97 <=? k) && (k <=? 102))%Z then Some (k - 87)%Z
  else None.

(** The longest prefix of digits: its value on top of [acc], how many
    digits it has, and what follows it. *)
Fixpoint digitsPrefix (value : ascii -> option Z) (radix : Z)
    (s : string) (acc : Z) (cnt : nat) : Z * nat * string :=
  match s with
  | String c r =>
      match value c with
      | Some d => digitsPrefix value radix r (radix * acc + d)%Z (S cnt)
      | None => (acc, cnt, s)
      end
  | EmptyString => (acc, cnt, s)
  end.

(** An optional sign: whether it is [-], and what follows it. *)
Definition signPrefix (s : string) : bool * string :=
  match s with
  | String "-" r => (true, r)
  | String "+" r => (false, r)
  | _ => (false, s)
  end.

(** The nearest binary64 value, ties to even, of [num / den] for positive
    [num] and [den]. *)
Definition roundRatio (neg : bool) (num den : Z) : float :=
  let e0 := (Z.log2 num - Z.log2 den - 53)%Z in
  let scaled (e : Z) : Z * Z :=
    if (0 <=? e)%Z then (num, den * 2 ^ e)%Z else (num * 2 ^ (- e), den)%Z in
  let '(n0, d0) := scaled e0 in
  let e1 := if (2 ^ 53 <=? n0 / d0)%Z then (e0 + 1)%Z else e0 in
  let e := Z.max e1 (-1074) in
  let '(n1, d1) := scaled e in
  let q := (n1 / d1)%Z in
  let r := (n1 mod d1)%Z in
  let q' :=
    if (d1 <? 2 * r)%Z then (q + 1)%Z
    else if ((d1 =? 2 * r) && Z.odd q)%Z then (q + 1)%Z
    else q in
  match q' with
  | Zpos m => SF2Prim (S754_finite neg m e)
  | _ => SF2Prim (S754_zero neg)
  end.

(** The Number value of [m * 10 ^ e10], [m >= 0]. *)
Definition decimalToFloat (neg : bool) (m e10 : Z) : float :=
  if (m =? 0)%Z then SF2Prim (S754_zero neg)
  else if (0 <=? e10)%Z then roundRatio neg (m * 10 ^ e10) 1
  else roundRatio neg m (10 ^ (- e10)).

(** The integer a Number with no fractional part denotes; the infinities,
    which only a literal of more than 308 digits reaches, are given as
    [2 ^ 1024] and its opposite, apart from every finite value. *)
Definition integerOf (x : float) : Z :=
  match Prim2SF x with
  | S754_finite sg m e => (if sg then -1 else 1) * Z.shiftl (Z.pos m) e
  | S754_infinity sg => (if sg then -1 else 1) * 2 ^ 1024
  | _ => 0
  end%Z.

(** [parseInt(s)]: [None] stands for NaN. The result is the Number value
    of the digits read, given as the integer it denotes (the key under
    which [dataMap] files it). *)
Definition parseInt (s : string) : option Z :=
  let '(neg, s1) := signPrefix (trimStart s) in
  let '(value, radix, s2) :=
    match s1 with
    | String "0" (String "x" r) | String "0" (String "X" r) => (hexValue, 16%Z, r)
    | _ => (digitValue, 10%Z, s1)
    end in
  let '(v, cnt, _) := digitsPrefix value radix s2 0%Z 0 in
  match cnt with
  | O => None
  | S _ =>
Some (integerOf (decimalToFloat neg v 0))
  end.

(** [parseFloat(s)]: the longest prefix that is a decimal literal. *)
Definition parseFloat (s : string) : float :=
  let '(neg, s1) := signPrefix (trimStart s) in
  if startsWith "Infinity" s1 then (if neg then neg_infinity else infinity)
  else
    let '(ip, ni, s2) := digitsPrefix digitValue 10 s1 0%Z 0 in
    let '(m, nf, s3) :=
      match s2 with
      | String "." r => digitsPrefix digitValue 10 r ip 0
      | _ => (ip, O, s2)
      end in
    match (ni + nf)%nat with
    | O => NaN
    | S _ =>
        let ex :=
          match s3 with
          | String "e" r | String "E" r =>
              let '(eneg, r1) := signPrefix r in
              let '(ev, ne, _) := digitsPrefix digitValue 10 r1 0%Z 0 in
              match ne with
              | O => 0%Z
              | S _ => if eneg then (- ev)%Z else ev
              end
          | _ => 0%Z
          end in
        decimalToFloat neg m (ex - Z.of_nat nf)
    end.

End Str.

(** ** Telemetry parser: the [dataMap] of [updateSensorData] *)

Definition parseToken (dataMap : gmap Z float) (token : string) : gmap Z float :=
  match Str.split ":" token with
  | [p0; p1] =>
      let channel := Str.parseInt p0 in
      let value := Str.parseFloat p1 in
      match channel with
      | Some channel => if isNaN value then dataMap else <[channel := value]> dataMap
      | None => dataMap
      end
  | _ => dataMap
  end.

Definition parseTokens (tokens : list string) : gmap Z float :=
  fold_left parseToken tokens ∅.

Definition parseLine (trimmed : string) : gmap Z float :=
  parseTokens (Str.split ";" trimmed).

(** ** Line framer: the body of the read loop of [openSerialPort] *)

(** [lines = buffer.split("\n"); buffer = lines.pop() || ""] *)
Definition popLast (lines : list string) : list string * string :=
  (removelast lines, default EmptyString (last lines)).

(** One chunk: the complete lines handed on, and the new [bufferRef.current]. *)
Definition feed (buffer value : string) : list string * string :=
  match value with
  | EmptyString => ([], buffer)           (* if (value) { ... } *)
  | _ => popLast (Str.split "010" (buffer +:+ value))
  end.

(** The chunks of a session, in order. *)
Definition feedAll (buffer : string) (chunks : list string) : list string * string :=
  fold_left
    (fun '(out, buffer) value =>
       let '(lines, buffer') := feed buffer value in (out ++ lines, buffer'))
    chunks ([], buffer).

(** ** Page state: the [useState] cells and the timer refs *)

(** The closure of a running averaging request: the accumulators of the
    interval callback and what the timeout callback captured. *)
Record AveragingSession : Type := {
  sumT1 : float; sumT2 : float; sumT3 : float; sumT4 : float;
  count : float;
  s_timestamp : Z;
  s_isoTime : string;
  s_measuredTempInput : float;
  s_calibrationLog : list CalibrationLogEntry
}.

Record PageState : Type := {
  thermistors : list Thermistor;
  chartData : list ChartDataPoint;
  calibrationLog : list CalibrationLogEntry;
  calibrationPoints : list CalibrationPoint.t;
  measuredTempInput : option float;           (* [None] is the empty input *)
  averagingInProgress : bool;
  session : option AveragingSession           (* the interval and timeout refs *)
}.

Definition with_thermistors (ts : list Thermistor) (st : PageState) : PageState :=
  {| thermistors := ts; chartData := chartData st;
     calibrationLog := calibrationLog st; calibrationPoints := calibrationPoints st;
     measuredTempInput := measuredTempInput st;
     averagingInProgress := averagingInProgress st; session := session st |}.

Definition with_chartData (cd : list ChartDataPoint) (st : PageState) : PageState :=
  {| thermistors := thermistors st; chartData := cd;
     calibrationLog := calibrationLog st; calibrationPoints := calibrationPoints st;
     measuredTempInput := measuredTempInput st;
     averagingInProgress := averagingInProgress st; session := session st |}.

Definition with_calibrationLog (log : list CalibrationLogEntry) (st : PageState)
  : PageState :=
  {| thermistors := thermistors st; chartData := chartData st;
     calibrationLog := log; calibrationPoints := calibrationPoints st;
     measuredTempInput := measuredTempInput st;
     averagingInProgress := averagingInProgress st; session := session st |}.

Definition with_calibrationPoints (cps : list CalibrationPoint.t) (st : PageState)
  : PageState :=
  {| thermistors := thermistors st; chartData := chartData st;
     calibrationLog := calibrationLog st; calibrationPoints := cps;
     measuredTempInput := measuredTempInput st;
     averagingInProgress := averagingInProgress st; session := session st |}.

Definition with_measuredTempInput (v : option float) (st : PageState) : PageState :=
  {| thermistors := thermistors st; chartData := chartData st;
     calibrationLog := calibrationLog st; calibrationPoints := calibrationPoints st;
     measuredTempInput := v;
     averagingInProgress := averagingInProgress st; session := session st |}.

Definition with_averagingInProgress (f : bool) (st : PageState) : PageState :=
  {| thermistors := thermistors st; chartData := chartData st;
     calibrationLog := calibrationLog st; calibrationPoints := calibrationPoints st;
     measuredTempInput := measuredTempInput st;
     averagingInProgress := f; session := session st |}.

Definition with_session (s : option AveragingSession) (st : PageState) : PageState :=
  {| thermistors := thermistors st; chartData := chartData st;
     calibrationLog := calibrationLog st; calibrationPoints := calibrationPoints st;
     measuredTempInput := measuredTempInput st;
     averagingInProgress := averagingInProgress st; session := s |}.

(** [if (l.length > 500) l.shift()] *)
Definition capShift {T} (l : list T) : list T :=
  if (500 <? length l)%nat then tail l else l.

(** The [setChartData] updater. *)
Definition pushChart (prev : list ChartDataPoint) (newPoint : ChartDataPoint)
  : list ChartDataPoint := capShift (prev ++ [newPoint]).

(** The [setCalibrationPoints] updater of the averaging path ... *)
Definition pushMarkers (prev newCalibrationPoints : list CalibrationPoint.t)
  : list CalibrationPoint.t := capShift (prev ++ newCalibrationPoints).

(** ... and of the instant path. *)
Definition pushMarkers_instant (prev newCalibrationPoints : list CalibrationPoint.t)
  : list CalibrationPoint.t := prev ++ newCalibrationPoints.

(** [setThermistors(prev => prev.map(f))] with an [f] that may throw: the
    update is dropped and the error surfaces at render. *)
Definition setThermistors (f : Thermistor -> res Thermistor) (st : PageState)
  : PageState * option error :=
  match mapM f (thermistors st) with
  | Ok ts => (with_thermistors ts st, None)
  | Throw e => (st, Some e)
  end.

(** [thermistorsRef.current[i]] *)
Definition thermistorAt (ts : list Thermistor) (i : nat) : res Thermistor :=
  match ts !! i with
  | Some t => Ok t
  | None => Throw TypeError
  end.

(** The answer to the POST of [saveCalibrationEntry]. *)
Inductive Response : Type :=
| HttpStatus (status : Z)
| NetworkError.

(** [res.ok] *)
Definition responseOk (r : Response) : bool :=
  match r with
  | HttpStatus status => ((200 <=? status) && (status <=? 299))%Z
  | NetworkError => false
  end.

(** A save that was started and has not settled yet, with the
    [calibrationLog] its [then] callback closed over. *)
Record PendingSave : Type := {
  ps_entry : CalibrationLogEntry;
  ps_calibrationLog : list CalibrationLogEntry
}.

Section Page.

Variable ln : float -> float.
Variable pow : float -> float -> float.

Import ThermistorData.

(** [updateSensorData(line)], called with the [calibrationLog] of the
    render that opened the port. *)
Definition updateSensorData (closureLog : list CalibrationLogEntry)
    (timestamp : Z) (currentTimeStr : string) (line : string) (st : PageState)
  : PageState * option error :=
  let trimmed := Str.trim line in
  if (String.eqb trimmed EmptyString || Str.startsWith "ets" trimmed)%bool
  then (st, None)
  else
    let dataMap := parseLine trimmed in
    match setThermistors (updateThermistor ln pow closureLog dataMap) st with
    | (st1, None) =>
        let newPoint :=
          {| cd_time := currentTimeStr; cd_timestamp := timestamp;
             cd_series := chartSeries (thermistors st1) |} in
        (with_chartData (pushChart (chartData st1) newPoint) st1, None)
    | (_, Some e) => (st, Some e)
    end.

(** The read loop on one chunk: frame, then process every complete line. *)
Definition onChunk (closureLog : list CalibrationLogEntry)
    (timestamp : Z) (currentTimeStr : string) (value : string)
    (buffer : string) (st : PageState) : string * PageState :=
  let '(lines, buffer') := feed buffer value in
  (buffer',
   fold_left
     (fun st line => fst (updateSensorData closureLog timestamp currentTimeStr line st))
     lines st).

(** The markers of a capture: one per active thermistor. *)
Definition newCalibrationPoints (isoTime : string) (timestamp : Z)
    (ts : list Thermistor) : list CalibrationPoint.t :=
  map (fun t => CalibrationPoint.mk isoTime timestamp (temperature t) (id t)
                  (resistance t) (color t))
      (filter (fun t => active t = true) ts).

(** The callback of [setInterval]. *)
Definition sampleTick (ts : list Thermistor) (s : AveragingSession)
  : res AveragingSession :=
  t0 ← thermistorAt ts 0; t1 ← thermistorAt ts 1;
  t2 ← thermistorAt ts 2; t3 ← thermistorAt ts 3;
  let sample (t : Thermistor) := if active t then resistance t else 0%float in
  Ok {| sumT1 := (sumT1 s + sample t0)%float;
        sumT2 := (sumT2 s + sample t1)%float;
        sumT3 := (sumT3 s + sample t2)%float;
        sumT4 := (sumT4 s + sample t3)%float;
        count := (count s + 1)%float;
        s_timestamp := s_timestamp s; s_isoTime := s_isoTime s;
        s_measuredTempInput := s_measuredTempInput s;
        s_calibrationLog := s_calibrationLog s |}.

(** [count > 0 ? sum / count : 0] *)
Definition average (sum cnt : float) : float :=
  if gt cnt 0 then (sum / cnt)%float else 0%float.

(** The log entry the timeout callback builds. *)
Definition averagedEntry (ts : list Thermistor) (s : AveragingSession)
  : res CalibrationLogEntry :=
  let avgT1 := average (sumT1 s) (count s) in
  let avgT2 := average (sumT2 s) (count s) in
  let avgT3 := average (sumT3 s) (count s) in
  let avgT4 := average (sumT4 s) (count s) in
  t0 ← thermistorAt ts 0; t1 ← thermistorAt ts 1;
  t2 ← thermistorAt ts 2; t3 ← thermistorAt ts 3;
  Ok {| calibrationNumber := Z.of_nat (length (s_calibrationLog s)) + 1;
        time := s_isoTime s;
        measuredTemperature := s_measuredTempInput s;
        measuredResistanceT1 := if active t0 then avgT1 else 0%float;
        measuredResistanceT2 := if active t1 then avgT2 else 0%float;
        measuredResistanceT3 := if active t2 then avgT3 else 0%float;
        measuredResistanceT4 := if active t3 then avgT4 else 0%float |}.

(** The callback of [setTimeout]: everything up to the first [await] of
    [saveCalibrationEntry], which leaves a pending save behind. *)
Definition commitAveraging (s : AveragingSession) (st : PageState)
  : res (PageState * PendingSave) :=
  newEntry ← averagedEntry (thermistors st) s;
  let markers := newCalibrationPoints (s_isoTime s) (s_timestamp s) (thermistors st) in
  let st1 := with_session None st in
  let st2 := with_calibrationPoints (pushMarkers (calibrationPoints st1) markers) st1 in
  let st3 := with_averagingInProgress false st2 in
  let st4 := with_measuredTempInput None st3 in
  Ok (st4, {| ps_entry := newEntry; ps_calibrationLog := s_calibrationLog s |}).

(** The entry of the instant path. *)
Definition instantEntry (st : PageState) (isoTime : string) (measured : float)
  : res CalibrationLogEntry :=
  let ts := thermistors st in
  t0 ← thermistorAt ts 0; t1 ← thermistorAt ts 1;
  t2 ← thermistorAt ts 2; t3 ← thermistorAt ts 3;
  let reading (t : Thermistor) := if active t then resistance t else 0%float in
  Ok {| calibrationNumber := Z.of_nat (length (calibrationLog st)) + 1;
        time := isoTime;
        measuredTemperature := measured;
        measuredResistanceT1 := reading t0;
        measuredResistanceT2 := reading t1;
        measuredResistanceT3 := reading t2;
        measuredResistanceT4 := reading t3 |}.

(** [let sumT1 = 0, sumT2 = 0, sumT3 = 0, sumT4 = 0, count = 0] and what
    the two timer callbacks close over. *)
Definition newSession (timestamp : Z) (isoTime : string) (measured : float)
    (log : list CalibrationLogEntry) : AveragingSession :=
  {| sumT1 := 0; sumT2 := 0; sumT3 := 0; sumT4 := 0; count := 0;
     s_timestamp := timestamp; s_isoTime := isoTime;
     s_measuredTempInput := measured;
     s_calibrationLog := log |}.

(** [handleCalibrate()]: [avgTime] is [Number(averagingTime)]. A request
    that fails validation changes nothing; otherwise the timers of a
    running session are cleared first. *)
Definition handleCalibrate (avgTime : float) (timestamp : Z) (isoTime : string)
    (st : PageState) : res (PageState * option PendingSave) :=
  match measuredTempInput st with
  | None => Ok (st, None)
  | Some measured =>
      if isNaN measured then Ok (st, None)
      else if (length (filter (fun t => active t = true) (thermistors st)) =? 0)%nat
      then Ok (st, None)
      else
        let st0 := with_session None st in
        if gt avgTime 0 then
          let s := newSession timestamp isoTime measured (calibrationLog st) in
          Ok (with_session (Some s) (with_averagingInProgress true st0), None)
        else
          newEntry ← instantEntry st isoTime measured;
          let markers := newCalibrationPoints isoTime timestamp (thermistors st) in
          Ok (with_calibrationPoints
                (pushMarkers_instant (calibrationPoints st0) markers) st0,
              Some {| ps_entry := newEntry; ps_calibrationLog := calibrationLog st |})
  end.

(** The rest of [saveCalibrationEntry] once the POST has settled, then
    the [then] callback of the caller: the [catch] swallows the failure,
    so the promise resolves either way. *)
Definition saveSettled (r : Response) (p : PendingSave) (st : PageState)
  : PageState * option error :=
  let st1 :=
    if responseOk r
    then with_calibrationLog (calibrationLog st ++ [ps_entry p]) st
    else with_averagingInProgress false st in
  setThermistors (refitThermistor ln pow (ps_calibrationLog p)) st1.

(** Teardown: both timers are cleared, nothing is committed. *)
Definition teardown (st : PageState) : PageState := with_session None st.

End Page.

(** ** [solveLinearSystem] on the store

    Arrays are objects: [X] is a reference to an array of references to
    rows. This module follows the function on a store of arrays, with the
    copies it allocates and every read and write it performs. *)

Module Heap.

Abbreviation loc := nat.

Inductive value : Type :=
| Num (x : float)
| Ref (l : loc)
| Undefined.

(** The arrays allocated so far, in allocation order. *)
Abbreviation heap := (list (list value)).

(** A computation on the store: the store is kept when it throws. *)
Definition M (T : Type) : Type := heap -> res T * heap.

Definition ret {T} (a : T) : M T := fun h => (Ok a, h).
Definition throw {T} (e : error) : M T := fun h => (Throw e, h).
Definition bind {T U} (m : M T) (k : T -> M U) : M U :=
  fun h =>
    match m h with
    | (Ok a, h') => k a h'
    | (Throw e, h') => (Throw e, h')
    end.

Declare Scope heap_scope.
Delimit Scope heap_scope with heap.
Notation "'let*' x ':=' m 'in' k" := (bind m (fun x => k))
  (at level 10, x name, m at level 100, k at level 200) : heap_scope.
Notation "m ';;' k" := (bind m (fun _ => k))
  (at level 100, k at level 200, right associativity) : heap_scope.
Local Open Scope heap_scope.

(** A loop over the indices [l], threading the loop variables [s]. *)
Fixpoint forEach {S} (l : list nat) (body : nat -> S -> M S) (s : S) : M S :=
  match l with
  | [] => ret s
  | i :: rest => let* s' := body i s in forEach rest body s'
  end.

Definition alloc (a : list value) : M loc :=
  fun h => (Ok (length h), h ++ [a]).

Definition readArray (l : loc) : M (list value) :=
  fun h =>
    match h !! l with
    | Some a => (Ok a, h)
    | None => (Throw TypeError, h)
    end.

Definition writeArray (l : loc) (a : list value) : M unit :=
  fun h => (Ok tt, <[l := a]> h).

(** [ToNumber] on what an array slot of numbers can hold. *)
Definition toNumber (v : value) : float :=
  match v with
  | Num x => x
  | _ => NaN
  end.

(** [v[i]] *)
Definition getIndex (v : value) (i : nat) : M value :=
  match v with
  | Ref l => let* a := readArray l in ret (nth i a Undefined)
  | Num _ => ret Undefined
  | Undefined => throw TypeError
  end.

(** [v[i] = x] *)
Definition setIndex (v : value) (i : nat) (x : value) : M unit :=
  match v with
  | Ref l => let* a := readArray l in writeArray l (set_index Undefined a i x)
  | _ => throw TypeError
  end.

(** [row.slice()] *)
Definition slice (v : value) : M value :=
  match v with
  | Ref l => let* a := readArray l in let* c := alloc a in ret (Ref c)
  | _ => throw TypeError
  end.

(** [X.map(row => row.slice())] *)
Fixpoint sliceAll (rows : list value) : M (list value) :=
  match rows with
  | [] => ret []
  | row :: rest =>
      let* c := slice row in
      let* cs := sliceAll rest in
      ret (c :: cs)
  end.

Definition copyMatrix (X : value) : M value :=
  match X with
  | Ref l =>
      let* rows := readArray l in
      let* copies := sliceAll rows in
      let* c := alloc copies in
      ret (Ref c)
  | _ => throw TypeError
  end.

(** [A[k][i]] as a number *)
Definition get2 (A : value) (k i : nat) : M float :=
  let* row := getIndex A k in
  let* v := getIndex row i in
  ret (toNumber v).

Definition get1 (b : value) (k : nat) : M float :=
  let* v := getIndex b k in ret (toNumber v).

Definition findMaxRow (A : value) (i : nat) : M nat :=
  forEach (seq (i + 1) (n - (i + 1)))
    (fun k maxRow =>
       let* aki := get2 A k i in
       let* ami := get2 A maxRow i in
       ret (if gt (abs aki) (abs ami) then k else maxRow))
    i.

(** [[l[i], l[m]] = [l[m], l[i]]] *)
Definition swap (l : value) (i m : nat) : M unit :=
  let* r0 := getIndex l m in
  let* r1 := getIndex l i in
  setIndex l i r0;;
  setIndex l m r1.

Definition elimRow (A : value) (i k : nat) (factor : float) : M unit :=
  forEach (seq i (n - i))
    (fun j _ =>
       let* rowk := getIndex A k in
       let* akj := getIndex rowk j in
       let* aij := get2 A i j in
       setIndex rowk j (Num (toNumber akj - factor * aij)%float))
    tt.

Definition elimBelow (A b : value) (i : nat) : M unit :=
  forEach (seq (i + 1) (n - (i + 1)))
    (fun k _ =>
       let* aki := get2 A k i in
       let* aii := get2 A i i in
       let factor := (aki / aii)%float in
       elimRow A i k factor;;
       let* bk := get1 b k in
       let* bi := get1 b i in
       setIndex b k (Num (bk - factor * bi)%float))
    tt.

Definition eliminate (A b : value) : M unit :=
  forEach (seq 0 n)
    (fun i _ =>
       let* maxRow := findMaxRow A i in
       swap A i maxRow;;
       swap b i maxRow;;
       let* aii := get2 A i i in
       if lt (abs aii) threshold then throw SingularMatrix
       else elimBelow A b i)
    tt.

Definition backSubstitute (A b x : value) : M unit :=
  forEach (rev (seq 0 n))
    (fun i _ =>
       let* sum :=
         forEach (seq (i + 1) (n - (i + 1)))
           (fun j sum =>
              let* aij := get2 A i j in
              let* xj := get1 x j in
              ret (sum + aij * xj)%float)
           0%float in
       let* bi := get1 b i in
       let* aii := get2 A i i in
       setIndex x i (Num ((bi - sum) / aii)%float))
    tt.

Definition solveLinearSystem (X Y : value) : M value :=
  let* A := copyMatrix X in
  let* b := slice Y in
  eliminate A b;;
  let* xl := alloc (replicate n (Num 0%float)) in
  let x := Ref xl in
  backSubstitute A b x;;
  ret x.

(** Writing a matrix and a vector of numbers into the store. *)
Definition allocMatrix (rows : matrix) : M value :=
  let* refs :=
    forEach (seq 0 (length rows))
      (fun k refs =>
         let* l := alloc (map Num (nth k rows [])) in ret (refs ++ [Ref l]))
      [] in
  let* l := alloc refs in
  ret (Ref l).

Definition allocVector (v : vector) : M value :=
  let* l := alloc (map Num v) in ret (Ref l).

(** Reading them back. *)
Definition numbersAt (h : heap) (v : value) : option (list float) :=
  match v with
  | Ref l => (fun a => map toNumber a) <$> h !! l
  | _ => None
  end.

Definition matrixAt (h : heap) (v : value) : option matrix :=
  match v with
  | Ref l => a ← h !! l; mapM (numbersAt h) a
  | _ => None
  end.

End Heap.

(** ** An instance of [Math.log] and [Math.pow]

    Used to run the model on concrete inputs: a logarithm by range reduction
    and the series of the inverse hyperbolic tangent, and powers with the
    exponents the page asks for. *)

Module Approx.

Definition ln2 : float := 0.6931471805599453%float.

(** [t + t^3/3 + t^5/5 + ...], [terms] terms from the one of degree [k]. *)
Fixpoint atanhSeries (terms : nat) (t2 tk k : float) : float :=
  match terms with
  | O => 0%float
  | S terms' => (tk / k + atanhSeries terms' t2 (tk * t2) (k + 2))%float
  end.

Definition ofZ (z : Z) : float :=
  match z with
  | Z0 => 0%float
  | Zpos p => of_uint63 (Uint63.of_Z (Zpos p))
  | Zneg p => (- of_uint63 (Uint63.of_Z (Zpos p)))%float
  end.

Definition log (x : float) : float :=
  if isNaN x then NaN
  else if (x <? 0)%float then NaN
  else if (x =? 0)%float then neg_infinity
  else if (x =? infinity)%float then infinity
  else
    let '(m, e) := Z.frexp x in
    let '(m, e) :=
      if (m <? 0.7071067811865476)%float then ((m * 2)%float, (e - 1)%Z) else (m, e) in
    let t := ((m - 1) / (m + 1))%float in
    (ofZ e * ln2 + 2 * atanhSeries 14 (t * t) t 1)%float.

Definition pow (x y : float) : float :=
  if (y =? 0)%float then 1%float
  else if (y =? 1)%float then x
  else if (y =? 2)%float then (x * x)%float
  else if (y =? 3)%float then (x * x * x)%float
  else NaN.

End Approx.

(** ** The course of the elimination *)

(** One step of the forward phase, without the test of the pivot. *)
Definition pivotStep (i : nat) (Ab : matrix * vector) : matrix * vector :=
  elimBelow i (pivotSwap i Ab).

(** The copies as step [i] finds them. *)
Definition stateBefore (i : nat) (X : matrix) (Y : vector) : matrix * vector :=
  fold_left (fun Ab j => pivotStep j Ab) (seq 0 i) (X, Y).

(** The pivot of step [i], read after the swap. *)
Definition pivotAt (i : nat) (X : matrix) (Y : vector) : float :=
  mget (fst (pivotSwap i (stateBefore i X Y))) i i.

(** A system of four equations in four unknowns. *)
Definition shape4 (X : matrix) (Y : vector) : Prop :=
  length X = 4 /\ Forall (fun row => length row = 4) X /\ length Y = 4.

(** ** Point selection, as a policy *)

(** The four built-in reference pairs, in Kelvin. *)
Definition standardPoints : list Point :=
  [ {| pt_resistance := 3017.3; pt_temperature := 60 + 273.15 |};
    {| pt_resistance := 1265.1; pt_temperature := 90 + 273.15 |};
    {| pt_resistance := 974.3;  pt_temperature := 100 + 273.15 |};
    {| pt_resistance := 533.8;  pt_temperature := 125 + 273.15 |} ]%float.

(** A log entry as a point of the fit for [channel]. *)
Definition toKelvinPoint (channel : Z) (log : CalibrationLogEntry) : Point :=
  {| pt_resistance := channelResistance channel log;
     pt_temperature := (measuredTemperature log + 273.15)%float |}.

(** The entries with a positive raw value for [channel], oldest first. *)
Definition positiveEntries (channel : Z) (calibrationLog : list CalibrationLogEntry)
  : list CalibrationLogEntry :=
  filter (fun log => gt (channelResistance channel log) 0 = true) calibrationLog.

(** The entries whose raw value for [channel] is not zero, oldest first. *)
Definition nonzeroEntries (channel : Z) (calibrationLog : list CalibrationLogEntry)
  : list CalibrationLogEntry :=
  filter (fun log => (channelResistance channel log =? 0)%float = false) calibrationLog.

(** The four most recent elements. *)
Definition lastFour {T} (l : list T) : list T := drop (length l - 4) l.

(** Either the reference pairs or the four most recent of [real]. *)
Definition policy (channel : Z) (real : list CalibrationLogEntry) : list Point :=
  if (length real <? 4)%nat then standardPoints
  else map (toKelvinPoint channel) (lastFour real).

Definition identity4 : matrix :=
  [[1; 0; 0; 0]; [0; 1; 0; 0]; [0; 0; 1; 0]; [0; 0; 0; 1]]%float.

(** ** Sample states *)

(** The page as it starts: four active thermistors with no reading. *)
Definition initialThermistors : list Thermistor :=
  [ ThermistorData.mk 1 "Thermistor 1" 0 0 "#FF5733" true;
    ThermistorData.mk 2 "Thermistor 2" 0 0 "#33A8FF" true;
    ThermistorData.mk 3 "Thermistor 3" 0 0 "#33FF57" true;
    ThermistorData.mk 4 "Thermistor 4" 0 0 "#D433FF" true ]%float.

Definition initialState : PageState :=
  {| thermistors := initialThermistors; chartData := [];
     calibrationLog := []; calibrationPoints := [];
     measuredTempInput := None; averagingInProgress := false; session := None |}.

Definition thermistor1 : Thermistor :=
  ThermistorData.mk 1 "Thermistor 1" 0 0 "#FF5733" true.

(** ** Telemetry tokens *)

(** A token that does not split in exactly two parts, or one of whose
    parts does not parse as a number. *)
Definition malformed (token : string) : Prop :=
  forall p0 p1, Str.split ":" token = [p0; p1] ->
    Str.parseInt p0 = None \/ isNaN (Str.parseFloat p1) = true.

(** ** An averaging session as a run *)

(** The interval callback fired once per snapshot of the thermistors. *)
Definition runSession (snapshots : list (list Thermistor)) (s : AveragingSession)
  : res AveragingSession :=
  fold_left (fun acc ts => s ← acc; sampleTick ts s) snapshots (Ok s).

(** What thermistor [i] contributes to a sample. *)
Definition sampleOf (i : nat) (ts : list Thermistor) : float :=
  match ts !! i with
  | Some t => if ThermistorData.active t then ThermistorData.resistance t else 0%float
  | None => 0%float
  end.

Definition sampleSum (i : nat) (snapshots : list (list Thermistor)) : float :=
  fold_left (fun acc ts => (acc + sampleOf i ts)%float) snapshots 0%float.

Definition sampleCount (snapshots : list (list Thermistor)) : float :=
  fold_left (fun c _ => (c + 1)%float) snapshots 0%float.

(** The thermistors with reading [R] on the first one. *)
Definition readingOnFirst (R : float) : list Thermistor :=
  [ ThermistorData.mk 1 "Thermistor 1" R 0 "#FF5733" true;
    ThermistorData.mk 2 "Thermistor 2" 0 0 "#33A8FF" true;
    ThermistorData.mk 3 "Thermistor 3" 0 0 "#33FF57" true;
    ThermistorData.mk 4 "Thermistor 4" 0 0 "#D433FF" true ]%float.

(** ** Telemetry between two events of the capture controller *)

Definition processLines (ln : float -> float) (pow : float -> float -> float)
    (closureLog : list CalibrationLogEntry)
    (events : list (Z * string * string)) (st : PageState) : PageState :=
  fold_left
    (fun st '(timestamp, currentTimeStr, line) =>
       fst (updateSensorData ln pow closureLog timestamp currentTimeStr line st))
    events st.

(** ** A failed append, as the specification words it

    The refit is not performed, the flag is cleared, and the history
    updated before the call, markers and log entry alike, stays. *)
Definition appendFailureAsStated (ln : float -> float) (pow : float -> float -> float)
    (r : Response) (p : PendingSave) (st : PageState) : Prop :=
  let st' := fst (saveSettled ln pow r p st) in
  thermistors st' = thermistors st /\
  averagingInProgress st' = false /\
  calibrationPoints st' = calibrationPoints st /\
  ps_entry p ∈ calibrationLog st'.

(** A marker to fill the buffer with. *)
Definition someMarker : CalibrationPoint.t :=
  CalibrationPoint.mk "t" 0 25 1 1000 "#FF5733".

Definition stateWithMarkers (k : nat) : PageState :=
  with_calibrationPoints (replicate k someMarker)
    (with_measuredTempInput (Some 25%float) initialState).

(** ** The text of a telemetry stream *)

Definition newline : ascii := "010"%char.

(** No line terminator inside [s]. *)
Fixpoint unterminated (s : string) : Prop :=
  match s with
  | EmptyString => True
  | String c r => c <> newline /\ unterminated r
  end.

(** Every line followed by its terminator, one after the other. *)
Definition terminated (lines : list string) : string :=
  fold_right (fun l acc => l +:+ String newline acc) EmptyString lines.

(** The text a sequence of chunks carries. *)
Definition joined (chunks : list string) : string :=
  fold_right String.append EmptyString chunks.

(** ** Order of binary64 values *)

(** A position on a three-level scale (class, exponent, mantissa) that
    orders the values that are not NaN. *)
Definition rank (x : spec_float) : option (Z * Z * Z) :=
  match x with
  | S754_nan => None
  | S754_infinity true => Some (-2, 0, 0)%Z
  | S754_finite true m e => Some (-1, - e, Z.neg m)%Z
  | S754_zero _ => Some (0, 0, 0)%Z
  | S754_finite false m e => Some (1, e, Z.pos m)%Z
  | S754_infinity false => Some (2, 0, 0)%Z
  end.

Definition lexlt (a b : Z * Z * Z) : Prop :=
  let '(a1, a2, a3) := a in
  let '(b1, b2, b3) := b in
  (a1 < b1 \/ (a1 = b1 /\ (a2 < b2 \/ (a2 = b2 /\ a3 < b3))))%Z.

Definition rank_lt (x y : spec_float) : Prop :=
  match rank x, rank y with
  | Some a, Some b => lexlt a b
  | _, _ => False
  end.

Ltac rank_case :=
  split; intros ?H; first [discriminate | reflexivity | lia].

(** ** The search of the pivot row on the magnitudes [f] of a column *)

Definition searchStep (f : nat -> float) (maxRow k : nat) : nat :=
  if gt (f k) (f maxRow) then k else maxRow.

(** Four captures with a negative raw value on channel 29. *)
Definition negativeLog : list CalibrationLogEntry :=
  map (fun k =>
         {| calibrationNumber := k; time := "t"; measuredTemperature := 25;
            measuredResistanceT1 := -100; measuredResistanceT2 := 0;
            measuredResistanceT3 := 0; measuredResistanceT4 := 0 |}%float)
      [1; 2; 3; 4]%Z.

(** The most recent 500 elements, oldest first. *)
Definition recent {T} (l : list T) : list T := drop (length l - 500) l.


(** ** The solver and the store: what the call owns *)

Module Frame.

Import Heap.

(** The arrays of [h0] are where they were, with what they held. *)
Definition extends (h0 h : heap) : Prop := exists fresh, h = h0 ++ fresh.

(** A triple: from a store satisfying [P], a normal outcome satisfies
    [Q] and a thrown one still extends [h0]. *)
Definition hoare (h0 : heap) {T} (P : heap -> Prop) (m : M T)
    (Q : T -> heap -> Prop) : Prop :=
  forall h, P h ->
    match m h with
    | (Ok v, h') => Q v h'
    | (Throw _, h') => extends h0 h'
    end.

(** What the copy [A], at location [a], may hold: references to arrays
    the call allocated before [A] itself, or no reference at all. *)
Definition ownedValue (h0 : heap) (a : loc) (v : value) : Prop :=
  match v with
  | Ref l => (length h0 <= l < a)%nat
  | _ => True
  end.

(** What the call may write through. *)
Definition writable (h0 : heap) (v : value) : Prop :=
  match v with
  | Ref l => (length h0 <= l)%nat
  | _ => True
  end.

Definition inv (h0 : heap) (a : loc) (h : heap) : Prop :=
  extends h0 h /\ exists rows, h !! a = Some rows /\ Forall (ownedValue h0 a) rows.

(** [m] keeps the invariant and returns a value satisfying [phi]. *)
Definition keeps (h0 : heap) (a : loc) {T} (m : M T) (phi : T -> Prop) : Prop :=
  hoare h0 (inv h0 a) m (fun v h => inv h0 a h /\ phi v).

End Frame.

(** * The rest of the page and its neighbours *)

(** ** Numbers as text and as indices *)

Module Num.

(** The digits of [n >= 0], most significant first, in front of [acc]. *)
Fixpoint digitsOf (fuel : nat) (n : Z) (acc : string) : string :=
  match fuel with
  | O => acc
  | S fuel' =>
      let acc' := String (ascii_of_nat (48 + Z.to_nat (n mod 10))) acc in
      if (n / 10 =? 0)%Z then acc' else digitsOf fuel' (n / 10) acc'
  end.

(** [n.toString()] for a Number that is an integer below [1e21] in
    magnitude: its decimal digits, with a minus sign when negative. *)
Definition intToString (z : Z) : string :=
  let fuel := S (Z.to_nat (Z.log2 (Z.abs z))) in
  if (z <? 0)%Z then String "-" (digitsOf fuel (- z) EmptyString)
  else digitsOf fuel z EmptyString.

(** The Number of an integer below [2 ^ 53] in magnitude (an array length,
    a slider position): exact. *)
Definition ofZ (z : Z) : float :=
  match z with
  | Z0 => 0%float
  | Zpos p => of_uint63 (Uint63.of_Z (Zpos p))
  | Zneg p => (- of_uint63 (Uint63.of_Z (Zpos p)))%float
  end.

(** The integer part, rounded toward minus infinity, of the finite
    Number with sign [sg], mantissa [m] and exponent [e]. *)
Definition floorFinite (sg : bool) (m : positive) (e : Z) : Z :=
  let q := Z.shiftl (Z.pos m) e in
  if sg then (if (Z.shiftl q (- e) =? Z.pos m)%Z then - q else - q - 1)%Z
  else q.

(** [Math.floor(x)]: a Number with no fractional bits, a zero, an
    infinity and NaN are returned as they are. *)
Definition floor (x : float) : float :=
  match Prim2SF x with
  | S754_finite sg m e =>
      if (0 <=? e)%Z then x
      else ofZ (floorFinite sg m e)
  | _ => x
  end.

(** [ToIntegerOrInfinity(x)]: the integer an array method reads off an
    index argument. *)
Definition toInteger (x : float) : Z :=
  match Prim2SF x with
  | S754_finite sg m e =>
      (if sg then -1 else 1) * Z.shiftl (Z.pos m) e
  | S754_infinity sg => (if sg then -1 else 1) * 2 ^ 1024
  | _ => 0
  end%Z.

(** [Math.max(a, b)]: NaN as soon as one side is NaN. *)
Definition max (a b : float) : float :=
  if isNaN a then NaN else if isNaN b then NaN
  else if (a =? b)%float then (if get_sign a then b else a)
  else if (a <? b)%float then b else a.

(** An index argument of [slice], relative to the end when negative,
    clamped to the array. *)
Definition relativeIndex (len : nat) (k : Z) : nat :=
  if (k <? 0)%Z then Z.to_nat (Z.max (Z.of_nat len + k) 0)
  else Z.to_nat (Z.min k (Z.of_nat len)).

(** [l.slice(start, end)] *)
Definition slice {T} (l : list T) (start stop : float) : list T :=
  let from := relativeIndex (length l) (toInteger start) in
  let to := relativeIndex (length l) (toInteger stop) in
  take (to - from) (drop from l).

(** [l.slice(start)] *)
Definition sliceFrom {T} (l : list T) (start : float) : list T :=
  drop (relativeIndex (length l) (toInteger start)) l.

(** [l.join(sep)] on strings *)
Fixpoint join (sep : string) (l : list string) : string :=
  match l with
  | [] => EmptyString
  | [s] => s
  | s :: rest => s +:+ sep +:+ join sep rest
  end.

End Num.

(** ** Activation switches: [handleThermistorToggle] and [sendCommand] *)

(** The updater of [handleThermistorToggle(id)]: the new thermistors and the
    command it sends. *)
Definition handleThermistorToggle (id : Z) (prev : list Thermistor)
  : list Thermistor * string :=
  let updated :=
    map (fun t =>
           if (ThermistorData.id t =? id)%Z
           then ThermistorData.mk (ThermistorData.id t) (ThermistorData.name t)
                  (ThermistorData.resistance t) (ThermistorData.temperature t)
                  (ThermistorData.color t) (negb (ThermistorData.active t))
           else t) prev in
  let activeChannels :=
    map (fun t => Num.intToString (ThermistorData.id t + 28))
        (filter (fun t => ThermistorData.active t = true) updated) in
  (updated, Num.join "," activeChannels +:+ ";1;1").

(** [sendCommand(command)]: what goes out on the port, if it is writable. *)
Definition sendCommand (writable : bool) (command : string) : option string :=
  if writable then Some (command +:+ String "010"%char EmptyString) else None.

(** ** The visible window of the chart: the effect on [chartData] and
       [timeRangeValue] *)

Definition visibleData (chartData : list ChartDataPoint) (lo hi : float)
  : list ChartDataPoint :=
  match chartData with
  | [] => []
  | _ =>
      if ((lo =? 0)%float && (hi =? 100)%float)%bool then chartData
      else
        let len := Num.ofZ (Z.of_nat (length chartData)) in
        let startIdx := Num.floor (len * lo / 100)%float in
        let endIdx := Num.floor (len * hi / 100)%float in
        Num.slice chartData startIdx (endIdx + 1)%float
  end.

(** The same effect in the variant that reads voltages. *)
Definition visibleData_voltage (chartData : list ChartDataPoint) (lo hi : float)
  : list ChartDataPoint :=
  match chartData with
  | [] => []
  | _ =>
      let len := Num.ofZ (Z.of_nat (length chartData)) in
      if ((hi =? 100)%float && (lo =? 0)%float)%bool then chartData
      else if (hi =? 100)%float then
        let visibleCount := Num.max 1 (Num.floor (len * (hi - lo) / 100)%float) in
        Num.sliceFrom chartData (- visibleCount)%float
      else
        let startIdx := Num.floor (len * lo / 100)%float in
        let endIdx := Num.floor (len * hi / 100)%float in
        Num.slice chartData startIdx (endIdx + 1)%float
  end.

(** ** The read loop over a session *)

(** The chunks of a session, each with the clock its lines are stamped
    with; the buffer and the page are threaded through. *)
Definition readLoop (ln : float -> float) (pow : float -> float -> float)
    (closureLog : list CalibrationLogEntry)
    (chunks : list (Z * string * string))
    (start : string * PageState) : string * PageState :=
  fold_left
    (fun '(buffer, st) '(timestamp, currentTimeStr, value) =>
       onChunk ln pow closureLog timestamp currentTimeStr value buffer st)
    chunks start.

(** ** [closeSerialPort] *)

Module Serial.

(** What the page holds of the transport. *)
Record Refs : Type := {
  readerRef : bool;        (* [readerRef.current] is set *)
  portRef : bool;          (* [portRef.current] is set *)
  serialConnected : bool
}.

Inductive Action : Type :=
| CancelReader           (* [readerRef.current.cancel()] *)
| ClosePort              (* [portRef.current.close()] *)
| Warn (what : string).  (* [console.warn] *)

(** [closeSerialPort()], given whether [cancel] and [close] reject and
    whether [portRef.current.readable] is set when it is tested: the refs
    afterwards and what was done, in order. *)
Definition closeSerialPort (cancelFails closeFails readable : bool) (r : Refs)
  : Refs * list Action :=
  let '(r1, t1) :=
    if readerRef r then
      ({| readerRef := false; portRef := portRef r;
          serialConnected := serialConnected r |},
       CancelReader :: (if cancelFails then [Warn "Could not cancel reader:"] else []))
    else (r, []) in
  if (portRef r1 && readable)%bool then
    ({| readerRef := readerRef r1; portRef := false; serialConnected := false |},
     t1 ++ ClosePort :: (if closeFails then [Warn "Could not close port:"] else []))
  else (r1, t1).

End Serial.

(** ** Stored coefficients: [fetchCalibrationCoeffs] and
       [computeDefaultCoeffs] of [src/pages/CalibrationPage.tsx] *)

Definition defaultCoeffs : CalibrationCoeffs :=
  {| A := 0.00095373842882; B := 0.00021617543909;
     C := 5.623922283161e-06; D := -8.684159121295e-08 |}%float.

Definition computeDefaultCoeffs : gmap Z CalibrationCoeffs :=
  {[ 29%Z := defaultCoeffs; 30%Z := defaultCoeffs;
     31%Z := defaultCoeffs; 32%Z := defaultCoeffs ]}.

(** The answer to [GET /calibrations/{id}/coeffs]. *)
Inductive CoeffsResponse : Type :=
| FetchRejected                                         (* [fetch] throws *)
| NotOk                                                 (* [!res.ok] *)
| JsonRejected                                          (* [res.json()] throws *)
| Json (data : option (gmap Z CalibrationCoeffs)).      (* [None] is [null] *)

(** The page of that variant: thermistors and stored coefficients. *)
Record StoredPage : Type := {
  sp_thermistors : list Thermistor;
  sp_calibrationCoeffs : gmap Z CalibrationCoeffs
}.

(** The [data] that [fetchCalibrationCoeffs] settles on, when it gets that
    far. *)
Definition settledCoeffs (r : CoeffsResponse) : option (gmap Z CalibrationCoeffs) :=
  let complete (data : gmap Z CalibrationCoeffs) : bool :=
    (bool_decide (is_Some (data !! 29%Z)) && bool_decide (is_Some (data !! 30%Z))
     && bool_decide (is_Some (data !! 31%Z)) && bool_decide (is_Some (data !! 32%Z)))%bool in
  match r with
  | FetchRejected | JsonRejected => None
  | NotOk => Some computeDefaultCoeffs                   (* [data = {}] *)
  | Json None => Some computeDefaultCoeffs
  | Json (Some data) => if complete data then Some data else Some computeDefaultCoeffs
  end.

Definition fetchCalibrationCoeffs (ln : float -> float) (pow : float -> float -> float)
    (r : CoeffsResponse) (st : StoredPage) : StoredPage :=
  match settledCoeffs r with
  | None => st
  | Some data =>
      {| sp_calibrationCoeffs := data;
         sp_thermistors :=
           map (fun t =>
                  if negb (ThermistorData.active t) then t
                  else
                    let channel := (ThermistorData.id t + 28)%Z in
                    ThermistorData.mk (ThermistorData.id t) (ThermistorData.name t)
                      (ThermistorData.resistance t)
                      (tempC ln pow (ThermistorData.resistance t) (data !! channel))
                      (ThermistorData.color t) (ThermistorData.active t))
               (sp_thermistors st) |}
  end.

(** ** Session storage: [handleLogin], the two logouts, [PrivateRoute] *)

Module Session.

(** [localStorage] *)
Abbreviation Storage := (gmap string string).

(** The body of a successful answer to [POST /login], its numbers
    already written out ([toString]). *)
Record LoginData : Type := {
  access_token : string;
  username : string;
  permission : string;
  user_id : string
}.

(** [handleLogin]: [None] stands for a refused or failed request. *)
Definition handleLogin (answer : option LoginData) (s : Storage) : Storage :=
  match answer with
  | None => s
  | Some data =>
      <["user_id" := user_id data]>
        (<["permission" := permission data]>
           (<["username" := username data]>
              (<["access_token" := access_token data]> s)))
  end.

(** [onLogout] of the calibration page. *)
Definition logoutPage (s : Storage) : Storage :=
  delete "username" (delete "isAuthenticated" s).

(** [onLogout] of the dashboard. *)
Definition logoutIndex (s : Storage) : Storage :=
  delete "user_id" (delete "username" (delete "isAuthenticated" s)).

Inductive Rendered : Type :=
| Outlet                  (* the private pages *)
| NavigateToLogin.        (* [<Navigate to="/" />] *)

(** [PrivateRoute]: a token that is set and not empty. *)
Definition PrivateRoute (s : Storage) : Rendered :=
  match s !! "access_token" with
  | Some (String _ _) => Outlet
  | _ => NavigateToLogin
  end.

(** [localStorage.getItem("username") || "Admin"] *)
Definition shownUsername (s : Storage) : string :=
  match s !! "username" with
  | Some (String c r) => String c r
  | _ => "Admin"
  end.

End Session.

(** ** The dashboard: [handleCreateNew] and [handleDelete] of
       [CalibrationIndex] *)

Module Index.

Record Calibration : Type := {
  id : string;
  name : string;
  createdAt : string;
  user : string
}.

(** [handleDelete(id)] once the request has settled. [calibrations] is
    the list of the render the handler was created in. *)
Definition handleDelete (calibrations : list Calibration) (target : string)
    (confirmed ok : bool) (current : list Calibration) : list Calibration :=
  if (confirmed && ok)%bool
  then filter (fun cal => id cal <> target) calibrations
  else current.

(** [handleCreateNew()] once the request has settled; [project] is the
    answer of the server, [None] when it refused. Nothing is sent for a
    blank name. *)
Definition handleCreateNew (calibrations : list Calibration)
    (newCalibrationName : string) (project : option Calibration)
    (current : list Calibration) : list Calibration :=
  match Str.trim newCalibrationName with
  | EmptyString => current
  | _ =>
      match project with
      | Some newCal => calibrations ++ [newCal]
      | None => current
      end
  end.

End Index.

(** ** The device simulator: the pacing of [loop()] *)

Module Sketch.

(** [unsigned long] on the board: 32 bits. *)
Definition wrap (z : Z) : Z := z mod 2 ^ 32.

Definition interval : Z := 500.

(** [currentMillis - previousMillis >= interval] *)
Definition due (currentMillis previousMillis : Z) : bool :=
  (interval <=? wrap (currentMillis - previousMillis))%Z.

(** One pass of [loop()] on the pacing state: the new [previousMillis]
    and whether a line is sent. *)
Definition pass (currentMillis previousMillis : Z) : Z * bool :=
  if due currentMillis previousMillis then (currentMillis, true)
  else (previousMillis, false).

End Sketch.

(** ** Vocabulary of the properties below *)

(** Nothing but white space. *)
Fixpoint allWhiteSpace (s : string) : Prop :=
  match s with
  | EmptyString => True
  | String c r => Str.isWhiteSpace c = true /\ allWhiteSpace r
  end.

(** A token that parses, with channel id [channel] and value [value]. *)
Definition tokenReads (token : string) (channel : Z) (value : float) : Prop :=
  exists p0 p1,
    Str.split ":" token = [p0; p1] /\ Str.parseInt p0 = Some channel /\
    Str.parseFloat p1 = value /\ isNaN value = false.

(** An active thermistor with its reading marked unavailable. *)
Definition unavailable (t : Thermistor) : Thermistor :=
  if ThermistorData.active t
  then ThermistorData.mk (ThermistorData.id t) (ThermistorData.name t) NaN NaN
         (ThermistorData.color t) (ThermistorData.active t)
  else t.

(** What an update of the channel store never changes. *)
Definition sameIdentity (t t' : Thermistor) : Prop :=
  ThermistorData.id t' = ThermistorData.id t /\
  ThermistorData.name t' = ThermistorData.name t /\
  ThermistorData.color t' = ThermistorData.color t /\
  ThermistorData.active t' = ThermistorData.active t.

(** The ordinals of a log run 1, 2, 3, ... in order. *)
Definition consecutive (log : list CalibrationLogEntry) : Prop :=
  map calibrationNumber log = map Z.of_nat (seq 1 (length log)).

(** The thermistors once the [then] callback of a capture has run with the
    log [closureLog]: refitted, or as they were when the fit throws. *)
Definition refitted (ln : float -> float) (pow : float -> float -> float)
    (closureLog : list CalibrationLogEntry) (ts : list Thermistor) : list Thermistor :=
  match mapM (refitThermistor ln pow closureLog) ts with
  | Ok ts' => ts'
  | Throw _ => ts
  end.

(** A request that passes the validation of [handleCalibrate]. *)
Definition validRequest (st : PageState) (measured : float) : Prop :=
  measuredTempInput st = Some measured /\ isNaN measured = false /\
  exists t, t ∈ thermistors st /\ ThermistorData.active t = true.

(** The thermistors after one telemetry line. *)
Definition telemetryStep (ln : float -> float) (pow : float -> float -> float)
    (closureLog : list CalibrationLogEntry) (line : string) (ts : list Thermistor)
  : list Thermistor :=
  let trimmed := Str.trim line in
  if (String.eqb trimmed EmptyString || Str.startsWith "ets" trimmed)%bool then ts
  else
    match mapM (updateThermistor ln pow closureLog (parseLine trimmed)) ts with
    | Ok ts' => ts'
    | Throw _ => ts
    end.

(** What a chunk carries. *)
Definition chunkText (chunk : Z * string * string) : string := snd chunk.

(** The index arithmetic of the visible window agrees with integer
    arithmetic for a chart of [len] points and a slider at [v]: the two
    tests on the slider, the floor of [len * v / 100], one past it, and the
    count of the variant that reads voltages. *)
Definition windowIndexOk (len v : nat) : bool :=
  let n := Num.ofZ (Z.of_nat len) in
  let x := Num.ofZ (Z.of_nat v) in
  let k := Num.floor (n * x / 100)%float in
  let q := (Z.of_nat len * Z.of_nat v / 100)%Z in
  (Bool.eqb (x =? 0)%float (v =? 0)%nat
   && Bool.eqb (x =? 100)%float (v =? 100)%nat
   && (Num.toInteger k =? q)%Z
   && (Num.toInteger (k + 1)%float =? q + 1)%Z
   && (Num.toInteger
         (- Num.max 1 (Num.floor (n * (100 - x) / 100)%float))%float
       =? - Z.max 1 (Z.of_nat len * (100 - Z.of_nat v) / 100))%Z)%bool.

(** ** The solver on the store against the solver on values *)

Module Repr.

Import Heap.

(** [v] refers to an array that holds the numbers [xs]. *)
Definition holdsVector (h : heap) (v : value) (xs : vector) : Prop :=
  exists l, v = Ref l /\ h !! l = Some (map Num xs).

(** [v] refers to an array of references to arrays that hold the rows of
    [rows]; nothing is asked of the references: rows may share an array,
    and so may a row and the right-hand side. *)
Definition holdsMatrix (h : heap) (v : value) (rows : matrix) : Prop :=
  exists l refs, v = Ref l /\ h !! l = Some refs /\ Forall2 (holdsVector h) refs rows.

(** The working copies: [A] at [a], an array of references to arrays of
    its own that hold the rows of [rows], and [b] at [c], all apart. *)
Definition working (h : heap) (a c : loc) (rows : matrix) (b : vector) : Prop :=
  shape4 rows b /\
  exists locs,
    h !! a = Some (map Ref locs) /\ NoDup (a :: c :: locs) /\
    Forall2 (fun l row => h !! l = Some (map Num row)) locs rows /\
    h !! c = Some (map Num b).

(** The outcome on the store agrees with the outcome on values: the same
    error, or a reference to an array that holds the solution. *)
Definition agrees (expected : res vector) (outcome : res value * heap) : Prop :=
  match expected, outcome with
  | Ok x, (Ok v, h) => holdsVector h v x
  | Throw e, (Throw e', _) => e = e'
  | _, _ => False
  end.

End Repr.

(** ** The export of the log: [exportCalibrationLog] *)

Module Csv.

Section Rendering.

(** [Number.prototype.toString] and [x.toFixed(2)]. *)
Variable numberToString : float -> string.
Variable toFixed2 : float -> string.

(** A Number used as a condition: false for NaN and for both zeros. *)
Definition truthy (x : float) : bool := negb (isNaN x || (x =? 0)%float).

Definition headers : list string :=
  ["Calibration #"; "Time"; "Measured Temperature (°C)";
   "Resistance T1 (Ω)"; "Resistance T2 (Ω)";
   "Resistance T3 (Ω)"; "Resistance T4 (Ω)"].

(** [r ? r.toFixed(2) : ''] *)
Definition cell (r : float) : string :=
  if truthy r then toFixed2 r else EmptyString.

Definition row (log : CalibrationLogEntry) : string :=
  Num.join ","
    [Num.intToString (calibrationNumber log);
     time log;
     numberToString (measuredTemperature log);
     cell (measuredResistanceT1 log);
     cell (measuredResistanceT2 log);
     cell (measuredResistanceT3 log);
     cell (measuredResistanceT4 log)].

(** The text of the file; [None] when the log is empty (an alert is
    shown and nothing is downloaded). *)
Definition exportCalibrationLog (calibrationLog : list CalibrationLogEntry)
  : option string :=
  match calibrationLog with
  | [] => None
  | _ =>
      Some (Num.join (String "010"%char EmptyString)
              (Num.join "," headers :: map row calibrationLog))
  end.

End Rendering.

End Csv.

(** * Properties *)

(** ** Line framer *)

Lemma append_cons c (s t : string) : String c s +:+ t = String c (s +:+ t).
Proof. reflexivity. Qed.

Lemma append_nil (t : string) : EmptyString +:+ t = t.
Proof. reflexivity. Qed.

Lemma app_empty_r (s : string) : s +:+ EmptyString = s.
Proof.
  induction s as [|c s IH]; [reflexivity | now rewrite append_cons, IH].
Qed.

Lemma app_assoc_s (s t u : string) : (s +:+ t) +:+ u = s +:+ (t +:+ u).
Proof.
  induction s as [|c s IH]; [reflexivity | now rewrite !append_cons, IH].
Qed.

Lemma split_nonempty sep s : Str.split sep s <> [].
Proof.
  destruct s as [|c r]; simpl; [discriminate|].
  destruct (Ascii.eqb c sep); [discriminate|].
  destruct (Str.split sep r); discriminate.
Qed.

Lemma popLast_cons_cons (x y : string) l :
  popLast (x :: y :: l) = (x :: fst (popLast (y :: l)), snd (popLast (y :: l))).
Proof. unfold popLast. simpl. reflexivity. Qed.

Lemma popLast_singleton (x : string) : popLast [x] = ([], x).
Proof. reflexivity. Qed.

Arguments popLast : simpl never.

Lemma split_cons sep c r :
  Str.split sep (String c r) =
  if Ascii.eqb c sep then EmptyString :: Str.split sep r
  else match Str.split sep r with
       | h :: t => String c h :: t
       | [] => [String c EmptyString]
       end.
Proof. reflexivity. Qed.

(** Splitting a text in two: the lines complete in the first part, then the
    split of its unfinished fragment followed by the second part. *)
Lemma split_app sep s t :
  Str.split sep (s +:+ t) =
  fst (popLast (Str.split sep s)) ++ Str.split sep (snd (popLast (Str.split sep s)) +:+ t).
Proof.
  induction s as [|c r IH]; [reflexivity|].
  rewrite append_cons, !split_cons.
  pose proof (split_nonempty sep r) as Hne.
  destruct (Str.split sep r) as [|h l] eqn:Hr; [congruence|].
  rewrite IH. clear IH.
  destruct (Ascii.eqb c sep) eqn:Hc.
  - rewrite popLast_cons_cons. reflexivity.
  - destruct l as [|h' l'].
    + rewrite !popLast_singleton. cbn [fst snd app].
      rewrite append_cons, split_cons, Hc. reflexivity.
    + rewrite !popLast_cons_cons. reflexivity.
Qed.

Lemma split_unterminated s : unterminated s -> Str.split newline s = [s].
Proof.
  induction s as [|c r IH]; [reflexivity|].
  intros [Hc Hr]. rewrite split_cons, (IH Hr).
  destruct (Ascii.eqb_spec c newline); [contradiction | reflexivity].
Qed.

Lemma terminated_cons l lines :
  terminated (l :: lines) = l +:+ String newline (terminated lines).
Proof. reflexivity. Qed.

(** What the split of a text is made of. *)
Lemma split_spec s :
  let '(lines, rest) := popLast (Str.split newline s) in
  s = terminated lines +:+ rest /\ unterminated rest /\ Forall unterminated lines.
Proof.
  induction s as [|c r IH].
  - cbn [Str.split]. rewrite popLast_singleton. repeat split; constructor.
  - rewrite split_cons.
    pose proof (split_nonempty newline r) as Hne.
    destruct (Str.split newline r) as [|h l] eqn:Hr; [congruence|].
    destruct (Ascii.eqb_spec c newline) as [->|Hc].
    + rewrite popLast_cons_cons.
      destruct (popLast (h :: l)) as [lines rest]. cbn [fst snd].
      destruct IH as (-> & Hrest & Hlines).
      rewrite terminated_cons, append_nil, append_cons.
      repeat split; auto. constructor; [exact I | assumption].
    + destruct l as [|h' l'].
      * rewrite popLast_singleton in *.
        destruct IH as (-> & Hrest & _).
        repeat split; auto; try constructor; try split; auto.
      * rewrite !popLast_cons_cons in *.
        destruct (popLast (h' :: l')) as [lines rest]. cbn [fst snd] in *.
        destruct IH as (-> & Hrest & Hlines).
        inversion Hlines as [|? ? Hh Hl]; subst.
        rewrite !terminated_cons, !append_cons.
        repeat split; auto. constructor; [split; assumption | assumption].
Qed.

Lemma feed_spec buffer value :
  unterminated buffer ->
  feed buffer value = popLast (Str.split newline (buffer +:+ value)).
Proof.
  intros Hb. destruct value as [|c v]; [|reflexivity].
  rewrite app_empty_r, (split_unterminated _ Hb). reflexivity.
Qed.

Lemma feed_unterminated buffer value :
  unterminated buffer -> unterminated (snd (feed buffer value)).
Proof.
  intros Hb. rewrite (feed_spec _ _ Hb).
  pose proof (split_spec (buffer +:+ value)) as H.
  destruct (popLast _) as [lines rest]. tauto.
Qed.

Lemma popLast_app (l1 l2 : list string) :
  l2 <> [] ->
  popLast (l1 ++ l2) = (l1 ++ fst (popLast l2), snd (popLast l2)).
Proof.
  intros Hne. unfold popLast. simpl. f_equal.
  - induction l1 as [|x l1 IH]; simpl; [reflexivity|].
    destruct (l1 ++ l2) eqn:E.
    + apply app_eq_nil in E. tauto.
    + now rewrite IH.
  - rewrite last_app. destruct (last l2) eqn:E; [reflexivity|].
    apply last_None in E. contradiction.
Qed.

(** Feeding two pieces one after the other is feeding their concatenation. *)
Lemma feed_app buffer v1 v2 :
  unterminated buffer ->
  let '(lines1, b1) := feed buffer v1 in
  let '(lines2, b2) := feed b1 v2 in
  feed buffer (v1 +:+ v2) = (lines1 ++ lines2, b2).
Proof.
  intros Hb.
  pose proof (feed_unterminated buffer v1 Hb) as Hb1.
  rewrite (feed_spec buffer (v1 +:+ v2) Hb).
  rewrite (feed_spec buffer v1 Hb) in *.
  destruct (popLast (Str.split newline (buffer +:+ v1))) as [lines1 b1] eqn:E1.
  simpl in Hb1. rewrite (feed_spec b1 v2 Hb1).
  destruct (popLast (Str.split newline (b1 +:+ v2))) as [lines2 b2] eqn:E2.
  rewrite <- app_assoc_s, split_app, E1. simpl.
  rewrite popLast_app by apply split_nonempty. now rewrite E2.
Qed.

Lemma feedAll_from out buffer chunks :
  fold_left
    (fun '(out, buffer) value =>
       let '(lines, buffer') := feed buffer value in (out ++ lines, buffer'))
    chunks (out, buffer)
  = (out ++ fst (feedAll buffer chunks), snd (feedAll buffer chunks)).
Proof.
  unfold feedAll. revert out buffer.
  induction chunks as [|v chunks IH]; intros out buffer; simpl.
  - now rewrite app_nil_r.
  - destruct (feed buffer v) as [lines b1]. rewrite IH. simpl.
    rewrite (IH lines b1). simpl. now rewrite app_assoc.
Qed.

Lemma feedAll_cons buffer v chunks :
  feedAll buffer (v :: chunks) =
  (fst (feed buffer v) ++ fst (feedAll (snd (feed buffer v)) chunks),
   snd (feedAll (snd (feed buffer v)) chunks)).
Proof.
  unfold feedAll at 1. simpl. destruct (feed buffer v) as [lines b1].
  rewrite feedAll_from. reflexivity.
Qed.

Lemma feedAll_joined buffer chunks :
  unterminated buffer ->
  feedAll buffer chunks = feed buffer (joined chunks).
Proof.
  revert buffer. induction chunks as [|v chunks IH]; intros buffer Hb.
  - reflexivity.
  - rewrite feedAll_cons. simpl joined.
    pose proof (feed_app buffer v (joined chunks) Hb) as H.
    pose proof (feed_unterminated buffer v Hb) as Hb1.
    destruct (feed buffer v) as [lines1 b1]. simpl in *.
    rewrite (IH b1 Hb1). destruct (feed b1 (joined chunks)) as [lines2 b2].
    now rewrite H.
Qed.

(** C5: the lines the framer delivers, and the tail it keeps, depend on the
    text received and not on how it was cut into chunks: feeding the chunks
    in order gives what feeding the whole text at once gives, namely the
    newline-terminated lines of the text in order, each once, and the
    unterminated rest as the new tail. *)
Theorem framer_chunking_invariant (chunks : list string) :
  feedAll EmptyString chunks = feedAll EmptyString [joined chunks] /\
  let '(lines, rest) := feedAll EmptyString chunks in
  joined chunks = terminated lines +:+ rest /\
  unterminated rest /\ Forall unterminated lines.
Proof.
  assert (Hu : unterminated EmptyString) by exact I.
  rewrite (feedAll_joined _ chunks Hu). split.
  - rewrite (feedAll_joined _ [joined chunks] Hu). simpl. now rewrite app_empty_r.
  - rewrite (feed_spec _ _ Hu). simpl. apply split_spec.
Qed.

Example framer_split_everywhere :
  feedAll EmptyString ["29:1"; "20.5;31"; ":0"; String newline "30"; ":7"; String newline ""]
  = (["29:120.5;31:0"; "30:7"], EmptyString).
Proof. vm_compute. reflexivity. Qed.

(** ** Order of binary64 values *)

Lemma SFltb_rank x y : SFltb x y = true <-> rank_lt x y.
Proof.
  unfold SFltb, rank_lt.
  destruct x as [[|]|[|]| |[|] m1 e1], y as [[|]|[|]| |[|] m2 e2];
    cbn [SFcompare rank lexlt]; try rank_case.
  all: change (Pos.compare_cont Eq m1 m2) with (Pos.compare m1 m2).
  all: destruct (Z.compare_spec e1 e2) as [->|Hlt|Hgt]; try rank_case.
  all: destruct (Pos.compare_spec m1 m2) as [->|Hm|Hm]; cbn [CompOpp]; rank_case.
Qed.

Lemma ltb_rank (x y : float) : (x <? y)%float = true <-> rank_lt (Prim2SF x) (Prim2SF y).
Proof. rewrite ltb_spec. apply SFltb_rank. Qed.

Lemma rank_lt_irrefl x : ~ rank_lt x x.
Proof. unfold rank_lt. destruct (rank x) as [[[a b] c]|]; cbn; lia. Qed.

Lemma rank_lt_trans x y z : rank_lt x y -> rank_lt y z -> rank_lt x z.
Proof.
  unfold rank_lt.
  destruct (rank x) as [[[a1 a2] a3]|], (rank y) as [[[b1 b2] b3]|],
    (rank z) as [[[c1 c2] c3]|]; cbn; lia.
Qed.

(** Between two ordered values, a third one that is not NaN is above the
    smaller or below the larger. *)
Lemma rank_lt_cotrans x y z :
  rank_lt x z -> rank y <> None -> rank_lt x y \/ rank_lt y z.
Proof.
  unfold rank_lt.
  destruct (rank x) as [[[a1 a2] a3]|], (rank y) as [[[b1 b2] b3]|],
    (rank z) as [[[c1 c2] c3]|]; cbn; try lia; congruence.
Qed.

Lemma gt_irrefl a : gt a a = false.
Proof.
  destruct (gt a a) eqn:E; [|reflexivity].
  apply ltb_rank in E. now apply rank_lt_irrefl in E.
Qed.

Lemma gt_trans a b c : gt a b = true -> gt b c = true -> gt a c = true.
Proof.
  unfold gt. rewrite !ltb_rank. intros H1 H2. exact (rank_lt_trans _ _ _ H2 H1).
Qed.

Lemma gt_nan_r a b : rank (Prim2SF b) = None -> gt a b = false.
Proof.
  intros Hb. destruct (gt a b) eqn:E; [|reflexivity].
  apply ltb_rank in E. unfold rank_lt in E. rewrite Hb in E. contradiction.
Qed.

(** "Does not exceed" chains through a value that is not NaN. *)
Lemma gt_false_trans a b c :
  rank (Prim2SF b) <> None ->
  gt a b = false -> gt b c = false -> gt a c = false.
Proof.
  intros Hb H1 H2. destruct (gt a c) eqn:E; [|reflexivity].
  unfold gt in *. apply ltb_rank in E.
  destruct (rank_lt_cotrans _ (Prim2SF b) _ E Hb) as [H|H];
    apply ltb_rank in H; congruence.
Qed.

(** [x <= 0] excludes [x > 0]. *)
Lemma leb_not_gt (x y : float) : (x <=? y)%float = true -> gt x y = false.
Proof.
  intros H. destruct (gt x y) eqn:E; [|reflexivity]. exfalso.
  unfold gt in E. rewrite ltb_spec in E. rewrite leb_spec in H.
  unfold SFltb, SFleb in *.
  destruct (Prim2SF x) as [[|]|[|]| |[|] m1 e1], (Prim2SF y) as [[|]|[|]| |[|] m2 e2];
    cbn [SFcompare] in *; try discriminate.
  all: change (Pos.compare_cont Eq m1 m2) with (Pos.compare m1 m2) in H.
  all: change (Pos.compare_cont Eq m2 m1) with (Pos.compare m2 m1) in E.
  all: rewrite (Z.compare_antisym e1 e2), (Pos.compare_antisym m1 m2) in E.
  all: destruct (e1 ?= e2)%Z, (m1 ?= m2)%positive; cbn in *; discriminate.
Qed.

(** ** Coefficient solver *)

Section PivotSearch.

(** The magnitudes of the pivot column. *)
Variable f : nat -> float.

Lemma search_nan ks m0 :
  rank (Prim2SF (f m0)) = None -> fold_left (searchStep f) ks m0 = m0.
Proof.
  intros Hnan. induction ks as [|k ks IH]; [reflexivity|].
  cbn [fold_left]. unfold searchStep at 2. now rewrite gt_nan_r.
Qed.

Lemma search_range ks m0 :
  fold_left (searchStep f) ks m0 = m0 \/ In (fold_left (searchStep f) ks m0) ks.
Proof.
  revert m0. induction ks as [|k ks IH]; intros m0; [now left|].
  cbn [fold_left]. destruct (IH (searchStep f m0 k)) as [H|H].
  - rewrite H. unfold searchStep. destruct (gt _ _); [right; now left | now left].
  - right. now right.
Qed.

(** No row the search went through exceeds the one it returns. *)
Lemma search_max ks m0 :
  let m := fold_left (searchStep f) ks m0 in
  gt (f m0) (f m) = false /\ forall k, In k ks -> gt (f k) (f m) = false.
Proof.
  revert m0. induction ks as [|k ks IH]; intros m0; cbn [fold_left].
  - split; [apply gt_irrefl | intros k []].
  - remember (searchStep f m0 k) as m1 eqn:Hm1.
    destruct (IH m1) as [H0 Hks]. unfold searchStep in Hm1.
    destruct (gt (f k) (f m0)) eqn:Hk; subst m1.
    + split.
      * destruct (gt (f m0) (f (fold_left (searchStep f) ks k))) eqn:E; [|reflexivity].
        rewrite (gt_trans _ _ _ Hk E) in H0. discriminate.
      * intros k' [<-|Hin]; [exact H0 | now apply Hks].
    + split; [exact H0|].
      intros k' [<-|Hin]; [|now apply Hks].
      destruct (rank (Prim2SF (f m0))) eqn:Hr.
      * apply (gt_false_trans _ (f m0)); [congruence | exact Hk | exact H0].
      * rewrite (search_nan ks m0 Hr). exact Hk.
Qed.

End PivotSearch.

Lemma findMaxRow_search A i :
  findMaxRow A i =
  fold_left (searchStep (fun k => abs (mget A k i))) (seq (i + 1) (n - (i + 1))) i.
Proof. reflexivity. Qed.

(** The search returns a row from the pivot row down whose entry in the
    pivot column no row from the pivot row down exceeds in magnitude. *)
Lemma findMaxRow_spec A i :
  (i < 4)%nat ->
  let m := findMaxRow A i in
  (i <= m < 4)%nat /\
  forall k, (i <= k < 4)%nat -> gt (abs (mget A k i)) (abs (mget A m i)) = false.
Proof.
  intros Hi. cbv zeta. rewrite findMaxRow_search.
  set (f := fun k => abs (mget A k i)).
  pose proof (search_range f (seq (i + 1) (n - (i + 1))) i) as Hr.
  pose proof (search_max f (seq (i + 1) (n - (i + 1))) i) as [H0 Hks].
  set (m := fold_left (searchStep f) _ i) in *.
  unfold n in *. split.
  - destruct Hr as [->|Hin]; [lia|]. apply in_seq in Hin. lia.
  - intros k Hk. destruct (Nat.eq_dec k i) as [->|Hne]; [exact H0|].
    apply (Hks k). apply in_seq. lia.
Qed.

Lemma swap_length {T} (l : list T) i m : length (swap l i m) = length l.
Proof.
  unfold swap. destruct (l !! i), (l !! m); rewrite ?length_insert; reflexivity.
Qed.

Lemma swap_lookup {T} (l : list T) i m k :
  (i < length l)%nat -> (m < length l)%nat ->
  swap l i m !! k =
  l !! (if Nat.eq_dec k m then i else if Nat.eq_dec k i then m else k).
Proof.
  intros Hi Hm. unfold swap.
  destruct (lookup_lt_is_Some_2 l i Hi) as [a Ha].
  destruct (lookup_lt_is_Some_2 l m Hm) as [c Hc].
  rewrite Ha, Hc.
  destruct (Nat.eq_dec k m) as [->|Hkm].
  - rewrite list_lookup_insert_eq by (rewrite length_insert; lia). now rewrite Ha.
  - rewrite list_lookup_insert_ne by congruence.
    destruct (Nat.eq_dec k i) as [->|Hki].
    + rewrite list_lookup_insert_eq by lia. now rewrite Hc.
    + now rewrite list_lookup_insert_ne by congruence.
Qed.

Lemma mget_lookup A k i : mget A k i = nth i (default [] (A !! k)) NaN.
Proof. unfold mget. now rewrite (nth_lookup A k []). Qed.

Lemma mget_swap A i m k c :
  (i < length A)%nat -> (m < length A)%nat ->
  mget (swap A i m) k c =
  mget A (if Nat.eq_dec k m then i else if Nat.eq_dec k i then m else k) c.
Proof. intros Hi Hm. rewrite !mget_lookup, swap_lookup by assumption. reflexivity. Qed.

Lemma mset_length A k j v : length (mset A k j v) = length A.
Proof. unfold mset. apply length_insert. Qed.

Lemma elimRow_length i k factor A : length (elimRow i k factor A) = length A.
Proof.
  unfold elimRow. generalize (seq i (n - i)) as js. intros js. revert A.
  induction js as [|j js IH]; intros A; [reflexivity|].
  cbn [fold_left]. rewrite IH. apply mset_length.
Qed.

Lemma elimBelow_length i Ab : length (fst (elimBelow i Ab)) = length (fst Ab).
Proof.
  unfold elimBelow. generalize (seq (i + 1) (n - (i + 1))) as ks. intros ks. revert Ab.
  induction ks as [|k ks IH]; intros [A b]; [reflexivity|].
  cbn [fold_left]. rewrite IH. cbn [fst]. apply elimRow_length.
Qed.

Lemma pivotSwap_length i Ab : length (fst (pivotSwap i Ab)) = length (fst Ab).
Proof. destruct Ab as [A b]. cbn. apply swap_length. Qed.

Lemma stateBefore_length i X Y : length (fst (stateBefore i X Y)) = length X.
Proof.
  unfold stateBefore. change X with (fst (X, Y)) at 2.
  generalize (X, Y) as Ab. generalize (seq 0 i) as steps.
  induction steps as [|j steps IH]; intros Ab; [reflexivity|].
  cbn [fold_left]. rewrite IH. unfold pivotStep.
  now rewrite elimBelow_length, pivotSwap_length.
Qed.

(** After the swap the pivot position holds an entry of largest magnitude
    among the rows from the pivot row down. *)
Lemma pivotSwap_largest A b i :
  length A = 4%nat -> (i < 4)%nat ->
  let A1 := fst (pivotSwap i (A, b)) in
  let m := findMaxRow A i in
  (i <= m < 4)%nat /\ A1 = swap A i m /\ mget A1 i i = mget A m i /\
  (forall k, (i <= k < 4)%nat -> gt (abs (mget A k i)) (abs (mget A m i)) = false) /\
  (forall k, (i <= k < 4)%nat -> gt (abs (mget A1 k i)) (abs (mget A1 i i)) = false).
Proof.
  intros HA Hi. cbv zeta. cbn [pivotSwap fst].
  destruct (findMaxRow_spec A i Hi) as [Hm Hmax].
  remember (findMaxRow A i) as m eqn:Heqm. clear Heqm.
  assert (Hpiv : mget (swap A i m) i i = mget A m i).
  { rewrite mget_swap by lia.
    destruct (Nat.eq_dec i m) as [->|_]; [reflexivity|].
    destruct (Nat.eq_dec i i); [reflexivity | congruence]. }
  repeat split; try lia; try assumption.
  intros k Hk. rewrite Hpiv, mget_swap by lia.
  apply Hmax. destruct (Nat.eq_dec k m); [lia|]. destruct (Nat.eq_dec k i); lia.
Qed.

(** The forward phase throws exactly when one of the pivots it would reach
    is below the threshold. *)
Lemma eliminate_throws steps Ab :
  eliminate steps Ab = Throw SingularMatrix <->
  exists j i, steps !! j = Some i /\
    lt (abs (mget (fst (pivotSwap i (fold_left (fun Ab j => pivotStep j Ab)
                                          (take j steps) Ab))) i i)) threshold = true.
Proof.
  revert Ab. induction steps as [|i steps IH]; intros Ab.
  - split; [discriminate | intros (j & i & H & _); discriminate].
  - cbn [eliminate].
    destruct (lt (abs (mget (fst (pivotSwap i Ab)) i i)) threshold) eqn:Hp.
    + split; [|reflexivity]. intros _. exists 0%nat, i. split; [reflexivity | exact Hp].
    + rewrite IH. split.
      * intros (j & i' & Hj & Hlt). exists (S j), i'. split; [exact Hj | exact Hlt].
      * intros ([|j] & i' & Hj & Hlt).
        -- cbn in Hj. injection Hj as <-. cbn [take fold_left] in Hlt. congruence.
        -- exists j, i'. split; [exact Hj | exact Hlt].
Qed.

Lemma eliminate_error steps Ab e : eliminate steps Ab = Throw e -> e = SingularMatrix.
Proof.
  revert Ab. induction steps as [|i steps IH]; intros Ab; cbn [eliminate].
  - discriminate.
  - destruct (lt _ _); [congruence | apply IH].
Qed.

Lemma solve_throws X Y e :
  solveLinearSystem X Y = Throw e <-> eliminate (seq 0 n) (X, Y) = Throw e.
Proof.
  unfold solveLinearSystem. destruct (eliminate (seq 0 n) (X, Y)); cbn; split; congruence.
Qed.

Lemma solve_error X Y e : solveLinearSystem X Y = Throw e -> e = SingularMatrix.
Proof. rewrite solve_throws. apply eliminate_error. Qed.

Lemma solve_singular_iff X Y :
  solveLinearSystem X Y = Throw SingularMatrix <->
  exists i, (i < 4)%nat /\ lt (abs (pivotAt i X Y)) threshold = true.
Proof.
  rewrite solve_throws, eliminate_throws. unfold pivotAt, stateBefore, n. split.
  - intros (j & i & Hj & Hlt).
    apply lookup_seq in Hj as [-> Hj]. rewrite take_seq, Nat.min_l in Hlt by lia.
    exists j. auto.
  - intros (i & Hi & Hlt). exists i, i. split.
    + apply lookup_seq. auto.
    + rewrite take_seq, Nat.min_l by lia. exact Hlt.
Qed.

(** ** Point selection of [computeCoeffs] *)

Lemma collectPoints_from channel calibrationLog acc :
  fold_left
    (fun points log =>
       let r := channelResistance channel log in
       if gt r 0 then
         points ++ [{| pt_resistance := r;
                       pt_temperature := (measuredTemperature log + 273.15)%float |}]
       else points)
    calibrationLog acc
  = acc ++ map (toKelvinPoint channel) (positiveEntries channel calibrationLog).
Proof.
  revert acc. induction calibrationLog as [|log rest IH]; intros acc.
  - cbn. now rewrite app_nil_r.
  - cbn [fold_left]. rewrite IH. unfold positiveEntries. rewrite filter_cons.
    destruct (decide (gt (channelResistance channel log) 0 = true)) as [Hpos|Hneg].
    + rewrite Hpos. cbn [map]. now rewrite <- app_assoc.
    + apply not_true_is_false in Hneg. now rewrite Hneg.
Qed.

Lemma collectPoints_positive channel calibrationLog :
  collectPoints channel calibrationLog =
  map (toKelvinPoint channel) (positiveEntries channel calibrationLog).
Proof. unfold collectPoints. now rewrite collectPoints_from. Qed.

(** Fewer than four points: the four writes leave the reference pairs and
    nothing else; otherwise the splice keeps the last four. *)
Lemma selectPoints_spec points :
  selectPoints points =
  if (length points <? 4)%nat then standardPoints else lastFour points.
Proof.
  unfold selectPoints. destruct (length points <? 4)%nat eqn:Hlen; [|reflexivity].
  apply Nat.ltb_lt in Hlen.
  destruct points as [|p0 [|p1 [|p2 [|p3 rest]]]]; try reflexivity.
  cbn in Hlen. lia.
Qed.

Lemma lastFour_map {T U} (g : T -> U) (l : list T) :
  lastFour (map g l) = map g (lastFour l).
Proof. unfold lastFour. now rewrite length_map, <- fmap_drop. Qed.

Lemma selectPoints_policy channel calibrationLog :
  selectPoints (collectPoints channel calibrationLog) =
  policy channel (positiveEntries channel calibrationLog).
Proof.
  rewrite selectPoints_spec, collectPoints_positive. unfold policy.
  rewrite length_map. destruct (_ <? 4)%nat; [reflexivity | apply lastFour_map].
Qed.

Lemma policy_length channel real : length (policy channel real) = 4%nat.
Proof.
  unfold policy. destruct (length real <? 4)%nat eqn:Hlen; [reflexivity|].
  apply Nat.ltb_ge in Hlen. unfold lastFour. rewrite length_map, length_drop. lia.
Qed.

(** The system handed to the solver always has four equations in four
    unknowns. *)
Lemma computeCoeffs_shape ln channel calibrationLog :
  let points := selectPoints (collectPoints channel calibrationLog) in
  shape4 (designMatrix ln points) (rhs points).
Proof.
  cbv zeta. rewrite selectPoints_policy.
  pose proof (policy_length channel (positiveEntries channel calibrationLog)) as Hlen.
  unfold shape4, designMatrix, rhs. rewrite !length_map. repeat split; try assumption.
  apply Forall_forall. intros row Hin.
  apply list_elem_of_In, in_map_iff in Hin as (p & <- & _). reflexivity.
Qed.

Lemma fit_throws ln points e :
  fit ln points = Throw e <->
  solveLinearSystem (designMatrix ln points) (rhs points) = Throw e.
Proof.
  unfold fit. destruct (solveLinearSystem _ _); cbn [mbind res_bind]; split; congruence.
Qed.

Lemma computeCoeffs_error ln channel calibrationLog e :
  computeCoeffs ln channel calibrationLog = Throw e -> e = SingularMatrix.
Proof. unfold computeCoeffs. rewrite fit_throws. apply solve_error. Qed.

(** C1 (as amended): the fit of a channel runs on the points the policy
    names, where the real points are the log entries with a positive raw
    value for the channel: with fewer than four of them the four built-in
    reference pairs and nothing else, otherwise the four most recent ones
    converted to Kelvin and nothing else. *)
Theorem point_selection_policy (ln : float -> float) (channel : Z)
    (calibrationLog : list CalibrationLogEntry) :
  let real := positiveEntries channel calibrationLog in
  let chosen := selectPoints (collectPoints channel calibrationLog) in
  computeCoeffs ln channel calibrationLog = fit ln chosen /\
  chosen = policy channel real /\
  length chosen = 4%nat /\
  (((length real <? 4)%nat = true /\ chosen = standardPoints) \/
   ((length real <? 4)%nat = false /\
    chosen = map (toKelvinPoint channel) (lastFour real) /\
    Forall (fun p => exists log, log ∈ calibrationLog /\
                       gt (channelResistance channel log) 0 = true /\
                       p = toKelvinPoint channel log) chosen)).
Proof.
  cbv zeta. unfold computeCoeffs. rewrite selectPoints_policy.
  split; [reflexivity|]. split; [reflexivity|]. split; [apply policy_length|].
  unfold policy. destruct (_ <? 4)%nat eqn:Hlen; [left; auto | right].
  split; [reflexivity|]. split; [reflexivity|].
  apply Forall_forall. intros p Hp.
  apply list_elem_of_fmap in Hp as (log & -> & Hlog).
  exists log. unfold lastFour in Hlog. apply subseteq_drop in Hlog.
  unfold positiveEntries in Hlog. apply list_elem_of_filter in Hlog as [Hpos Hin].
  auto.
Qed.

(** C1 (as stated) fails: four entries with a nonzero, negative raw value
    are not used; the fit falls back on the reference pairs. *)
Lemma point_selection_nonzero_counterexample :
  length (nonzeroEntries 29 negativeLog) = 4%nat /\
  selectPoints (collectPoints 29 negativeLog) = standardPoints /\
  selectPoints (collectPoints 29 negativeLog) <> policy 29 (nonzeroEntries 29 negativeLog).
Proof.
  split; [reflexivity|]. split; [vm_compute; reflexivity|].
  intros H.
  apply (f_equal (fun l => match l with
                           | p :: _ => (pt_resistance p <? 0)%float
                           | [] => false
                           end)) in H.
  vm_compute in H. discriminate.
Qed.

Lemma mapM_throws {T U} (g : T -> res U) (l : list T) (e0 : error) :
  (forall x e, x ∈ l -> g x = Throw e -> e = e0) ->
  (exists x, x ∈ l /\ g x = Throw e0) ->
  mapM g l = Throw e0.
Proof.
  induction l as [|x l IH]; intros Hall (y & Hy & Hthrow).
  - inversion Hy.
  - cbn [mapM]. destruct (g x) as [u|e] eqn:Hx.
    + cbn [mbind res_bind]. rewrite IH; [reflexivity | |].
      * intros z e Hz. apply Hall. now right.
      * apply elem_of_cons in Hy as [->|Hy]; [congruence|]. eauto.
    + cbn [mbind res_bind]. f_equal. apply (Hall x); [now left | assumption].
Qed.

Section Solver.

Variable ln : float -> float.
Variable pow : float -> float -> float.

Import ThermistorData.

Lemma refit_dropped calibrationLog st t :
  t ∈ thermistors st -> active t = true ->
  computeCoeffs ln (id t + 28) calibrationLog = Throw SingularMatrix ->
  setThermistors (refitThermistor ln pow calibrationLog) st = (st, Some SingularMatrix).
Proof.
  intros Hin Hact Hthrow. unfold setThermistors.
  rewrite (mapM_throws _ _ SingularMatrix); [reflexivity | |].
  - intros x e _. unfold refitThermistor. destruct (negb (active x)); [discriminate|].
    destruct (computeCoeffs ln (id x + 28) calibrationLog) eqn:Hc; cbn [mbind res_bind]; [discriminate|].
    intros [= <-]. now apply computeCoeffs_error in Hc.
  - exists t. split; [assumption|]. unfold refitThermistor.
    now rewrite Hact, Hthrow.
Qed.

Lemma update_dropped calibrationLog dataMap st t :
  t ∈ thermistors st -> active t = true -> is_Some (dataMap !! (id t + 28)%Z) ->
  computeCoeffs ln (id t + 28) calibrationLog = Throw SingularMatrix ->
  setThermistors (updateThermistor ln pow calibrationLog dataMap) st
  = (st, Some SingularMatrix).
Proof.
  intros Hin Hact [R HR] Hthrow. unfold setThermistors.
  rewrite (mapM_throws _ _ SingularMatrix); [reflexivity | |].
  - intros x e _. unfold updateThermistor. destruct (negb (active x)); [discriminate|].
    destruct (dataMap !! (id x + 28)%Z); [|discriminate].
    destruct (computeCoeffs ln (id x + 28) calibrationLog) eqn:Hc; cbn [mbind res_bind]; [discriminate|].
    intros [= <-]. now apply computeCoeffs_error in Hc.
  - exists t. split; [assumption|]. unfold updateThermistor.
    now rewrite Hact, HR, Hthrow.
Qed.


End Solver.

Lemma shape4_identity : shape4 identity4 [5; 6; 7; 8]%float.
Proof. unfold shape4. repeat split. repeat constructor. Qed.


(** ** Channel store and temperature conversion *)

Section Conversion.

Variable ln : float -> float.
Variable pow : float -> float -> float.

Import ThermistorData.

Lemma tempC_positive R coeff :
  gt R 0 = true ->
  tempC ln pow R (Some coeff) =
  (1 / (A coeff + B coeff * ln R + C coeff * pow (ln R) 2 + D coeff * pow (ln R) 3)
   - 273.15)%float.
Proof. intros H. unfold tempC. now rewrite H. Qed.

Lemma tempC_sentinel R coeff : gt R 0 = false -> tempC ln pow R coeff = 0%float.
Proof. intros H. unfold tempC. now rewrite H. Qed.


(** The variant with stored coefficients computes the temperature from
    the reading held before the update: the new value plays no part. *)
Lemma stored_variant_temperature calibrationCoeffs dataMap t R :
  active t = true -> dataMap !! (id t + 28)%Z = Some R ->
  updateThermistor_stored ln pow calibrationCoeffs dataMap t
  = mk (id t) (name t) R
       (tempC ln pow (resistance t) (calibrationCoeffs !! (id t + 28)%Z))
       (color t) (active t).
Proof.
  intros Hact HR. unfold updateThermistor_stored. now rewrite Hact, HR.
Qed.

End Conversion.


(** C4 at a failing input: the page as it starts receives the line
    ["29:1000"]; with one and the same coefficients for channel 29 (those
    fitted from the empty log), the variant that fits on the fly stores the
    temperature of the new reading, and the variant with stored
    coefficients stores [0], computed from the reading [0] held before. *)
Theorem stale_reading_at_failing_input :
  match computeCoeffs Approx.log 29 [] with
  | Ok coeff =>
      let dataMap := parseLine "29:1000" in
      let stored := updateThermistor_stored Approx.log Approx.pow
                      {[ 29%Z := coeff ]} dataMap thermistor1 in
      exists fresh,
        updateThermistor Approx.log Approx.pow [] dataMap thermistor1 = Ok fresh /\
        ThermistorData.resistance fresh = 1000%float /\
        ThermistorData.resistance stored = 1000%float /\
        ThermistorData.temperature fresh = tempC Approx.log Approx.pow 1000 (Some coeff) /\
        ThermistorData.temperature stored = 0%float /\
        (ThermistorData.temperature fresh =? ThermistorData.temperature stored)%float = false /\
        (98 <? ThermistorData.temperature fresh)%float = true
  | Throw _ => False
  end.
Proof.
  destruct (computeCoeffs Approx.log 29 []) as [coeff|e] eqn:Hc.
  - vm_compute in Hc. injection Hc as <-. cbv zeta.
    eexists. split; [vm_compute; reflexivity|].
    repeat split; vm_compute; reflexivity.
  - vm_compute in Hc. discriminate.
Qed.

(** ** Telemetry parser *)

Lemma parseToken_malformed dataMap token :
  malformed token -> parseToken dataMap token = dataMap.
Proof.
  intros Hbad. unfold parseToken.
  destruct (Str.split ":" token) as [|p0 [|p1 [|p2 rest]]] eqn:Hs; try reflexivity.
  destruct (Hbad p0 p1 Hs) as [H|H]; rewrite H; [reflexivity|].
  now destruct (Str.parseInt p0).
Qed.

Lemma parseToken_wellformed dataMap token p0 p1 channel :
  Str.split ":" token = [p0; p1] ->
  Str.parseInt p0 = Some channel -> isNaN (Str.parseFloat p1) = false ->
  parseToken dataMap token = <[channel := Str.parseFloat p1]> dataMap.
Proof. intros Hs Hc Hv. unfold parseToken. now rewrite Hs, Hc, Hv. Qed.

(** C6: a line is cut at [;] and each token at [:]; a token that does not
    give exactly two parts, or whose channel id or value does not parse as
    a number, leaves the map as it was and the tokens after it are read as
    if it were not there; a token that does parse is filed under its
    channel id; and ["29:120.5;bad-token;31:0"] gives [{29: 120.5, 31: 0}].
    The parser is a total function: nothing is thrown. *)
Theorem parser_skips_malformed_tokens (before after : list string) (bad : string) :
  malformed bad ->
  parseTokens (before ++ bad :: after) = parseTokens (before ++ after) /\
  (forall line, parseLine line = parseTokens (Str.split ";" line)) /\
  (forall token p0 p1 channel,
     Str.split ":" token = [p0; p1] ->
     Str.parseInt p0 = Some channel -> isNaN (Str.parseFloat p1) = false ->
     parseTokens (before ++ [token])
     = <[channel := Str.parseFloat p1]> (parseTokens before)) /\
  parseLine "29:120.5;bad-token;31:0" = {[ 29%Z := 120.5%float; 31%Z := 0%float ]}.
Proof.
  intros Hbad. unfold parseLine, parseTokens. split; [|split; [|split]].
  - rewrite !fold_left_app. cbn [fold_left]. now rewrite (parseToken_malformed _ _ Hbad).
  - reflexivity.
  - intros token p0 p1 channel Hs Hc Hv. rewrite fold_left_app. cbn [fold_left].
    now apply (parseToken_wellformed _ token p0 p1).
  - vm_compute. reflexivity.
Qed.

Lemma parser_skips_malformed_tokens_witness :
  malformed "bad-token" /\
  parseTokens ["29:120.5"; "bad-token"; "31:0"] = parseTokens ["29:120.5"; "31:0"].
Proof.
  assert (Hbad : malformed "bad-token").
  { intros p0 p1 H. vm_compute in H. discriminate. }
  split; [exact Hbad|].
  apply (parser_skips_malformed_tokens ["29:120.5"] ["31:0"] "bad-token" Hbad).
Defined.

(** ** Averaging *)

Import ThermistorData.

Lemma thermistorAt_4 (t0 t1 t2 t3 : Thermistor) :
  thermistorAt [t0; t1; t2; t3] 0 = Ok t0 /\ thermistorAt [t0; t1; t2; t3] 1 = Ok t1 /\
  thermistorAt [t0; t1; t2; t3] 2 = Ok t2 /\ thermistorAt [t0; t1; t2; t3] 3 = Ok t3.
Proof. repeat split. Qed.

Lemma length4_inv {T} (l : list T) :
  length l = 4%nat -> exists a b c d, l = [a; b; c; d].
Proof.
  destruct l as [|a [|b [|c [|d [|e l]]]]]; try discriminate. intros _. eauto.
Qed.

(** The accumulators after a run are the sums of the samples and the number
    of samples. *)
Lemma runSession_sums snapshots s0 :
  Forall (fun ts => length ts = 4%nat) snapshots ->
  exists s,
    fold_left (fun acc ts => s ← acc; sampleTick ts s) snapshots (Ok s0) = Ok s /\
    sumT1 s = fold_left (fun acc ts => (acc + sampleOf 0 ts)%float) snapshots (sumT1 s0) /\
    sumT2 s = fold_left (fun acc ts => (acc + sampleOf 1 ts)%float) snapshots (sumT2 s0) /\
    sumT3 s = fold_left (fun acc ts => (acc + sampleOf 2 ts)%float) snapshots (sumT3 s0) /\
    sumT4 s = fold_left (fun acc ts => (acc + sampleOf 3 ts)%float) snapshots (sumT4 s0) /\
    count s = fold_left (fun c _ => (c + 1)%float) snapshots (count s0) /\
    s_timestamp s = s_timestamp s0 /\ s_isoTime s = s_isoTime s0 /\
    s_measuredTempInput s = s_measuredTempInput s0 /\
    s_calibrationLog s = s_calibrationLog s0.
Proof.
  intros Hall. revert s0. induction Hall as [|ts snapshots Hts _ IH]; intros s0.
  - exists s0. cbn. repeat split.
  - destruct (length4_inv ts Hts) as (a & b & c & d & ->).
    cbn [fold_left]. cbn [mbind res_bind].
    pose (s1 :=
          {| sumT1 := (sumT1 s0 + sampleOf 0 [a; b; c; d])%float;
             sumT2 := (sumT2 s0 + sampleOf 1 [a; b; c; d])%float;
             sumT3 := (sumT3 s0 + sampleOf 2 [a; b; c; d])%float;
             sumT4 := (sumT4 s0 + sampleOf 3 [a; b; c; d])%float;
             count := (count s0 + 1)%float;
             s_timestamp := s_timestamp s0; s_isoTime := s_isoTime s0;
             s_measuredTempInput := s_measuredTempInput s0;
             s_calibrationLog := s_calibrationLog s0 |}).
    change (sampleTick [a; b; c; d] s0) with (Ok s1).
    destruct (IH s1) as (s & Hrun & H1 & H2 & H3 & H4 & Hc & Ht & Hi & Hm & Hl).
    exists s. repeat split; assumption.
Qed.

(** C7: a session started with cleared accumulators and sampled on any
    sequence of thermistor snapshots commits, for each channel, the sum of
    its samples divided by the number of samples when the thermistor is
    active at commit, [0] when no sample was taken, and [0] when the
    thermistor is inactive; and samples [10, 20, 30, 40] on one channel
    commit [25] for it. *)
Theorem averaging_commits_mean (snapshots : list (list Thermistor))
    (timestamp : Z) (isoTime : string) (measured : float)
    (log : list CalibrationLogEntry) (st : PageState) (t0 t1 t2 t3 : Thermistor) :
  Forall (fun ts => length ts = 4%nat) snapshots ->
  thermistors st = [t0; t1; t2; t3] ->
  (exists s st' p,
     runSession snapshots (newSession timestamp isoTime measured log) = Ok s /\
     commitAveraging s st = Ok (st', p) /\
     let mean i := if gt (sampleCount snapshots) 0
                   then (sampleSum i snapshots / sampleCount snapshots)%float
                   else 0%float in
     measuredResistanceT1 (ps_entry p) = (if active t0 then mean 0%nat else 0%float) /\
     measuredResistanceT2 (ps_entry p) = (if active t1 then mean 1%nat else 0%float) /\
     measuredResistanceT3 (ps_entry p) = (if active t2 then mean 2%nat else 0%float) /\
     measuredResistanceT4 (ps_entry p) = (if active t3 then mean 3%nat else 0%float) /\
     measuredTemperature (ps_entry p) = measured /\
     calibrationNumber (ps_entry p) = (Z.of_nat (length log) + 1)%Z) /\
  (snapshots = [] ->
     forall s st' p,
       runSession snapshots (newSession timestamp isoTime measured log) = Ok s ->
       commitAveraging s st = Ok (st', p) ->
       measuredResistanceT1 (ps_entry p) = 0%float /\
       measuredResistanceT2 (ps_entry p) = 0%float /\
       measuredResistanceT3 (ps_entry p) = 0%float /\
       measuredResistanceT4 (ps_entry p) = 0%float) /\
  (exists s st' p,
     runSession (map readingOnFirst [10; 20; 30; 40]%float)
                (newSession timestamp isoTime measured log) = Ok s /\
     commitAveraging s (with_thermistors (readingOnFirst 40) st) = Ok (st', p) /\
     measuredResistanceT1 (ps_entry p) = 25%float).
Proof.
  intros Hall Hts. split; [|split].
  - destruct (runSession_sums snapshots (newSession timestamp isoTime measured log) Hall)
      as (s & Hrun & H1 & H2 & H3 & H4 & Hc & _ & _ & Hm & Hl).
    exists s. unfold commitAveraging, averagedEntry. rewrite Hts.
    cbn [thermistorAt lookup list_lookup mbind res_bind].
    eexists _, _. split; [exact Hrun|]. split; [reflexivity|].
    cbn [ps_entry measuredResistanceT1 measuredResistanceT2 measuredResistanceT3
         measuredResistanceT4 measuredTemperature calibrationNumber].
    unfold average, sampleSum, sampleCount. rewrite H1, H2, H3, H4, Hc, Hm, Hl.
    repeat split.
  - intros -> s st' p Hrun Hcommit. cbn in Hrun. injection Hrun as <-.
    unfold commitAveraging, averagedEntry in Hcommit. rewrite Hts in Hcommit.
    cbn [thermistorAt lookup list_lookup mbind res_bind] in Hcommit.
    injection Hcommit as _ <-.
    cbn. repeat split; match goal with |- (if ?b then _ else _) = _ => destruct b end;
      reflexivity.
  - eexists _, _, _. split; [vm_compute; reflexivity|].
    split; [reflexivity|]. vm_compute. reflexivity.
Qed.

Lemma averaging_commits_mean_witness :
  Forall (fun ts => length ts = 4%nat) (map readingOnFirst [10; 20; 30; 40]%float) /\
  thermistors initialState = initialThermistors /\
  exists s st' p,
    runSession (map readingOnFirst [10; 20; 30; 40]%float)
               (newSession 0 "t" 25 []) = Ok s /\
    commitAveraging s initialState = Ok (st', p) /\
    measuredResistanceT1 (ps_entry p) =
    (if gt (sampleCount (map readingOnFirst [10; 20; 30; 40]%float)) 0
     then (sampleSum 0 (map readingOnFirst [10; 20; 30; 40]%float)
           / sampleCount (map readingOnFirst [10; 20; 30; 40]%float))%float
     else 0%float).
Proof.
  assert (H4 : Forall (fun ts => length ts = 4%nat)
                 (map readingOnFirst [10; 20; 30; 40]%float))
    by (repeat constructor).
  split; [exact H4|]. split; [reflexivity|].
  destruct (averaging_commits_mean (map readingOnFirst [10; 20; 30; 40]%float)
              0 "t" 25%float [] initialState _ _ _ _ H4 eq_refl)
    as [(s & st' & p & Hrun & Hcommit & H1 & _) _].
  exists s, st', p. repeat split; assumption.
Defined.

(** ** Bounded histories *)

(** One insertion into a buffer that holds the most recent 500 elements
    leaves the most recent 500 elements. *)
Lemma capShift_recent {T} (pre : list T) (p : T) :
  capShift (recent pre ++ [p]) = recent (pre ++ [p]).
Proof.
  unfold capShift, recent. rewrite !length_app, length_drop. cbn [length].
  destruct (le_lt_dec (length pre) 499) as [Hle|Hgt].
  - replace (length pre - 500)%nat with 0%nat by lia.
    replace (length pre + 1 - 500)%nat with 0%nat by lia.
    rewrite !drop_0. destruct (Nat.ltb_spec 500 (length pre - 0 + 1)); [lia | reflexivity].
  - destruct (Nat.ltb_spec 500 (length pre - (length pre - 500) + 1)); [|lia].
    replace (length pre + 1 - 500)%nat with (S (length pre - 500)) by lia.
    rewrite drop_app_le by lia.
    destruct (drop (length pre - 500) pre) as [|x rest] eqn:Hd.
    + apply (f_equal length) in Hd. rewrite length_drop in Hd. cbn in Hd. lia.
    + cbn [tail app]. f_equal.
      change rest with (drop 1 (x :: rest)). rewrite <- Hd, drop_drop. f_equal. lia.
Qed.

(** The telemetry buffer after any number of insertions. *)
Lemma chart_history (points : list ChartDataPoint) :
  fold_left pushChart points [] = recent points /\
  (length (fold_left pushChart points []) <= 500)%nat.
Proof.
  assert (H : forall pre, fold_left pushChart points (recent pre) = recent (pre ++ points)).
  { induction points as [|p points IH]; intros pre.
    - now rewrite app_nil_r.
    - cbn [fold_left]. unfold pushChart at 2. rewrite capShift_recent, IH.
      now rewrite <- app_assoc. }
  specialize (H []). cbn in H. rewrite H. split; [reflexivity|].
  unfold recent. rewrite length_drop. lia.
Qed.

(** The marker buffer when every capture has one active channel. *)
Lemma marker_history_single (markers : list CalibrationPoint.t) :
  fold_left (fun buf m => pushMarkers buf [m]) markers [] = recent markers.
Proof.
  assert (H : forall pre,
             fold_left (fun buf m => pushMarkers buf [m]) markers (recent pre)
             = recent (pre ++ markers)).
  { induction markers as [|p markers IH]; intros pre.
    - now rewrite app_nil_r.
    - cbn [fold_left]. unfold pushMarkers at 2. rewrite capShift_recent, IH.
      now rewrite <- app_assoc. }
  exact (H []).
Qed.

(** C8 at failing inputs. A commit of the averaging path with four active
    thermistors on a buffer of 499 markers appends four and evicts one: 502
    markers are kept. A capture of the instant path on a buffer of 500
    markers appends four and evicts none: 504 markers are kept. *)
Theorem marker_buffer_exceeds_cap :
  (exists st' p,
     commitAveraging (newSession 0 "t" 25 []) (stateWithMarkers 499) = Ok (st', p) /\
     length (calibrationPoints st') = 502%nat) /\
  (exists st' p,
     handleCalibrate 0 0 "t" (stateWithMarkers 500) = Ok (st', Some p) /\
     length (calibrationPoints st') = 504%nat).
Proof.
  split; eexists _, _; (split; [reflexivity | vm_compute; reflexivity]).
Qed.

(** ** A failed append *)

Section Persistence.

Variable ln : float -> float.
Variable pow : float -> float -> float.

(** A [setThermistors] touches the thermistors only. *)
Lemma setThermistors_frame f st :
  let st' := fst (setThermistors f st) in
  calibrationLog st' = calibrationLog st /\
  calibrationPoints st' = calibrationPoints st /\
  averagingInProgress st' = averagingInProgress st /\
  chartData st' = chartData st /\
  measuredTempInput st' = measuredTempInput st /\
  session st' = session st.
Proof.
  unfold setThermistors. destruct (mapM f (thermistors st)); cbn; repeat split.
Qed.

(** Telemetry touches the thermistors and the chart only. *)
Lemma updateSensorData_frame closureLog timestamp currentTimeStr line st :
  let st' := fst (updateSensorData ln pow closureLog timestamp currentTimeStr line st) in
  calibrationLog st' = calibrationLog st /\
  calibrationPoints st' = calibrationPoints st /\
  averagingInProgress st' = averagingInProgress st.
Proof.
  unfold updateSensorData.
  destruct (String.eqb _ _ || Str.startsWith _ _)%bool; [cbn; auto|].
  pose proof (setThermistors_frame
                (updateThermistor ln pow closureLog (parseLine (Str.trim line))) st)
    as (Hl & Hp & Ha & _).
  destruct (setThermistors _ st) as [st1 [e|]]; cbn in *; auto.
Qed.

Lemma processLines_frame closureLog events st :
  let st' := processLines ln pow closureLog events st in
  calibrationLog st' = calibrationLog st /\
  calibrationPoints st' = calibrationPoints st /\
  averagingInProgress st' = averagingInProgress st.
Proof.
  unfold processLines. revert st.
  induction events as [|[[timestamp currentTimeStr] line] events IH]; intros st.
  - cbn. auto.
  - cbn [fold_left].
    destruct (IH (fst (updateSensorData ln pow closureLog timestamp currentTimeStr line st)))
      as (Hl & Hp & Ha).
    destruct (updateSensorData_frame closureLog timestamp currentTimeStr line st)
      as (Hl' & Hp' & Ha').
    cbv zeta in *. rewrite Hl, Hp, Ha. auto.
Qed.

(** What a settled save does besides the refit. *)
Lemma saveSettled_frame r p st :
  let st' := fst (saveSettled ln pow r p st) in
  calibrationPoints st' = calibrationPoints st /\
  calibrationLog st' =
    (if responseOk r then calibrationLog st ++ [ps_entry p] else calibrationLog st) /\
  averagingInProgress st' = (if responseOk r then averagingInProgress st else false).
Proof.
  unfold saveSettled.
  destruct (setThermistors_frame (refitThermistor ln pow (ps_calibrationLog p))
              (if responseOk r
               then with_calibrationLog (calibrationLog st ++ [ps_entry p]) st
               else with_averagingInProgress false st)) as (Hl & Hp & Ha & _).
  cbv zeta in *. rewrite Hl, Hp, Ha. destruct (responseOk r); cbn; auto.
Qed.

Lemma commitAveraging_fields s st st1 p :
  commitAveraging s st = Ok (st1, p) ->
  calibrationPoints st1 =
    pushMarkers (calibrationPoints st)
      (newCalibrationPoints (s_isoTime s) (s_timestamp s) (thermistors st)) /\
  calibrationLog st1 = calibrationLog st /\
  averagingInProgress st1 = false /\
  session st1 = None /\ measuredTempInput st1 = None /\
  ps_calibrationLog p = s_calibrationLog s.
Proof.
  unfold commitAveraging. destruct (averagedEntry (thermistors st) s); cbn; [|discriminate].
  intros [= <- <-]. cbn. repeat split.
Qed.


End Persistence.



(** On the same run the [then] callback of the caller does run after the
    failed append: the temperature of the first thermistor is recomputed. *)
Lemma refit_runs_after_failed_append :
  match commitAveraging (newSession 0 "t" 25 [])
          (with_thermistors (readingOnFirst 1000) (stateWithMarkers 3)) with
  | Ok (st1, p) =>
      let st2 := fst (saveSettled Approx.log Approx.pow (HttpStatus 500) p st1) in
      (ThermistorData.temperature <$> thermistors st1 !! 0%nat) = Some 0%float /\
      match ThermistorData.temperature <$> thermistors st2 !! 0%nat with
      | Some temp => (98 <? temp)%float = true
      | None => False
      end
  | Throw _ => False
  end.
Proof. vm_compute. split; reflexivity. Qed.

(** ** The solver and the store *)

Module HeapFacts.

Import Heap Frame.
Local Open Scope heap_scope.

Section Frame.

(** The store at the call. *)
Variable h0 : heap.

Local Notation extends := (Frame.extends h0).
Local Notation hoare := (Frame.hoare h0).

Lemma extends_refl : extends h0.
Proof. exists []. now rewrite app_nil_r. Qed.

Lemma extends_alloc h a : extends h -> extends (h ++ [a]).
Proof. intros [fresh ->]. exists (fresh ++ [a]). now rewrite app_assoc. Qed.

Lemma extends_write h l a :
  extends h -> (length h0 <= l)%nat -> extends (<[l := a]> h).
Proof.
  intros [fresh ->] Hl. exists (<[(l - length h0)%nat := a]> fresh).
  now rewrite insert_app_r_alt.
Qed.

Lemma extends_lookup h l a : extends h -> h0 !! l = Some a -> h !! l = Some a.
Proof. intros [fresh ->] Hl. now apply lookup_app_l_Some. Qed.

Lemma hoare_bind {T U} P (m : M T) (k : T -> M U) R Q :
  hoare P m R -> (forall a, hoare (R a) (k a) Q) -> hoare P (let* a := m in k a) Q.
Proof.
  intros Hm Hk h HP. unfold bind. specialize (Hm h HP).
  destruct (m h) as [[a|e] h']; [exact (Hk a h' Hm) | exact Hm].
Qed.

Lemma hoare_conseq {T} (P P' : heap -> Prop) (m : M T) (Q Q' : T -> heap -> Prop) :
  (forall h, P' h -> P h) -> (forall v h, Q v h -> Q' v h) ->
  hoare P m Q -> hoare P' m Q'.
Proof.
  intros HP HQ Hm h Hh. specialize (Hm h (HP h Hh)).
  destruct (m h) as [[a|e] h']; [exact (HQ a h' Hm) | exact Hm].
Qed.

(** ** The copies *)

Lemma slice_spec v h :
  match slice v h with
  | (Ok c, h') => exists a, h' = h ++ [a] /\ c = Ref (length h)
  | (Throw _, h') => h' = h
  end.
Proof.
  destruct v as [x|l|]; cbn; try reflexivity.
  unfold bind, readArray. destruct (h !! l) as [a|]; cbn; eauto.
Qed.

(** The copies of the rows are references to arrays allocated by the
    call, one after the other. *)
Lemma sliceAll_spec rows h :
  extends h ->
  match sliceAll rows h with
  | (Ok cs, h') =>
      extends h' /\ (length h <= length h')%nat /\
      Forall (fun v => exists l, v = Ref l /\ (length h <= l < length h')%nat) cs
  | (Throw _, h') => extends h'
  end.
Proof.
  revert h. induction rows as [|row rows IH]; intros h Hext; cbn.
  - auto.
  - unfold bind at 1. pose proof (slice_spec row h) as Hs.
    destruct (slice row h) as [[c|e] h1]; [|now subst].
    destruct Hs as (a & -> & ->).
    unfold bind at 1. specialize (IH (h ++ [a]) (extends_alloc _ a Hext)).
    destruct (sliceAll rows (h ++ [a])) as [[cs|e] h2]; [|exact IH].
    destruct IH as (Hext2 & Hlen & Hcs). rewrite length_app in Hlen, Hcs. cbn in *.
    split; [exact Hext2|]. split; [lia|]. constructor.
    + exists (length h). split; [reflexivity | lia].
    + eapply Forall_impl; [exact Hcs|]. intros v (l & -> & Hl). exists l. split; [reflexivity | lia].
Qed.

(** ** The elimination works on the copies *)

(** The location of the copy [A], allocated by the call. *)
Variable a : loc.
Hypothesis a_fresh : (length h0 <= a)%nat.

Local Notation ownedValue := (Frame.ownedValue h0 a).
Local Notation writable := (Frame.writable h0).
Local Notation inv := (Frame.inv h0 a).
Local Notation keeps := (Frame.keeps h0 a).

Lemma inv_extends h : inv h -> extends h.
Proof. now intros [H _]. Qed.

Lemma keeps_ret {T} (v : T) (phi : T -> Prop) : phi v -> keeps (ret v) phi.
Proof. intros Hv h Hh. cbn. auto. Qed.

Lemma keeps_throw {T} e (phi : T -> Prop) : keeps (throw e) phi.
Proof. intros h Hh. cbn. now apply inv_extends. Qed.

Lemma keeps_bind {T U} (m : M T) (k : T -> M U) phi psi :
  keeps m phi -> (forall v, phi v -> keeps (k v) psi) ->
  keeps (let* v := m in k v) psi.
Proof.
  intros Hm Hk. eapply hoare_bind; [exact Hm|].
  intros v h [Hh Hv]. exact (Hk v Hv h Hh).
Qed.

Lemma keeps_weaken {T} (m : M T) (phi psi : T -> Prop) :
  (forall v, phi v -> psi v) -> keeps m phi -> keeps m psi.
Proof.
  intros Himp. apply hoare_conseq; [auto|]. intros v h [Hh Hv]. auto.
Qed.

Lemma keeps_forEach {S} (l : list nat) (body : nat -> S -> M S) (phi : S -> Prop) s :
  (forall i s, phi s -> keeps (body i s) phi) -> phi s ->
  keeps (forEach l body s) phi.
Proof.
  intros Hbody. revert s. induction l as [|i l IH]; intros s Hs; cbn [forEach].
  - now apply keeps_ret.
  - eapply keeps_bind; [apply Hbody, Hs | exact IH].
Qed.

Lemma keeps_readArray l : keeps (readArray l) (fun _ => True).
Proof.
  intros h Hh. unfold readArray. destruct (h !! l); [auto | now apply inv_extends].
Qed.

Lemma keeps_getIndex v i : keeps (getIndex v i) (fun _ => True).
Proof.
  destruct v as [x|l|]; cbn [getIndex].
  - now apply keeps_ret.
  - eapply keeps_bind; [apply keeps_readArray|]. intros rows _. now apply keeps_ret.
  - apply keeps_throw.
Qed.

(** What is read from [A] is owned. *)
Lemma keeps_getIndex_A i : keeps (getIndex (Ref a) i) ownedValue.
Proof.
  intros h Hh. cbn [getIndex]. unfold bind, readArray.
  destruct Hh as (Hext & rows & Hrows & Hall). rewrite Hrows. cbn.
  split; [split; eauto|].
  destruct (nth_in_or_default i rows Undefined) as [Hin| ->]; [|exact I].
  rewrite Forall_forall in Hall. apply Hall. now apply list_elem_of_In.
Qed.

Lemma Forall_set_index (rows : list value) i x :
  Forall ownedValue rows -> ownedValue x ->
  Forall ownedValue (set_index Undefined rows i x).
Proof.
  intros Hall Hx. unfold set_index. destruct (i <? length rows)%nat.
  - now apply Forall_insert.
  - apply Forall_app. split; [exact Hall|]. apply Forall_app. split.
    + apply Forall_replicate. exact I.
    + now constructor.
Qed.

(** A write through a writable reference keeps the invariant, provided
    that what is written into [A] is owned. *)
Lemma keeps_setIndex v i x :
  writable v -> (v = Ref a -> ownedValue x) -> keeps (setIndex v i x) (fun _ => True).
Proof.
  intros Hw Hx. destruct v as [y|l|]; cbn [setIndex]; try apply keeps_throw.
  cbn in Hw. intros h Hh. unfold bind, readArray.
  destruct (h !! l) as [arr|] eqn:Hl; [|now apply inv_extends].
  cbn. split; [|exact I].
  destruct Hh as (Hext & rows & Hrows & Hall).
  split; [now apply extends_write|].
  destruct (Nat.eq_dec l a) as [->|Hne].
  - exists (set_index Undefined arr i x). split.
    + apply list_lookup_insert_eq. now apply lookup_lt_Some in Hl.
    + rewrite Hrows in Hl. injection Hl as <-. apply Forall_set_index; auto.
  - exists rows. split; [|exact Hall]. now rewrite list_lookup_insert_ne.
Qed.

Lemma owned_writable v : ownedValue v -> writable v.
Proof. destruct v; cbn; auto; lia. Qed.

Lemma owned_not_A v x : ownedValue v -> v = Ref a -> ownedValue x.
Proof. intros Hv ->. cbn in Hv. lia. Qed.

Lemma keeps_get2 k i : keeps (get2 (Ref a) k i) (fun _ => True).
Proof.
  unfold get2. eapply keeps_bind; [apply keeps_getIndex|]. intros row _.
  eapply keeps_bind; [apply keeps_getIndex|]. intros v _. now apply keeps_ret.
Qed.

Lemma keeps_get1 b k : keeps (get1 b k) (fun _ => True).
Proof.
  unfold get1. eapply keeps_bind; [apply keeps_getIndex|]. intros v _.
  now apply keeps_ret.
Qed.

Lemma keeps_findMaxRow i : keeps (findMaxRow (Ref a) i) (fun _ => True).
Proof.
  unfold findMaxRow. apply keeps_forEach; [|exact I]. intros k maxRow _.
  eapply keeps_bind; [apply keeps_get2|]. intros aki _.
  eapply keeps_bind; [apply keeps_get2|]. intros ami _. now apply keeps_ret.
Qed.

Lemma keeps_swap_A i m : keeps (swap (Ref a) i m) (fun _ => True).
Proof.
  unfold swap.
  eapply keeps_bind; [apply keeps_getIndex_A|]. intros r0 Hr0.
  eapply keeps_bind; [apply keeps_getIndex_A|]. intros r1 Hr1.
  eapply keeps_bind; [apply keeps_setIndex; [exact a_fresh | auto]|]. intros _ _.
  apply keeps_setIndex; [exact a_fresh | auto].
Qed.

(** A vector the call allocated, other than [A]. *)
Lemma keeps_swap_other b i m :
  (length h0 <= b)%nat -> b <> a -> keeps (swap (Ref b) i m) (fun _ => True).
Proof.
  intros Hb Hne. unfold swap.
  eapply keeps_bind; [apply keeps_getIndex|]. intros r0 _.
  eapply keeps_bind; [apply keeps_getIndex|]. intros r1 _.
  eapply keeps_bind; [apply keeps_setIndex; [exact Hb | congruence]|]. intros _ _.
  apply keeps_setIndex; [exact Hb | congruence].
Qed.

Lemma keeps_elimRow i k factor : keeps (elimRow (Ref a) i k factor) (fun _ => True).
Proof.
  unfold elimRow. apply keeps_forEach; [|exact I]. intros j _ _.
  eapply keeps_bind; [apply keeps_getIndex_A|]. intros rowk Hrowk.
  eapply keeps_bind; [apply keeps_getIndex|]. intros akj _.
  eapply keeps_bind; [apply keeps_get2|]. intros aij _.
  apply keeps_setIndex; [now apply owned_writable | now apply owned_not_A].
Qed.

Lemma keeps_elimBelow b i :
  (length h0 <= b)%nat -> b <> a ->
  keeps (elimBelow (Ref a) (Ref b) i) (fun _ => True).
Proof.
  intros Hb Hne. unfold elimBelow. apply keeps_forEach; [|exact I]. intros k _ _.
  eapply keeps_bind; [apply keeps_get2|]. intros aki _.
  eapply keeps_bind; [apply keeps_get2|]. intros aii _.
  eapply keeps_bind; [apply keeps_elimRow|]. intros _ _.
  eapply keeps_bind; [apply keeps_get1|]. intros bk _.
  eapply keeps_bind; [apply keeps_get1|]. intros bi _.
  apply keeps_setIndex; [exact Hb | congruence].
Qed.

Lemma keeps_eliminate b :
  (length h0 <= b)%nat -> b <> a ->
  keeps (eliminate (Ref a) (Ref b)) (fun _ => True).
Proof.
  intros Hb Hne. unfold eliminate. apply keeps_forEach; [|exact I]. intros i _ _.
  eapply keeps_bind; [apply keeps_findMaxRow|]. intros maxRow _.
  eapply keeps_bind; [apply keeps_swap_A|]. intros _ _.
  eapply keeps_bind; [now apply keeps_swap_other|]. intros _ _.
  eapply keeps_bind; [apply keeps_get2|]. intros aii _.
  destruct (lt (abs aii) threshold); [apply keeps_throw | now apply keeps_elimBelow].
Qed.

Lemma keeps_backSubstitute b x :
  (length h0 <= x)%nat -> x <> a ->
  keeps (backSubstitute (Ref a) (Ref b) (Ref x)) (fun _ => True).
Proof.
  intros Hx Hne. unfold backSubstitute. apply keeps_forEach; [|exact I]. intros i _ _.
  eapply keeps_bind.
  { apply (keeps_forEach _ _ (fun _ => True)); [|exact I]. intros j sum _.
    eapply keeps_bind; [apply keeps_get2|]. intros aij _.
    eapply keeps_bind; [apply keeps_get1|]. intros xj _. now apply keeps_ret. }
  intros sum _.
  eapply keeps_bind; [apply keeps_get1|]. intros bi _.
  eapply keeps_bind; [apply keeps_get2|]. intros aii _.
  apply keeps_setIndex; [exact Hx | congruence].
Qed.

(** An allocation keeps the invariant and returns a location past [A]. *)
Lemma alloc_inv arr h :
  inv h -> inv (h ++ [arr]) /\ (a < length h)%nat.
Proof.
  intros (Hext & rows & Hrows & Hall).
  pose proof (lookup_lt_Some _ _ _ Hrows) as Hlt. split; [|exact Hlt].
  split; [now apply extends_alloc|]. exists rows. split; [|exact Hall].
  now apply lookup_app_l_Some.
Qed.

Lemma keeps_alloc arr :
  keeps (alloc arr) (fun x => (length h0 <= x)%nat /\ x <> a).
Proof.
  intros h Hh. unfold alloc. destruct (alloc_inv arr h Hh) as [Hinv Hlt].
  split; [exact Hinv|]. lia.
Qed.

(** Everything after the copies: elimination, allocation of [x], back
    substitution. *)
Lemma keeps_solve_body b :
  (length h0 <= b)%nat -> b <> a ->
  keeps (eliminate (Ref a) (Ref b);;
         let* xl := alloc (replicate n (Num 0%float)) in
         backSubstitute (Ref a) (Ref b) (Ref xl);;
         ret (Ref xl))
        (fun _ => True).
Proof.
  intros Hb Hne.
  eapply keeps_bind; [now apply keeps_eliminate|]. intros _ _.
  eapply keeps_bind; [apply keeps_alloc|]. intros xl [Hx Hxa].
  eapply keeps_bind; [now apply keeps_backSubstitute|]. intros _ _.
  now apply keeps_ret.
Qed.

End Frame.

(** The store after the call is the store before it followed by the
    arrays the call allocated. *)
Lemma solve_extends (X Y : value) (h : heap) :
  extends h (snd (solveLinearSystem X Y h)).
Proof.
  unfold solveLinearSystem. unfold bind at 1.
  destruct X as [x|lX|]; cbn [copyMatrix]; try (cbn; apply extends_refl).
  unfold bind at 1, readArray at 1.
  destruct (h !! lX) as [rows|]; [|cbn; apply extends_refl].
  unfold bind at 1.
  pose proof (sliceAll_spec h rows h (extends_refl h)) as Hs.
  destruct (sliceAll rows h) as [[cs|e] h1]; [|exact Hs].
  destruct Hs as (Hext1 & Hlen1 & Hcs).
  unfold bind at 1, alloc at 1. cbn [ret].
  set (a := length h1). set (h2 := h1 ++ [cs]).
  assert (Hinv2 : inv h a h2).
  { split; [now apply extends_alloc|]. exists cs. split.
    - unfold h2, a. now rewrite list_lookup_middle.
    - eapply Forall_impl; [exact Hcs|]. intros v (l & -> & Hl). exact Hl. }
  unfold bind at 1.
  pose proof (slice_spec Y h2) as HsY.
  destruct (slice Y h2) as [[b|e] h3].
  2:{ destruct Hinv2 as [Hext2 _]. cbn. rewrite HsY. exact Hext2. }
  destruct HsY as (arr & -> & ->).
  destruct (alloc_inv h a arr h2 Hinv2) as [Hinv3 Hlt].
  pose proof (keeps_solve_body h a Hlen1 (length h2) ltac:(lia) ltac:(lia)
                (h2 ++ [arr]) Hinv3) as Hbody.
  destruct (bind _ _ (h2 ++ [arr])) as [[v|e] h4]; cbn.
  - now destruct Hbody as [[Hext4 _] _].
  - exact Hbody.
Qed.


(** Reading a vector or a matrix of the old store gives the same
    numbers in any store that extends it. *)
Lemma numbersAt_extends h h' v V :
  extends h h' -> numbersAt h v = Some V -> numbersAt h' v = Some V.
Proof.
  intros Hext. destruct v as [x|l|]; cbn; try discriminate.
  destruct (h !! l) as [arr|] eqn:Hl; [|discriminate].
  now rewrite (extends_lookup h h' l arr Hext Hl).
Qed.

Lemma matrixAt_extends h h' v rows :
  extends h h' -> matrixAt h v = Some rows -> matrixAt h' v = Some rows.
Proof.
  intros Hext. destruct v as [x|l|]; cbn; try discriminate.
  destruct (h !! l) as [arr|] eqn:Hl; [|discriminate].
  rewrite (extends_lookup h h' l arr Hext Hl). cbn. clear Hl.
  revert rows. induction arr as [|v arr IH]; intros rows; cbn; [auto|].
  destruct (numbersAt h v) as [V|] eqn:HV; [|discriminate].
  rewrite (numbersAt_extends h h' v V Hext HV). cbn.
  destruct (mapM (numbersAt h) arr) as [R|]; [|discriminate].
  now rewrite (IH R eq_refl).
Qed.

(** C10: whatever [X] and [Y] are and whatever the outcome of the call,
    coefficients or an error, every array of the store at the call, the
    rows of [X], [X] itself and [Y] among them, holds after the call the
    values it held before: the elimination allocates its copies and
    writes through them only. *)
Theorem solve_leaves_arguments_unchanged (X Y : value) (h : heap) :
  let '(outcome, h') := solveLinearSystem X Y h in
  (exists fresh, h' = h ++ fresh) /\
  (forall l arr, h !! l = Some arr -> h' !! l = Some arr) /\
  (forall rows, matrixAt h X = Some rows -> matrixAt h' X = Some rows) /\
  (forall V, numbersAt h Y = Some V -> numbersAt h' Y = Some V).
Proof.
  pose proof (solve_extends X Y h) as Hext.
  destruct (solveLinearSystem X Y h) as [outcome h']. cbn [snd] in Hext.
  split; [exact Hext|]. split; [|split].
  - intros l arr. now apply extends_lookup.
  - intros rows. now apply matrixAt_extends.
  - intros V. now apply numbersAt_extends.
Qed.

End HeapFacts.

(** * Further properties *)

(** ** Telemetry lines *)

Lemma trimStart_blank s : allWhiteSpace s -> Str.trimStart s = EmptyString.
Proof.
  induction s as [|c r IH]; [reflexivity|]. intros [Hc Hr].
  cbn [Str.trimStart]. rewrite Hc. exact (IH Hr).
Qed.

Lemma trimStart_pad pad s :
  allWhiteSpace pad -> Str.trimStart (pad +:+ s) = Str.trimStart s.
Proof.
  induction pad as [|c r IH]; [reflexivity|]. intros [Hc Hr].
  rewrite append_cons. cbn [Str.trimStart]. rewrite Hc. exact (IH Hr).
Qed.

Lemma trimEnd_cons c r :
  Str.isWhiteSpace c = false -> Str.trimEnd (String c r) = String c (Str.trimEnd r).
Proof. intros Hc. cbn [Str.trimEnd]. rewrite Hc. now destruct (Str.trimEnd r). Qed.

Lemma trim_boot pad rest :
  allWhiteSpace pad ->
  Str.trim (pad +:+ "ets" +:+ rest) = "ets" +:+ Str.trimEnd rest.
Proof.
  intros Hpad. unfold Str.trim. rewrite (trimStart_pad _ _ Hpad).
  rewrite !append_cons, append_nil. cbn [Str.trimStart].
  change (Str.isWhiteSpace "e") with false. cbn iota.
  now rewrite !trimEnd_cons by reflexivity.
Qed.

Section Telemetry.

Variable ln : float -> float.
Variable pow : float -> float -> float.

Import ThermistorData.

(** X1: a line of white space only, and a line whose first characters
    after leading white space are [ets] (the boot banner of the device),
    leave the whole page as it was: no reading changes and no point joins
    the chart. *)
Theorem telemetry_ignores_blank_and_boot_lines
    (closureLog : list CalibrationLogEntry) (timestamp : Z) (currentTimeStr : string)
    (pad rest : string) (st : PageState) :
  allWhiteSpace pad ->
  updateSensorData ln pow closureLog timestamp currentTimeStr pad st = (st, None) /\
  updateSensorData ln pow closureLog timestamp currentTimeStr
    (pad +:+ "ets" +:+ rest) st = (st, None).
Proof.
  intros Hpad. unfold updateSensorData. split.
  - unfold Str.trim. now rewrite (trimStart_blank _ Hpad).
  - rewrite (trim_boot _ _ Hpad). reflexivity.
Qed.

Lemma mapM_Ok_Forall2 {T U} (g : T -> res U) (l : list T) (l' : list U) :
  mapM g l = Ok l' -> Forall2 (fun x y => g x = Ok y) l l'.
Proof.
  revert l'. induction l as [|x l IH]; intros l'; cbn [mapM].
  - intros [= <-]. constructor.
  - destruct (g x) as [y|e] eqn:Hx; cbn [mbind res_bind]; [|discriminate].
    destruct (mapM g l) as [k|e] eqn:Hl; cbn [mbind res_bind mret res_ret]; [|discriminate].
    intros [= <-]. constructor; [exact Hx | now apply IH].
Qed.

Lemma updateThermistor_identity closureLog dataMap t t' :
  updateThermistor ln pow closureLog dataMap t = Ok t' ->
  sameIdentity t t' /\ (active t = false -> t' = t).
Proof.
  unfold updateThermistor, sameIdentity. destruct (active t) eqn:Hact; cbn [negb].
  - destruct (dataMap !! (id t + 28)%Z).
    + destruct (computeCoeffs ln (id t + 28) closureLog); cbn [mbind res_bind];
        [|discriminate].
      intros [= <-]. cbn [id name color active]. repeat split; discriminate.
    + intros [= <-]. cbn [id name color active]. repeat split; discriminate.
  - intros [= <-]. auto.
Qed.

(** X2: whatever the line, telemetry keeps the thermistors in place: as
    many as before, in the same order, each with the id, name, colour and
    activation it had, and an inactive one with the reading and
    temperature it had (frozen until it is switched on again). *)
Theorem telemetry_keeps_identity_and_freezes_inactive
    (closureLog : list CalibrationLogEntry) (timestamp : Z) (currentTimeStr : string)
    (line : string) (st : PageState) :
  let st' := fst (updateSensorData ln pow closureLog timestamp currentTimeStr line st) in
  length (thermistors st') = length (thermistors st) /\
  Forall2 (fun t t' => sameIdentity t t' /\ (active t = false -> t' = t))
          (thermistors st) (thermistors st').
Proof.
  cbv zeta.
  assert (Hrefl : Forall2 (fun t t' => sameIdentity t t' /\ (active t = false -> t' = t))
                    (thermistors st) (thermistors st)).
  { apply Forall_Forall2_diag, Forall_forall. intros t _. unfold sameIdentity. auto. }
  unfold updateSensorData.
  destruct (String.eqb _ EmptyString || Str.startsWith "ets" _)%bool;
    [cbn [fst]; auto|].
  unfold setThermistors.
  destruct (mapM (updateThermistor ln pow closureLog (parseLine (Str.trim line)))
              (thermistors st)) as [ts|e] eqn:Hm; cbn [fst thermistors with_chartData
                                                       with_thermistors]; [|auto].
  apply mapM_Ok_Forall2 in Hm.
  assert (H : Forall2 (fun t t' => sameIdentity t t' /\ (active t = false -> t' = t))
                (thermistors st) ts).
  { eapply Forall2_impl; [exact Hm|]. intros t t'. apply updateThermistor_identity. }
  split; [symmetry; exact (Forall2_length _ _ _ H) | exact H].
Qed.

Lemma mapM_unavailable closureLog dataMap ts :
  (forall t, t ∈ ts -> active t = true -> dataMap !! (id t + 28)%Z = None) ->
  mapM (updateThermistor ln pow closureLog dataMap) ts = Ok (map unavailable ts).
Proof.
  induction ts as [|t ts IH]; intros Hnone; [reflexivity|].
  cbn [mapM map]. rewrite IH by (intros u Hu; apply Hnone; now right).
  assert (Ht : updateThermistor ln pow closureLog dataMap t = Ok (unavailable t)).
  { unfold updateThermistor, unavailable. destruct (active t) eqn:Hact; cbn [negb];
      [|reflexivity].
    rewrite (Hnone t) by (auto; now left). reflexivity. }
  rewrite Ht. reflexivity.
Qed.

(** X3: a line that is neither blank nor a boot banner and carries no
    reading for any active channel marks every active thermistor
    unavailable (reading and temperature NaN), leaves the inactive ones
    alone and adds one point to the chart. No fit is computed on the way,
    so this cannot fail, whatever the calibration log holds. *)
Theorem telemetry_without_readings_marks_unavailable
    (closureLog : list CalibrationLogEntry) (timestamp : Z) (currentTimeStr : string)
    (line : string) (st : PageState) :
  Str.trim line <> EmptyString ->
  Str.startsWith "ets" (Str.trim line) = false ->
  (forall t, t ∈ thermistors st -> active t = true ->
             parseLine (Str.trim line) !! (id t + 28)%Z = None) ->
  exists st',
    updateSensorData ln pow closureLog timestamp currentTimeStr line st = (st', None) /\
    thermistors st' = map unavailable (thermistors st) /\
    chartData st' =
      pushChart (chartData st)
        {| cd_time := currentTimeStr; cd_timestamp := timestamp;
           cd_series := chartSeries (map unavailable (thermistors st)) |} /\
    calibrationLog st' = calibrationLog st /\
    calibrationPoints st' = calibrationPoints st.
Proof.
  intros Hne Hets Hnone. unfold updateSensorData.
  destruct (String.eqb_spec (Str.trim line) EmptyString) as [Heq|_]; [contradiction|].
  rewrite Hets. cbn [orb]. unfold setThermistors.
  rewrite (mapM_unavailable _ _ _ Hnone).
  eexists. split; [reflexivity|]. cbn. auto.
Qed.

End Telemetry.

Lemma telemetry_ignores_blank_and_boot_lines_witness :
  allWhiteSpace "  " /\
  updateSensorData Approx.log Approx.pow [] 0 "t" "  ets Jun  8 2016 00:22:57" initialState
  = (initialState, None).
Proof.
  assert (H : allWhiteSpace "  ") by (repeat split).
  split; [exact H|].
  exact (proj2 (telemetry_ignores_blank_and_boot_lines Approx.log Approx.pow
                  [] 0 "t" "  " " Jun  8 2016 00:22:57" initialState H)).
Defined.

Lemma telemetry_without_readings_marks_unavailable_witness :
  Str.trim "hello" <> EmptyString /\
  exists st',
    updateSensorData Approx.log Approx.pow [] 0 "t" "hello" initialState = (st', None) /\
    thermistors st' = map unavailable initialThermistors.
Proof.
  assert (Hne : Str.trim "hello" <> EmptyString) by discriminate.
  split; [exact Hne|].
  destruct (telemetry_without_readings_marks_unavailable Approx.log Approx.pow
              [] 0 "t" "hello" initialState Hne eq_refl) as (st' & Hup & Hts & _).
  - intros t _ _. vm_compute. reflexivity.
  - exists st'. split; [exact Hup | exact Hts].
Defined.

(** ** Telemetry parser: which token a channel reads from *)

Lemma parseToken_reads dataMap token channel value :
  tokenReads token channel value ->
  parseToken dataMap token = <[channel := value]> dataMap.
Proof.
  intros (p0 & p1 & Hs & Hc & <- & Hv).
  now apply (parseToken_wellformed _ token p0 p1).
Qed.

(** A token either reads one channel or leaves the map alone. *)
Lemma parseToken_cases dataMap token :
  (exists channel value, tokenReads token channel value) \/
  (forall channel value, ~ tokenReads token channel value) /\
  parseToken dataMap token = dataMap.
Proof.
  unfold parseToken, tokenReads.
  destruct (Str.split ":" token) as [|p0 [|p1 [|p2 rest]]] eqn:Hs;
    try (right; split; [intros c v (q0 & q1 & [=] & _) | reflexivity]).
  destruct (Str.parseInt p0) as [channel|] eqn:Hc.
  - destruct (isNaN (Str.parseFloat p1)) eqn:Hv.
    + right. split; [|reflexivity].
      intros c v (q0 & q1 & [= <- <-] & _ & <- & Hv'). congruence.
    + left. exists channel, (Str.parseFloat p1), p0, p1. auto.
  - right. split; [|reflexivity].
    intros c v (q0 & q1 & [= <- <-] & Hc' & _). congruence.
Qed.

Lemma tokenReads_functional token c1 v1 c2 v2 :
  tokenReads token c1 v1 -> tokenReads token c2 v2 -> c1 = c2 /\ v1 = v2.
Proof.
  intros (p0 & p1 & Hs & Hc & Hv & _) (q0 & q1 & Hs' & Hc' & Hv' & _).
  rewrite Hs in Hs'. injection Hs' as <- <-. split; congruence.
Qed.

(** X4: the value the parsed map holds for a channel is the value of the
    last token of the line that parses with that channel id, and a channel
    for which no token parses is absent: a repeated id is overwritten by
    its later occurrence, and tokens that do not parse contribute
    nothing. *)
Theorem parser_last_reading_wins (tokens : list string) (channel : Z) (value : float) :
  parseTokens tokens !! channel = Some value <->
  exists before token after,
    tokens = before ++ token :: after /\
    tokenReads token channel value /\
    forall later v, later ∈ after -> ~ tokenReads later channel v.
Proof.
  unfold parseTokens. induction tokens as [|token tokens IH] using rev_ind.
  - cbn. split; [intros [=]|]. intros (before & t & after & H & _).
    now destruct before.
  - rewrite fold_left_app. cbn [fold_left].
    destruct (parseToken_cases (fold_left parseToken tokens ∅) token)
      as [(c & v & Hreads)|[Hnone Hsame]].
    + rewrite (parseToken_reads _ _ _ _ Hreads).
      destruct (decide (c = channel)) as [->|Hne].
      * rewrite lookup_insert_eq. split.
        -- intros [= <-]. exists tokens, token, []. split; [reflexivity|].
           split; [exact Hreads|]. intros later w Hin. inversion Hin.
        -- intros (before & t & after & Heq & Hr & Hlast).
           destruct after as [|a after _] using rev_ind.
           ++ apply app_inj_tail in Heq as [_ <-].
              f_equal. exact (proj2 (tokenReads_functional _ _ _ _ _ Hreads Hr)).
           ++ rewrite app_comm_cons, app_assoc in Heq.
              apply app_inj_tail in Heq as [_ <-].
              exfalso. apply (Hlast token v); [|exact Hreads].
              apply elem_of_app. right. now left.
      * rewrite lookup_insert_ne by exact Hne. rewrite IH. split.
        -- intros (before & t & after & -> & Hr & Hlast).
           exists before, t, (after ++ [token]). split; [now rewrite <- app_assoc|].
           split; [exact Hr|]. intros later w Hin Hw.
           apply elem_of_app in Hin as [Hin|Hin]; [exact (Hlast later w Hin Hw)|].
           apply list_elem_of_singleton in Hin as ->.
           destruct (tokenReads_functional _ _ _ _ _ Hreads Hw) as [Hc _]. congruence.
        -- intros (before & t & after & Heq & Hr & Hlast).
           destruct after as [|a after _] using rev_ind.
           ++ apply app_inj_tail in Heq as [_ <-].
              destruct (tokenReads_functional _ _ _ _ _ Hreads Hr) as [Hc _]. congruence.
           ++ rewrite app_comm_cons, app_assoc in Heq.
              apply app_inj_tail in Heq as [-> <-].
              exists before, t, after. split; [reflexivity|]. split; [exact Hr|].
              intros later w Hin. apply Hlast, elem_of_app. now left.
    + rewrite Hsame, IH. split.
      * intros (before & t & after & -> & Hr & Hlast).
        exists before, t, (after ++ [token]). split; [now rewrite <- app_assoc|].
        split; [exact Hr|]. intros later w Hin Hw.
        apply elem_of_app in Hin as [Hin|Hin]; [exact (Hlast later w Hin Hw)|].
        apply list_elem_of_singleton in Hin as ->. exact (Hnone _ _ Hw).
      * intros (before & t & after & Heq & Hr & Hlast).
        destruct after as [|a after _] using rev_ind.
        -- apply app_inj_tail in Heq as [_ <-]. exfalso. exact (Hnone _ _ Hr).
        -- rewrite app_comm_cons, app_assoc in Heq.
           apply app_inj_tail in Heq as [-> <-].
           exists before, t, after. split; [reflexivity|]. split; [exact Hr|].
           intros later w Hin. apply Hlast, elem_of_app. now left.
Qed.

Example parser_duplicate_channel :
  parseLine "29:1;30:5;29:2" = {[ 29%Z := 2%float; 30%Z := 5%float ]}.
Proof. vm_compute. reflexivity. Qed.

(** ** Activation switches *)

Import ThermistorData.

Lemma toggle_updated id ts :
  fst (handleThermistorToggle id ts) =
  map (fun t => if (ThermistorData.id t =? id)%Z
                then mk (ThermistorData.id t) (name t) (resistance t) (temperature t)
                       (color t) (negb (active t))
                else t) ts.
Proof. reflexivity. Qed.

Lemma toggle_command id ts :
  snd (handleThermistorToggle id ts) =
  Num.join ","
    (map (fun t => Num.intToString (ThermistorData.id t + 28))
         (filter (fun t => active t = true) (fst (handleThermistorToggle id ts))))
  +:+ ";1;1".
Proof. reflexivity. Qed.

(** X5: switching a thermistor flips its activation and nothing else: its
    reading, temperature, name and colour stay, the other thermistors stay,
    and the order stays; switching the same id again gives back the
    thermistors there were; an id that no thermistor has changes nothing;
    and with every thermistor off the command sent names no channel at
    all. *)
Theorem toggle_flips_activation_only (id0 : Z) (ts : list Thermistor) :
  let '(updated, command) := handleThermistorToggle id0 ts in
  fst (handleThermistorToggle id0 updated) = ts /\
  Forall2 (fun t t' =>
             ThermistorData.id t' = ThermistorData.id t /\ name t' = name t /\
             resistance t' = resistance t /\ temperature t' = temperature t /\
             color t' = color t /\
             active t' = (if (ThermistorData.id t =? id0)%Z then negb (active t)
                          else active t))
          ts updated /\
  ((forall t, t ∈ ts -> ThermistorData.id t <> id0) -> updated = ts) /\
  ((forall t, t ∈ updated -> active t = false) -> command = ";1;1").
Proof.
  destruct (handleThermistorToggle id0 ts) as [updated command] eqn:H.
  pose proof (toggle_updated id0 ts) as Hu. pose proof (toggle_command id0 ts) as Hc.
  rewrite H in Hu, Hc. cbn [fst snd] in Hu, Hc. symmetry in Hu.
  split; [|split; [|split]].
  - rewrite toggle_updated, <- Hu, map_map.
    rewrite <- (map_id ts) at 2. apply map_ext. intros [i nm r tp c a]. cbn.
    destruct (i =? id0)%Z eqn:Hi; cbn; [|now rewrite Hi].
    rewrite Hi. now rewrite negb_involutive.
  - rewrite <- Hu. clear. induction ts as [|[i nm r tp c a] ts IH]; cbn [map]; constructor.
    + cbn. destruct (i =? id0)%Z; cbn; auto 10.
    + exact IH.
  - intros Hnot. rewrite <- Hu. rewrite <- (map_id ts) at 2. apply map_ext_in.
    intros t Hin. apply list_elem_of_In in Hin.
    destruct (Z.eqb_spec (ThermistorData.id t) id0) as [Heq|_]; [|reflexivity].
    now apply Hnot in Hin.
  - intros Hoff. rewrite Hc.
    replace (filter (fun t => active t = true) updated) with (@nil Thermistor);
      [reflexivity|].
    symmetry. clear -Hoff. induction updated as [|t u IH]; [reflexivity|].
    rewrite filter_cons. destruct (decide (active t = true)) as [Ht|_].
    + rewrite (Hoff t) in Ht by now left. discriminate.
    + apply IH. intros x Hx. apply Hoff. now right.
Qed.

Example toggle_second_thermistor :
  snd (handleThermistorToggle 2 initialThermistors) = "29,31,32;1;1" /\
  sendCommand true (snd (handleThermistorToggle 2 initialThermistors))
  = Some (String.append "29,31,32;1;1" (String "010"%char EmptyString)) /\
  sendCommand false (snd (handleThermistorToggle 2 initialThermistors)) = None.
Proof. vm_compute. repeat split. Qed.

(** ** NaN in binary64 arithmetic *)

Lemma SFcompare_refl x : x <> S754_nan -> SFcompare x x = Some Eq.
Proof.
  destruct x as [[|]|[|]| |[|] m e]; cbn; try congruence; intros _.
  all: rewrite Z.compare_refl.
  all: change (Pos.compare_cont Eq m m) with (Pos.compare m m).
  all: now rewrite Pos.compare_refl.
Qed.

Lemma isNaN_spec x : isNaN x = true <-> Prim2SF x = S754_nan.
Proof.
  unfold isNaN. rewrite FloatAxioms.eqb_spec. unfold SFeqb. split.
  - intros H. destruct (Prim2SF x) eqn:E; try reflexivity.
    all: rewrite SFcompare_refl in H by discriminate; discriminate.
  - intros ->. reflexivity.
Qed.

Lemma isNaN_add_l x y : isNaN x = true -> isNaN (x + y)%float = true.
Proof. rewrite !isNaN_spec, FloatAxioms.add_spec. intros ->. reflexivity. Qed.

Lemma isNaN_add_r x y : isNaN y = true -> isNaN (x + y)%float = true.
Proof.
  rewrite !isNaN_spec, FloatAxioms.add_spec. intros ->. unfold SF64add, SFadd.
  now destruct (Prim2SF x) as [[|]|[|]| |].
Qed.

Lemma isNaN_div_l x y : isNaN x = true -> isNaN (x / y)%float = true.
Proof. rewrite !isNaN_spec, FloatAxioms.div_spec. intros ->. reflexivity. Qed.

(** ** Capture requests *)

Import ThermistorData.

Lemma filter_active_nil (ts : list Thermistor) :
  (forall t, t ∈ ts -> active t = false) ->
  filter (fun t => active t = true) ts = [].
Proof.
  induction ts as [|t ts IH]; intros Hoff; [reflexivity|].
  rewrite filter_cons. destruct (decide (active t = true)) as [Ht|_].
  - rewrite (Hoff t) in Ht by now left. discriminate.
  - apply IH. intros x Hx. apply Hoff. now right.
Qed.

Lemma filter_active_cons (ts : list Thermistor) t :
  t ∈ ts -> active t = true -> filter (fun t => active t = true) ts <> [].
Proof.
  intros Hin Hact Hnil.
  assert (H : t ∈ filter (fun t => active t = true) ts)
    by (apply list_elem_of_filter; auto).
  rewrite Hnil in H. inversion H.
Qed.

(** X6: a capture request with no reference temperature, with one that is
    not a number, or with every thermistor off is turned down without a
    trace: the page is exactly as it was, a running averaging session
    included (it is not cancelled), and nothing is sent to the server. *)
Theorem rejected_capture_changes_nothing (avgTime : float) (timestamp : Z)
    (isoTime : string) (st : PageState) :
  measuredTempInput st = None \/
  (exists x, measuredTempInput st = Some x /\ isNaN x = true) \/
  (forall t, t ∈ thermistors st -> active t = false) ->
  handleCalibrate avgTime timestamp isoTime st = Ok (st, None).
Proof.
  intros [Hnone|[(x & Hx & Hnan)|Hoff]]; unfold handleCalibrate.
  - now rewrite Hnone.
  - now rewrite Hx, Hnan.
  - destruct (measuredTempInput st) as [x|]; [|reflexivity].
    destruct (isNaN x); [reflexivity|].
    now rewrite (filter_active_nil _ Hoff).
Qed.

Lemma rejected_capture_changes_nothing_witness :
  (forall t, t ∈ thermistors (with_thermistors [] initialState) -> active t = false) /\
  handleCalibrate 5 0 "t"
    (with_session (Some (newSession 0 "t" 25 [])) initialState)
  = Ok (with_session (Some (newSession 0 "t" 25 [])) initialState, None).
Proof.
  split; [intros t Hin; inversion Hin|].
  apply rejected_capture_changes_nothing. left. reflexivity.
Defined.

Lemma handleCalibrate_valid avgTime timestamp isoTime st measured :
  validRequest st measured ->
  handleCalibrate avgTime timestamp isoTime st =
  if gt avgTime 0 then
    Ok (with_session (Some (newSession timestamp isoTime measured (calibrationLog st)))
          (with_averagingInProgress true (with_session None st)), None)
  else
    newEntry ← instantEntry st isoTime measured;
    Ok (with_calibrationPoints
          (pushMarkers_instant (calibrationPoints (with_session None st))
             (newCalibrationPoints isoTime timestamp (thermistors st)))
          (with_session None st),
        Some {| ps_entry := newEntry; ps_calibrationLog := calibrationLog st |}).
Proof.
  intros (Hm & Hnan & t & Hin & Hact). unfold handleCalibrate. rewrite Hm, Hnan.
  destruct (filter (fun t => active t = true) (thermistors st)) eqn:Hf.
  - exfalso. exact (filter_active_cons _ t Hin Hact Hf).
  - reflexivity.
Qed.

(** X7: a valid request with a positive duration always wins over a
    session in flight: the page it leaves does not depend on the session
    there was, whose accumulators and captured values are dropped whole;
    the new session starts from sums and count 0 with the reference
    temperature and the log of this request, the averaging flag is set, and
    neither the markers, the log nor the thermistors change. *)
Theorem new_averaging_request_discards_session (avgTime : float) (timestamp : Z)
    (isoTime : string) (st : PageState) (measured : float)
    (old other : option AveragingSession) :
  validRequest st measured -> gt avgTime 0 = true ->
  exists st',
    handleCalibrate avgTime timestamp isoTime (with_session old st) = Ok (st', None) /\
    handleCalibrate avgTime timestamp isoTime (with_session other st) = Ok (st', None) /\
    session st' = Some (newSession timestamp isoTime measured (calibrationLog st)) /\
    averagingInProgress st' = true /\
    calibrationPoints st' = calibrationPoints st /\
    calibrationLog st' = calibrationLog st /\
    thermistors st' = thermistors st.
Proof.
  intros Hvalid Hpos. eexists. split; [|split].
  - rewrite (handleCalibrate_valid _ _ _ _ measured) by exact Hvalid.
    rewrite Hpos. reflexivity.
  - rewrite (handleCalibrate_valid _ _ _ _ measured) by exact Hvalid.
    rewrite Hpos. reflexivity.
  - cbn. auto.
Qed.

Lemma new_averaging_request_discards_session_witness :
  validRequest (stateWithMarkers 3) 25 /\ gt 2 0 = true /\
  handleCalibrate 2 7 "now"
    (with_session (Some (newSession 0 "t" 99 [])) (stateWithMarkers 3))
  = handleCalibrate 2 7 "now" (with_session None (stateWithMarkers 3)).
Proof.
  assert (Hv : validRequest (stateWithMarkers 3) 25).
  { split; [reflexivity|]. split; [reflexivity|].
    exists thermistor1. split; [now left | reflexivity]. }
  split; [exact Hv|]. split; [reflexivity|].
  destruct (new_averaging_request_discards_session 2 7 "now" (stateWithMarkers 3) 25
              (Some (newSession 0 "t" 99 [])) None Hv eq_refl) as (st' & H1 & H2 & _).
  now rewrite H1, H2.
Defined.

(** ** Captures and the log *)

Import ThermistorData.

Lemma instantEntry_number st isoTime measured e :
  instantEntry st isoTime measured = Ok e ->
  calibrationNumber e = (Z.of_nat (length (calibrationLog st)) + 1)%Z.
Proof.
  unfold instantEntry.
  destruct (thermistorAt (thermistors st) 0); cbn [mbind res_bind]; [|discriminate].
  destruct (thermistorAt (thermistors st) 1); cbn [mbind res_bind]; [|discriminate].
  destruct (thermistorAt (thermistors st) 2); cbn [mbind res_bind]; [|discriminate].
  destruct (thermistorAt (thermistors st) 3); cbn [mbind res_bind]; [|discriminate].
  intros [= <-]. reflexivity.
Qed.

(** What an instant capture leaves behind. *)
Lemma instant_capture_fields timestamp isoTime st st1 p :
  handleCalibrate 0 timestamp isoTime st = Ok (st1, Some p) ->
  calibrationNumber (ps_entry p) = (Z.of_nat (length (calibrationLog st)) + 1)%Z /\
  ps_calibrationLog p = calibrationLog st /\
  calibrationLog st1 = calibrationLog st /\
  thermistors st1 = thermistors st /\
  measuredTempInput st1 = measuredTempInput st /\
  calibrationPoints st1 =
    calibrationPoints st ++ newCalibrationPoints isoTime timestamp (thermistors st).
Proof.
  unfold handleCalibrate. destruct (measuredTempInput st) as [x|] eqn:Hm; [|discriminate].
  destruct (isNaN x); [discriminate|].
  destruct (_ =? 0)%nat; [discriminate|].
  change (gt 0 0) with false. cbn iota.
  destruct (instantEntry st isoTime x) as [e|err] eqn:He; cbn [mbind res_bind];
    [|discriminate].
  intros [= <- <-]. cbn. rewrite Hm. repeat split.
  exact (instantEntry_number _ _ _ _ He).
Qed.

Lemma consecutive_snoc log e :
  consecutive log -> calibrationNumber e = (Z.of_nat (length log) + 1)%Z ->
  consecutive (log ++ [e]).
Proof.
  unfold consecutive. intros Hlog He.
  rewrite map_app, length_app, Hlog. cbn [length map].
  rewrite Nat.add_1_r, seq_S, map_app. cbn [map]. f_equal. rewrite He. f_equal. lia.
Qed.

Section Captures.

Variable ln : float -> float.
Variable pow : float -> float -> float.

Lemma saveSettled_thermistors r p st :
  thermistors (fst (saveSettled ln pow r p st))
  = refitted ln pow (ps_calibrationLog p) (thermistors st).
Proof.
  unfold saveSettled, setThermistors, refitted.
  destruct (responseOk r); cbn [thermistors with_calibrationLog with_averagingInProgress];
    destruct (mapM _ (thermistors st)); reflexivity.
Qed.

(** X8: captures taken one after the other keep the log numbered 1, 2,
    3, ...: when the log is so numbered, an instant capture whose save
    succeeds before anything else is appended extends it by one entry,
    numbered one more than the last. *)
Theorem sequential_captures_number_consecutively (timestamp : Z) (isoTime : string)
    (st st1 : PageState) (p : PendingSave) (r : Response) :
  handleCalibrate 0 timestamp isoTime st = Ok (st1, Some p) ->
  responseOk r = true ->
  consecutive (calibrationLog st) ->
  let st2 := fst (saveSettled ln pow r p st1) in
  calibrationLog st2 = calibrationLog st ++ [ps_entry p] /\
  calibrationNumber (ps_entry p) = Z.of_nat (length (calibrationLog st2)) /\
  consecutive (calibrationLog st2).
Proof.
  intros Hcap Hok Hcons. cbv zeta.
  destruct (instant_capture_fields _ _ _ _ _ Hcap) as (Hn & _ & Hl & _).
  destruct (saveSettled_frame ln pow r p st1) as (_ & Hl2 & _).
  cbv zeta in Hl2. rewrite Hok, Hl in Hl2. rewrite Hl2.
  split; [reflexivity|]. split.
  - rewrite length_app, Hn. cbn [length]. lia.
  - now apply consecutive_snoc.
Qed.

(** X9: two instant captures taken before the save of the first has
    settled get the same ordinal: both entries join the log, in order,
    each numbered one more than the length the log had before the
    first. *)
Theorem overlapping_captures_share_ordinal (t1 t2 : Z) (iso1 iso2 : string)
    (st st1 st2 : PageState) (p1 p2 : PendingSave) (r1 r2 : Response) :
  handleCalibrate 0 t1 iso1 st = Ok (st1, Some p1) ->
  handleCalibrate 0 t2 iso2 st1 = Ok (st2, Some p2) ->
  responseOk r1 = true -> responseOk r2 = true ->
  let st3 := fst (saveSettled ln pow r1 p1 st2) in
  let st4 := fst (saveSettled ln pow r2 p2 st3) in
  calibrationLog st4 = calibrationLog st ++ [ps_entry p1; ps_entry p2] /\
  calibrationNumber (ps_entry p1) = (Z.of_nat (length (calibrationLog st)) + 1)%Z /\
  calibrationNumber (ps_entry p2) = calibrationNumber (ps_entry p1) /\
  ~ consecutive (calibrationLog st4).
Proof.
  intros Hc1 Hc2 Hok1 Hok2. cbv zeta.
  destruct (instant_capture_fields _ _ _ _ _ Hc1) as (Hn1 & _ & Hl1 & _).
  destruct (instant_capture_fields _ _ _ _ _ Hc2) as (Hn2 & _ & Hl2 & _).
  destruct (saveSettled_frame ln pow r1 p1 st2) as (_ & Hl3 & _).
  destruct (saveSettled_frame ln pow r2 p2 (fst (saveSettled ln pow r1 p1 st2)))
    as (_ & Hl4 & _).
  cbv zeta in Hl3, Hl4. rewrite Hok1 in Hl3. rewrite Hok2, Hl3, Hl2, Hl1 in Hl4.
  rewrite Hl1 in Hn2.
  assert (Hlog : calibrationLog (fst (saveSettled ln pow r2 p2
                                        (fst (saveSettled ln pow r1 p1 st2))))
                 = calibrationLog st ++ [ps_entry p1; ps_entry p2]).
  { rewrite Hl4, <- app_assoc. reflexivity. }
  split; [exact Hlog|]. split; [exact Hn1|]. split; [congruence|].
  rewrite Hlog. unfold consecutive. intros H.
  rewrite map_app, length_app in H. cbn [length map] in H.
  replace (length (calibrationLog st) + 2)%nat
    with (S (S (length (calibrationLog st)))) in H by lia.
  rewrite !seq_S, !map_app in H. cbn [map] in H.
  rewrite <- app_assoc in H. cbn [app] in H.
  apply (f_equal (fun l => drop (length (calibrationLog st)) l)) in H.
  rewrite !drop_app_length' in H by (rewrite ?length_map, ?length_seq; reflexivity).
  injection H as H1 H2. lia.
Qed.

(** X10: the refit that follows a capture does not see the entry just
    captured. After a successful save the log holds the new entry, but
    the temperatures are recomputed from the log as it was when the
    capture was requested. *)
Theorem refit_after_capture_uses_log_before_it (timestamp : Z) (isoTime : string)
    (st st1 : PageState) (p : PendingSave) (r : Response) :
  handleCalibrate 0 timestamp isoTime st = Ok (st1, Some p) ->
  responseOk r = true ->
  let st2 := fst (saveSettled ln pow r p st1) in
  calibrationLog st2 = calibrationLog st ++ [ps_entry p] /\
  thermistors st2 = refitted ln pow (calibrationLog st) (thermistors st).
Proof.
  intros Hcap Hok. cbv zeta.
  destruct (instant_capture_fields _ _ _ _ _ Hcap) as (_ & Hp & Hl & Ht & _).
  destruct (saveSettled_frame ln pow r p st1) as (_ & Hl2 & _).
  cbv zeta in Hl2. rewrite Hok, Hl in Hl2.
  split; [exact Hl2|]. now rewrite saveSettled_thermistors, Hp, Ht.
Qed.

End Captures.

(** A page with a reading on the first thermistor and a reference
    temperature typed in: an instant capture goes through. *)
Lemma capture_goes_through :
  exists st1 p,
    handleCalibrate 0 0 "t" (with_thermistors (readingOnFirst 1000) (stateWithMarkers 0))
    = Ok (st1, Some p).
Proof. eexists _, _. reflexivity. Qed.

Lemma sequential_captures_number_consecutively_witness :
  consecutive [] /\ responseOk (HttpStatus 201) = true /\
  exists st1 p,
    handleCalibrate 0 0 "t" (with_thermistors (readingOnFirst 1000) (stateWithMarkers 0))
    = Ok (st1, Some p) /\
    consecutive (calibrationLog (fst (saveSettled Approx.log Approx.pow
                                        (HttpStatus 201) p st1))).
Proof.
  split; [reflexivity|]. split; [reflexivity|].
  destruct capture_goes_through as (st1 & p & Hcap). exists st1, p. split; [exact Hcap|].
  apply (sequential_captures_number_consecutively Approx.log Approx.pow
           0 "t" _ st1 p (HttpStatus 201) Hcap eq_refl).
  reflexivity.
Defined.

Lemma overlapping_captures_share_ordinal_witness :
  responseOk (HttpStatus 200) = true /\
  exists st1 p1 st2 p2,
    handleCalibrate 0 0 "t" (with_thermistors (readingOnFirst 1000) (stateWithMarkers 0))
    = Ok (st1, Some p1) /\
    handleCalibrate 0 1 "u" st1 = Ok (st2, Some p2) /\
    calibrationNumber (ps_entry p2) = calibrationNumber (ps_entry p1).
Proof.
  split; [reflexivity|].
  destruct capture_goes_through as (st1 & p1 & Hc1).
  assert (Hc2 : exists st2 p2, handleCalibrate 0 1 "u" st1 = Ok (st2, Some p2)).
  { vm_compute in Hc1. injection Hc1 as <- <-. eexists _, _. reflexivity. }
  destruct Hc2 as (st2 & p2 & Hc2).
  exists st1, p1, st2, p2. split; [exact Hc1|]. split; [exact Hc2|].
  apply (overlapping_captures_share_ordinal Approx.log Approx.pow 0 1 "t" "u"
           _ st1 st2 p1 p2 (HttpStatus 200) (HttpStatus 200) Hc1 Hc2 eq_refl eq_refl).
Defined.

Lemma refit_after_capture_uses_log_before_it_witness :
  responseOk (HttpStatus 200) = true /\
  exists st1 p,
    handleCalibrate 0 0 "t" (with_thermistors (readingOnFirst 1000) (stateWithMarkers 0))
    = Ok (st1, Some p) /\
    thermistors (fst (saveSettled Approx.log Approx.pow (HttpStatus 200) p st1))
    = refitted Approx.log Approx.pow [] (readingOnFirst 1000).
Proof.
  split; [reflexivity|].
  destruct capture_goes_through as (st1 & p & Hcap). exists st1, p. split; [exact Hcap|].
  apply (refit_after_capture_uses_log_before_it Approx.log Approx.pow
           0 "t" _ st1 p (HttpStatus 200) Hcap eq_refl).
Defined.

(** ** Averaging with an unavailable reading *)

Import ThermistorData.

Lemma sum_poisoned (g : list Thermistor -> float) (snapshots : list (list Thermistor))
    (acc : float) :
  isNaN acc = true \/ (exists ts, ts ∈ snapshots /\ isNaN (g ts) = true) ->
  isNaN (fold_left (fun acc ts => (acc + g ts)%float) snapshots acc) = true.
Proof.
  revert acc. induction snapshots as [|ts snapshots IH]; intros acc [Hacc|(u & Hin & Hu)].
  - exact Hacc.
  - inversion Hin.
  - cbn [fold_left]. apply IH. left. now apply isNaN_add_l.
  - cbn [fold_left]. apply IH. apply elem_of_cons in Hin as [->|Hin].
    + left. now apply isNaN_add_r.
    + right. eauto.
Qed.

(** X11: one unavailable reading spoils the average. If at some tick of
    the sampler the first thermistor is active with a NaN reading (its
    channel was missing from the last telemetry line), and the thermistor
    is active at commit, the value committed for it is NaN, whatever the
    other samples are. *)
Theorem unavailable_sample_spoils_mean (snapshots : list (list Thermistor))
    (timestamp : Z) (isoTime : string) (measured : float)
    (log : list CalibrationLogEntry) (st : PageState) (t0 t1 t2 t3 : Thermistor)
    (bad : list Thermistor) :
  Forall (fun ts => length ts = 4%nat) snapshots ->
  thermistors st = [t0; t1; t2; t3] -> active t0 = true ->
  bad ∈ snapshots -> isNaN (sampleOf 0 bad) = true ->
  gt (sampleCount snapshots) 0 = true ->
  exists s st' p,
    runSession snapshots (newSession timestamp isoTime measured log) = Ok s /\
    commitAveraging s st = Ok (st', p) /\
    isNaN (measuredResistanceT1 (ps_entry p)) = true.
Proof.
  intros Hall Hts Hact Hbad Hnan Hcount.
  destruct (runSession_sums snapshots (newSession timestamp isoTime measured log) Hall)
    as (s & Hrun & H1 & _ & _ & _ & Hc & _).
  exists s. unfold commitAveraging, averagedEntry. rewrite Hts.
  cbn [thermistorAt lookup list_lookup mbind res_bind].
  eexists _, _. split; [exact Hrun|]. split; [reflexivity|].
  cbn [ps_entry measuredResistanceT1]. rewrite Hact. unfold average.
  change (count s = sampleCount snapshots) in Hc. rewrite Hc, Hcount.
  apply isNaN_div_l. rewrite H1. apply sum_poisoned. right. eauto.
Qed.

Lemma unavailable_sample_spoils_mean_witness :
  Forall (fun ts => length ts = 4%nat) (map readingOnFirst [10; NaN; 30]%float) /\
  exists s st' p,
    runSession (map readingOnFirst [10; NaN; 30]%float) (newSession 0 "t" 25 []) = Ok s /\
    commitAveraging s initialState = Ok (st', p) /\
    isNaN (measuredResistanceT1 (ps_entry p)) = true.
Proof.
  assert (H4 : Forall (fun ts => length ts = 4%nat)
                 (map readingOnFirst [10; NaN; 30]%float)) by (repeat constructor).
  split; [exact H4|].
  apply (unavailable_sample_spoils_mean (map readingOnFirst [10; NaN; 30]%float)
           0 "t" 25%float [] initialState _ _ _ _ (readingOnFirst NaN) H4 eq_refl eq_refl).
  - right. left.
  - reflexivity.
  - reflexivity.
Defined.

(** ** The fit of a channel the log has nothing for *)

Lemma positiveEntries_none channel calibrationLog :
  (forall log, log ∈ calibrationLog -> gt (channelResistance channel log) 0 = false) ->
  positiveEntries channel calibrationLog = [].
Proof.
  intros Hnone. unfold positiveEntries.
  induction calibrationLog as [|log rest IH]; [reflexivity|].
  rewrite filter_cons. destruct (decide _) as [Hpos|_].
  - rewrite (Hnone log) in Hpos by now left. discriminate.
  - apply IH. intros l Hl. apply Hnone. now right.
Qed.

(** X12: a channel other than 29, 30, 31 and 32 has no column in the log:
    whatever the log holds, its coefficients are those fitted on the four
    reference pairs, the same as with an empty log. *)
Theorem unknown_channel_fits_reference_pairs (ln : float -> float) (channel : Z)
    (calibrationLog : list CalibrationLogEntry) :
  channel <> 29%Z -> channel <> 30%Z -> channel <> 31%Z -> channel <> 32%Z ->
  computeCoeffs ln channel calibrationLog = fit ln standardPoints /\
  computeCoeffs ln channel calibrationLog = computeCoeffs ln channel [].
Proof.
  intros H29 H30 H31 H32.
  assert (H : forall log, computeCoeffs ln channel log = fit ln standardPoints).
  { intros log0. unfold computeCoeffs. rewrite selectPoints_policy, positiveEntries_none; [reflexivity|].
    intros log _. unfold channelResistance.
    destruct (Z.eqb_spec channel 29); [contradiction|].
    destruct (Z.eqb_spec channel 30); [contradiction|].
    destruct (Z.eqb_spec channel 31); [contradiction|].
    destruct (Z.eqb_spec channel 32); [contradiction|]. reflexivity. }
  split; [apply H|]. rewrite (H calibrationLog), (H []). reflexivity.
Qed.

Lemma unknown_channel_fits_reference_pairs_witness :
  33%Z <> 29%Z /\
  computeCoeffs Approx.log 33 negativeLog = fit Approx.log standardPoints.
Proof.
  split; [discriminate|].
  apply (unknown_channel_fits_reference_pairs Approx.log 33 negativeLog); discriminate.
Defined.

(** ** The solution vector *)

Lemma backSubstitute_length A b : length (backSubstitute A b) = 4%nat.
Proof.
  unfold backSubstitute. generalize (rev (seq 0 n)) as steps.
  assert (H : length (replicate n 0%float) = 4%nat) by reflexivity.
  revert H. generalize (replicate n 0%float) as x. intros x Hx steps. revert x Hx.
  induction steps as [|i steps IH]; intros x Hx; [exact Hx|].
  cbn [fold_left]. apply IH. now rewrite length_insert.
Qed.

(** X13: whenever the solve returns, on a system of any shape, it returns
    exactly four numbers, and the fit reads its four coefficients off
    them, in order. *)
Theorem solve_returns_four_coefficients (ln : float -> float) (X : matrix) (Y : vector)
    (points : list Point) :
  (forall x, solveLinearSystem X Y = Ok x -> length x = 4%nat) /\
  (forall coeff, fit ln points = Ok coeff ->
     solveLinearSystem (designMatrix ln points) (rhs points)
     = Ok [A coeff; B coeff; C coeff; D coeff]).
Proof.
  assert (H4 : forall X Y x, solveLinearSystem X Y = Ok x -> length x = 4%nat).
  { intros X' Y' x. unfold solveLinearSystem.
    destruct (eliminate (seq 0 n) (X', Y')) as [[A' b']|e]; cbn [mbind res_bind];
      [|discriminate].
    intros [= <-]. apply backSubstitute_length. }
  split; [apply H4|].
  intros coeff. unfold fit.
  destruct (solveLinearSystem (designMatrix ln points) (rhs points)) as [x|e] eqn:Hs;
    cbn [mbind res_bind]; [|discriminate].
  intros [= <-]. cbn [A B C D]. f_equal.
  destruct (length4_inv x (H4 _ _ _ Hs)) as (a & b & c & d & ->). reflexivity.
Qed.

(** ** The visible window of the chart *)

Lemma window_indices_checked :
  forallb (fun len => forallb (windowIndexOk len) (seq 0 101)) (seq 0 501) = true.
Proof. vm_compute. reflexivity. Qed.

Lemma window_index len v :
  (len <= 500)%nat -> (v <= 100)%nat -> windowIndexOk len v = true.
Proof.
  intros Hlen Hv. pose proof window_indices_checked as H.
  rewrite forallb_forall in H. specialize (H len).
  rewrite forallb_forall in H. apply H; apply in_seq; lia.
Qed.

Lemma relativeIndex_within len k :
  (0 <= k <= Z.of_nat len)%Z -> Num.relativeIndex len k = Z.to_nat k.
Proof.
  intros Hk. unfold Num.relativeIndex.
  destruct (Z.ltb_spec k 0); [lia|]. f_equal. lia.
Qed.

Lemma relativeIndex_beyond len k :
  (Z.of_nat len <= k)%Z -> Num.relativeIndex len k = len.
Proof.
  intros Hk. unfold Num.relativeIndex.
  destruct (Z.ltb_spec k 0); [lia|]. rewrite Z.min_r by lia. apply Nat2Z.id.
Qed.

Lemma take_drop_min {T} (l : list T) s k :
  take (Nat.min k (length l) - s) (drop s l) = take (k - s) (drop s l).
Proof.
  destruct (le_lt_dec k (length l)) as [Hle|Hgt].
  - now rewrite Nat.min_l by lia.
  - rewrite Nat.min_r by lia.
    rewrite !take_ge by (rewrite length_drop; lia). reflexivity.
Qed.

Lemma visibleData_nonempty chartData lo hi :
  chartData <> [] ->
  visibleData chartData lo hi =
  if ((lo =? 0)%float && (hi =? 100)%float)%bool then chartData
  else
    let len := Num.ofZ (Z.of_nat (length chartData)) in
    Num.slice chartData (Num.floor (len * lo / 100)%float)
      (Num.floor (len * hi / 100)%float + 1)%float.
Proof. destruct chartData; [congruence | reflexivity]. Qed.

Lemma visibleData_voltage_nonempty chartData lo hi :
  chartData <> [] ->
  visibleData_voltage chartData lo hi =
  let len := Num.ofZ (Z.of_nat (length chartData)) in
  if ((hi =? 100)%float && (lo =? 0)%float)%bool then chartData
  else if (hi =? 100)%float then
    Num.sliceFrom chartData
      (- Num.max 1 (Num.floor (len * (hi - lo) / 100)%float))%float
  else
    Num.slice chartData (Num.floor (len * lo / 100)%float)
      (Num.floor (len * hi / 100)%float + 1)%float.
Proof. destruct chartData; [congruence | reflexivity]. Qed.

(** X14: for a chart of at most 500 points and slider thumbs at integer
    positions [lo <= hi] between 0 and 100, the visible window is the whole
    chart when the thumbs are at 0 and 100, and otherwise the points from
    index [n * lo / 100] to index [n * hi / 100], both included, in integer
    arithmetic ([n] the number of points): the floating-point index
    computation never lands on a neighbouring index. The window is empty
    exactly when the chart is empty or the left thumb is at 100. *)
Theorem visible_window_is_integer_slice (chartData : list ChartDataPoint) (lo hi : nat) :
  (length chartData <= 500)%nat -> (lo <= hi)%nat -> (hi <= 100)%nat ->
  let n := length chartData in
  let window := visibleData chartData (Num.ofZ (Z.of_nat lo)) (Num.ofZ (Z.of_nat hi)) in
  window =
    (if ((lo =? 0) && (hi =? 100))%nat then chartData
     else take (n * hi / 100 + 1 - n * lo / 100) (drop (n * lo / 100) chartData)) /\
  (window = [] <-> chartData = [] \/ lo = 100%nat).
Proof.
  intros Hlen Hlohi Hhi. cbv zeta.
  pose proof (window_index (length chartData) lo Hlen ltac:(lia)) as Hlo.
  pose proof (window_index (length chartData) hi Hlen Hhi) as Hhi'.
  unfold windowIndexOk in Hlo, Hhi'.
  apply andb_prop in Hlo as [Hlo _]. apply andb_prop in Hlo as [Hlo _].
  apply andb_prop in Hlo as [Hlo Hs]. apply andb_prop in Hlo as [Hlo0 _].
  apply andb_prop in Hhi' as [Hhi' _]. apply andb_prop in Hhi' as [Hhi' He].
  apply andb_prop in Hhi' as [Hhi' _]. apply andb_prop in Hhi' as [_ Hhi100].
  apply Bool.eqb_prop in Hlo0, Hhi100. apply Z.eqb_eq in Hs, He.
  set (n := length chartData) in *.
  assert (Hsn : (n * lo / 100 <= n)%nat).
  { apply Nat.Div0.div_le_upper_bound. nia. }
  assert (Hse : (n * lo / 100 <= n * hi / 100)%nat).
  { apply Nat.Div0.div_le_mono. nia. }
  assert (Hslice :
            visibleData chartData (Num.ofZ (Z.of_nat lo)) (Num.ofZ (Z.of_nat hi)) =
            if ((lo =? 0) && (hi =? 100))%nat then chartData
            else take (n * hi / 100 + 1 - n * lo / 100) (drop (n * lo / 100) chartData)).
  { destruct (decide (chartData = [])) as [Hnil|Hne].
    - rewrite Hnil. destruct ((lo =? 0) && (hi =? 100))%nat; [reflexivity|].
      now rewrite drop_nil, take_nil.
    - rewrite visibleData_nonempty by exact Hne. fold n. rewrite Hlo0, Hhi100.
      destruct ((lo =? 0) && (hi =? 100))%nat; [reflexivity|].
      unfold Num.slice. fold n. rewrite Hs, He.
      replace (Z.of_nat n * Z.of_nat lo / 100)%Z with (Z.of_nat (n * lo / 100))
        by (rewrite Nat2Z.inj_div, Nat2Z.inj_mul; reflexivity).
      replace (Z.of_nat n * Z.of_nat hi / 100)%Z with (Z.of_nat (n * hi / 100))
        by (rewrite Nat2Z.inj_div, Nat2Z.inj_mul; reflexivity).
      rewrite (relativeIndex_within n (Z.of_nat (n * lo / 100))) by lia.
      rewrite Nat2Z.id.
      destruct (le_lt_dec (n * hi / 100 + 1) n) as [Hle|Hgt].
      + rewrite relativeIndex_within by lia.
        replace (Z.to_nat (Z.of_nat (n * hi / 100) + 1)) with (n * hi / 100 + 1)%nat by lia.
        reflexivity.
      + rewrite relativeIndex_beyond by lia.
        rewrite !take_ge by (rewrite length_drop; fold n; lia). reflexivity. }
  split; [exact Hslice|]. rewrite Hslice.
  destruct (decide (chartData = [])) as [Hnil|Hne].
  - split; [now left|]. intros _. rewrite Hnil.
    destruct ((lo =? 0) && (hi =? 100))%nat; [reflexivity|].
    now rewrite drop_nil, take_nil.
  - assert (Hn : (0 < n)%nat)
      by (unfold n; destruct chartData; [congruence | cbn; lia]).
    destruct (Nat.eqb_spec lo 0) as [Hlo'|Hlo']; cbn [andb].
    + subst lo. destruct (Nat.eqb_spec hi 100) as [Hh|Hh].
      * split; [intros H; contradiction
               | intros [H|H]; [contradiction | discriminate]].
      * rewrite Nat.mul_0_r. change (0 / 100)%nat with 0%nat.
        rewrite drop_0, Nat.sub_0_r. split.
        -- intros H. apply (f_equal length) in H. rewrite length_take in H.
           cbn [length] in H. fold n in H. lia.
        -- intros [H|H]; [contradiction | discriminate].
    + split.
      * intros H. right. apply (f_equal length) in H.
        rewrite length_take, length_drop in H. cbn [length] in H. fold n in H.
        assert (Hns : (n <= n * lo / 100)%nat) by lia.
        assert (Hge : (n * 100 <= n * lo)%nat).
        { destruct (le_lt_dec (n * 100) (n * lo)) as [|Hlt]; [assumption|].
          assert ((n * lo / 100 < n)%nat)
            by (apply Nat.Div0.div_lt_upper_bound; lia).
          lia. }
        nia.
      * intros [H|Hl]; [contradiction|]. subst lo.
        replace (n * 100 / 100)%nat with n by (rewrite Nat.div_mul; lia).
        unfold n. rewrite drop_all. apply take_nil.
Qed.

Lemma visible_window_is_integer_slice_witness :
  (length (replicate 7 {| cd_time := "t"; cd_timestamp := 0; cd_series := ∅ |}) <= 500)%nat /\
  (visibleData (replicate 7 {| cd_time := "t"; cd_timestamp := 0; cd_series := ∅ |})
     (Num.ofZ (Z.of_nat 100)) (Num.ofZ (Z.of_nat 100)) = [] <->
   replicate 7 {| cd_time := "t"; cd_timestamp := 0; cd_series := ∅ |} = [] \/
   100%nat = 100%nat).
Proof.
  assert (H : (length (replicate 7 {| cd_time := "t"; cd_timestamp := 0;
                                      cd_series := ∅ |}) <= 500)%nat)
    by (rewrite length_replicate; lia).
  split; [exact H|].
  apply (visible_window_is_integer_slice _ 100 100 H); lia.
Defined.

(** X15: in the variant that reads voltages, with the right thumb at 100
    and the left thumb at an integer position above 0, the window of a
    chart of at most 500 points is its last [max 1 (n * (100 - lo) / 100)]
    points: it is never empty for a chart that is not, not even with both
    thumbs at 100. *)
Theorem voltage_window_never_empty (chartData : list ChartDataPoint) (lo : nat) :
  (length chartData <= 500)%nat -> (0 < lo <= 100)%nat -> chartData <> [] ->
  let n := length chartData in
  let window := visibleData_voltage chartData (Num.ofZ (Z.of_nat lo)) 100 in
  window = drop (n - Nat.max 1 (n * (100 - lo) / 100)) chartData /\
  length window = Nat.max 1 (n * (100 - lo) / 100) /\
  window <> [].
Proof.
  intros Hlen Hlo Hne. cbv zeta.
  pose proof (window_index (length chartData) lo Hlen ltac:(lia)) as H.
  unfold windowIndexOk in H.
  apply andb_prop in H as [H Hcount]. apply andb_prop in H as [H _].
  apply andb_prop in H as [H _]. apply andb_prop in H as [Hlo0 _].
  apply Bool.eqb_prop in Hlo0. apply Z.eqb_eq in Hcount.
  set (n := length chartData) in *.
  assert (Hn : (0 < n)%nat) by (unfold n; destruct chartData; [congruence | cbn; lia]).
  assert (Hk : (n * (100 - lo) / 100 <= n)%nat).
  { apply Nat.Div0.div_le_upper_bound. nia. }
  assert (Hw : visibleData_voltage chartData (Num.ofZ (Z.of_nat lo)) 100
               = drop (n - Nat.max 1 (n * (100 - lo) / 100)) chartData).
  { rewrite visibleData_voltage_nonempty by exact Hne. fold n.
    change (100 =? 100)%float with true. rewrite Hlo0.
    destruct (Nat.eqb_spec lo 0) as [|_]; [lia|]. cbn [andb].
    unfold Num.sliceFrom. fold n. rewrite Hcount.
    unfold Num.relativeIndex.
    replace (Z.of_nat n * (100 - Z.of_nat lo) / 100)%Z
      with (Z.of_nat (n * (100 - lo) / 100)).
    2:{ rewrite Nat2Z.inj_div, Nat2Z.inj_mul, Nat2Z.inj_sub by lia. reflexivity. }
    destruct (Z.ltb_spec (- Z.max 1 (Z.of_nat (n * (100 - lo) / 100))) 0); [|lia].
    f_equal. lia. }
  rewrite Hw. split; [reflexivity|].
  assert (Hl : length (drop (n - Nat.max 1 (n * (100 - lo) / 100)) chartData)
               = Nat.max 1 (n * (100 - lo) / 100)).
  { rewrite length_drop. fold n. lia. }
  split; [exact Hl|]. intros Hnil. rewrite Hnil in Hl. cbn in Hl. lia.
Qed.

Lemma voltage_window_never_empty_witness :
  (length (replicate 7 {| cd_time := "t"; cd_timestamp := 0; cd_series := ∅ |}) <= 500)%nat /\
  visibleData_voltage (replicate 7 {| cd_time := "t"; cd_timestamp := 0; cd_series := ∅ |})
    (Num.ofZ (Z.of_nat 100)) 100 <> [].
Proof.
  assert (H : (length (replicate 7 {| cd_time := "t"; cd_timestamp := 0;
                                      cd_series := ∅ |}) <= 500)%nat)
    by (rewrite length_replicate; lia).
  split; [exact H|].
  apply (voltage_window_never_empty _ 100 H); [lia | discriminate].
Defined.

(** ** The read loop *)

Section Stream.

Variable ln : float -> float.
Variable pow : float -> float -> float.

Lemma updateSensorData_thermistors closureLog timestamp currentTimeStr line st :
  thermistors (fst (updateSensorData ln pow closureLog timestamp currentTimeStr line st))
  = telemetryStep ln pow closureLog line (thermistors st).
Proof.
  unfold updateSensorData, telemetryStep, setThermistors.
  destruct (String.eqb (Str.trim line) EmptyString
            || Str.startsWith "ets" (Str.trim line))%bool; [reflexivity|].
  destruct (mapM (updateThermistor ln pow closureLog (parseLine (Str.trim line)))
              (thermistors st)); reflexivity.
Qed.

Lemma lines_thermistors closureLog timestamp currentTimeStr lines st :
  thermistors
    (fold_left
       (fun st line =>
          fst (updateSensorData ln pow closureLog timestamp currentTimeStr line st))
       lines st)
  = fold_left (fun ts line => telemetryStep ln pow closureLog line ts)
      lines (thermistors st).
Proof.
  revert st. induction lines as [|line lines IH]; intros st; [reflexivity|].
  cbn [fold_left]. rewrite IH, updateSensorData_thermistors. reflexivity.
Qed.

Lemma readLoop_cons closureLog timestamp currentTimeStr value chunks buffer st :
  readLoop ln pow closureLog ((timestamp, currentTimeStr, value) :: chunks) (buffer, st)
  = readLoop ln pow closureLog chunks
      (onChunk ln pow closureLog timestamp currentTimeStr value buffer st).
Proof. reflexivity. Qed.

(** The read loop frames like [feedAll] and passes the lines, in order,
    to the channel store. *)
Lemma readLoop_lines closureLog chunks buffer st :
  fst (readLoop ln pow closureLog chunks (buffer, st))
  = snd (feedAll buffer (map chunkText chunks)) /\
  thermistors (snd (readLoop ln pow closureLog chunks (buffer, st)))
  = fold_left (fun ts line => telemetryStep ln pow closureLog line ts)
      (fst (feedAll buffer (map chunkText chunks))) (thermistors st).
Proof.
  revert buffer st.
  induction chunks as [|[[timestamp currentTimeStr] value] chunks IH];
    intros buffer st; [split; reflexivity|].
  rewrite readLoop_cons. cbn [map]. rewrite feedAll_cons.
  change (chunkText (timestamp, currentTimeStr, value)) with value.
  unfold onChunk. destruct (feed buffer value) as [lines buffer'].
  cbn [fst snd].
  destruct (IH buffer'
              (fold_left
                 (fun st line =>
                    fst (updateSensorData ln pow closureLog timestamp currentTimeStr
                           line st)) lines st)) as [Hb Ht].
  split; [exact Hb|]. rewrite Ht, lines_thermistors, fold_left_app. reflexivity.
Qed.

(** X16: what the read loop leaves in the channel store and in its buffer
    depends on the text received, not on how the transport cut it into
    chunks (nor on the clock): two sessions that carry the same text end
    with the same thermistors and the same pending tail. *)
Theorem read_loop_ignores_chunking closureLog
    (chunks1 chunks2 : list (Z * string * string)) buffer st :
  unterminated buffer ->
  joined (map chunkText chunks1) = joined (map chunkText chunks2) ->
  fst (readLoop ln pow closureLog chunks1 (buffer, st))
  = fst (readLoop ln pow closureLog chunks2 (buffer, st)) /\
  thermistors (snd (readLoop ln pow closureLog chunks1 (buffer, st)))
  = thermistors (snd (readLoop ln pow closureLog chunks2 (buffer, st))).
Proof.
  intros Hb Htext.
  destruct (readLoop_lines closureLog chunks1 buffer st) as [Hb1 Ht1].
  destruct (readLoop_lines closureLog chunks2 buffer st) as [Hb2 Ht2].
  rewrite Hb1, Hb2, Ht1, Ht2.
  rewrite !(feedAll_joined buffer _ Hb), Htext. split; reflexivity.
Qed.

Lemma capShift_bound {T} (l : list T) :
  (length l <= 501)%nat -> (length (capShift l) <= 500)%nat.
Proof.
  intros Hl. unfold capShift. destruct (Nat.ltb_spec 500 (length l)) as [Hgt|Hle].
  - destruct l; cbn in *; lia.
  - exact Hle.
Qed.

(** One line touches the thermistors and the chart only, and keeps the
    chart within its cap. *)
Lemma updateSensorData_keeps closureLog timestamp currentTimeStr line st :
  let st' := fst (updateSensorData ln pow closureLog timestamp currentTimeStr line st) in
  ((length (chartData st) <= 500)%nat -> (length (chartData st') <= 500)%nat) /\
  calibrationLog st' = calibrationLog st /\
  calibrationPoints st' = calibrationPoints st /\
  measuredTempInput st' = measuredTempInput st /\
  averagingInProgress st' = averagingInProgress st /\
  session st' = session st.
Proof.
  unfold updateSensorData, setThermistors.
  destruct (String.eqb (Str.trim line) EmptyString
            || Str.startsWith "ets" (Str.trim line))%bool;
    [cbn; repeat split; auto|].
  destruct (mapM (updateThermistor ln pow closureLog (parseLine (Str.trim line)))
              (thermistors st)) as [ts|e]; cbn; repeat split; auto.
  intros Hl. apply capShift_bound. rewrite length_app. cbn. lia.
Qed.

(** X17: the read loop never lets the chart grow beyond 500 points, and
    it writes nothing but the thermistors and the chart: the calibration
    log, the markers, the temperature input and a running averaging
    session are as they were, whatever arrives on the port. *)
Theorem read_loop_bounds_chart closureLog (chunks : list (Z * string * string))
    buffer st :
  (length (chartData st) <= 500)%nat ->
  let st' := snd (readLoop ln pow closureLog chunks (buffer, st)) in
  (length (chartData st') <= 500)%nat /\
  calibrationLog st' = calibrationLog st /\
  calibrationPoints st' = calibrationPoints st /\
  measuredTempInput st' = measuredTempInput st /\
  averagingInProgress st' = averagingInProgress st /\
  session st' = session st.
Proof.
  revert buffer st.
  induction chunks as [|[[timestamp currentTimeStr] value] chunks IH];
    intros buffer st Hlen; [cbn; repeat split; auto|].
  rewrite readLoop_cons. unfold onChunk.
  destruct (feed buffer value) as [lines buffer'].
  assert (Hlines : forall lines st,
             (length (chartData st) <= 500)%nat ->
             let st' := fold_left
                          (fun st line =>
                             fst (updateSensorData ln pow closureLog timestamp
                                    currentTimeStr line st)) lines st in
             (length (chartData st') <= 500)%nat /\
             calibrationLog st' = calibrationLog st /\
             calibrationPoints st' = calibrationPoints st /\
             measuredTempInput st' = measuredTempInput st /\
             averagingInProgress st' = averagingInProgress st /\
             session st' = session st).
  { clear. induction lines as [|line lines IHl]; intros st Hlen;
      [cbn; repeat split; auto|].
    cbn [fold_left]. cbv zeta.
    destruct (updateSensorData_keeps closureLog timestamp currentTimeStr line st)
      as (Hc & Hl & Hp & Hm & Ha & Hs).
    destruct (IHl _ (Hc Hlen)) as (Hc' & Hl' & Hp' & Hm' & Ha' & Hs').
    cbv zeta in *. rewrite Hl', Hp', Hm', Ha', Hs'. auto 10. }
  destruct (Hlines lines st Hlen) as (Hc & Hl & Hp & Hm & Ha & Hs).
  destruct (IH buffer' _ Hc) as (Hc' & Hl' & Hp' & Hm' & Ha' & Hs').
  cbv zeta in *. rewrite Hl', Hp', Hm', Ha', Hs'. auto 10.
Qed.

End Stream.

Lemma read_loop_ignores_chunking_witness :
  thermistors
    (snd (readLoop Approx.log Approx.pow []
            [(0%Z, "t", "29:1"); (1%Z, "u", String newline "30:2")] (EmptyString, initialState)))
  = thermistors
      (snd (readLoop Approx.log Approx.pow []
              [(5%Z, "v", "29:1" +:+ String newline "30:2")] (EmptyString, initialState))).
Proof.
  apply (read_loop_ignores_chunking Approx.log Approx.pow []
           [(0%Z, "t", "29:1"); (1%Z, "u", String newline "30:2")]
           [(5%Z, "v", "29:1" +:+ String newline "30:2")] EmptyString initialState).
  - exact I.
  - reflexivity.
Defined.

Lemma read_loop_bounds_chart_witness :
  (length (chartData
             (snd (readLoop Approx.log Approx.pow []
                     [(0%Z, "t", "29:1000" +:+ String newline "")]
                     (EmptyString, initialState)))) <= 500)%nat.
Proof.
  apply (read_loop_bounds_chart Approx.log Approx.pow []
           [(0%Z, "t", "29:1000" +:+ String newline "")] EmptyString initialState).
  cbn. lia.
Defined.

(** ** Closing the port *)

(** X18: [closeSerialPort] always forgets the reader, and ends in the same
    state whether or not [cancel] and [close] reject. The port is closed,
    forgotten and the page marked disconnected exactly when a port is held
    and readable; a port that is held but not readable is kept, and the
    page keeps showing what it showed. The reader is never cancelled after
    the port was closed, and a second call does nothing. *)
Theorem close_port_tolerant_and_idempotent
    (cancelFails closeFails readable : bool) (r : Serial.Refs) :
  let '(r', actions) := Serial.closeSerialPort cancelFails closeFails readable r in
  Serial.readerRef r' = false /\
  r' = fst (Serial.closeSerialPort false false readable r) /\
  Serial.portRef r' = (Serial.portRef r && negb readable)%bool /\
  Serial.serialConnected r' =
    (Serial.serialConnected r && negb (Serial.portRef r && readable))%bool /\
  (In Serial.ClosePort actions <-> Serial.portRef r = true /\ readable = true) /\
  (In Serial.CancelReader actions <-> Serial.readerRef r = true) /\
  (forall i j, actions !! i = Some Serial.ClosePort ->
               actions !! j = Some Serial.CancelReader -> (j < i)%nat) /\
  Serial.closeSerialPort cancelFails closeFails readable r' = (r', []).
Proof.
  destruct r as [[|] [|] connected], cancelFails, closeFails, readable, connected;
    cbn; (repeat split); try reflexivity;
    try (intuition (try discriminate; try congruence); fail);
    intros i j Hi Hj;
    do 5 (try (destruct i as [|i])); cbn in Hi; try discriminate Hi;
    do 5 (try (destruct j as [|j])); cbn in Hj; try discriminate Hj; lia.
Qed.

Example close_port_unreadable :
  Serial.closeSerialPort false false false
    {| Serial.readerRef := true; Serial.portRef := true; Serial.serialConnected := true |}
  = ({| Serial.readerRef := false; Serial.portRef := true; Serial.serialConnected := true |},
     [Serial.CancelReader]).
Proof. reflexivity. Qed.

(** ** Stored coefficients *)

Lemma default_covers ch :
  ch ∈ [29; 30; 31; 32]%Z -> computeDefaultCoeffs !! ch = Some defaultCoeffs.
Proof.
  intros Hch. repeat (apply elem_of_cons in Hch as [->|Hch]; [reflexivity|]).
  inversion Hch.
Qed.

Lemma settledCoeffs_cases r data :
  settledCoeffs r = Some data ->
  (forall ch, ch ∈ [29; 30; 31; 32]%Z -> is_Some (data !! ch)) /\
  (data = computeDefaultCoeffs \/ r = Json (Some data)).
Proof.
  assert (Hdef : forall ch, ch ∈ [29; 30; 31; 32]%Z ->
                            is_Some (computeDefaultCoeffs !! ch))
    by (intros ch Hch; rewrite (default_covers ch Hch); eauto).
  unfold settledCoeffs. destruct r as [| | |[served|]]; try discriminate;
    try (intros [= <-]; split; [exact Hdef | now left]).
  destruct (bool_decide (is_Some (served !! 29%Z))) eqn:H29; cbn [andb];
    [|intros [= <-]; split; [exact Hdef | now left]].
  destruct (bool_decide (is_Some (served !! 30%Z))) eqn:H30; cbn [andb];
    [|intros [= <-]; split; [exact Hdef | now left]].
  destruct (bool_decide (is_Some (served !! 31%Z))) eqn:H31; cbn [andb];
    [|intros [= <-]; split; [exact Hdef | now left]].
  destruct (bool_decide (is_Some (served !! 32%Z))) eqn:H32;
    [|intros [= <-]; split; [exact Hdef | now left]].
  intros [= <-]. split; [|now right].
  apply bool_decide_eq_true in H29, H30, H31, H32.
  intros ch Hch. repeat (apply elem_of_cons in Hch as [->|Hch]; [assumption|]).
  inversion Hch.
Qed.

Section Stored.

Variable ln : float -> float.
Variable pow : float -> float -> float.


(** X20: once fetched coefficients are in place, every thermistor keeps
    its identity and its resistance; an inactive one keeps its
    temperature too, and an active one on channels 29..32 shows the
    conversion of the resistance it holds under the coefficients now
    stored for its channel, which are always there. *)
Theorem fetched_coefficients_refit_held_resistance
    (r : CoeffsResponse) (st : StoredPage) :
  r <> FetchRejected -> r <> JsonRejected ->
  let st' := fetchCalibrationCoeffs ln pow r st in
  Forall2
    (fun t t' =>
       sameIdentity t t' /\
       ThermistorData.resistance t' = ThermistorData.resistance t /\
       (ThermistorData.active t = false -> t' = t) /\
       (ThermistorData.active t = true ->
        (ThermistorData.id t + 28)%Z ∈ [29; 30; 31; 32]%Z ->
        exists coeff,
          sp_calibrationCoeffs st' !! (ThermistorData.id t + 28)%Z = Some coeff /\
          ThermistorData.temperature t' =
            tempC ln pow (ThermistorData.resistance t) (Some coeff)))
    (sp_thermistors st) (sp_thermistors st').
Proof.
  intros Hf Hj. cbv zeta. unfold fetchCalibrationCoeffs.
  destruct (settledCoeffs r) as [data|] eqn:Hs.
  2:{ destruct r as [| | |[served|]]; try congruence; cbn in Hs; try discriminate.
      destruct (_ && _)%bool in Hs; discriminate. }
  destruct (settledCoeffs_cases r data Hs) as [Hall _].
  cbn [sp_thermistors sp_calibrationCoeffs].
  induction (sp_thermistors st) as [|t ts IH]; [constructor|].
  cbn [map]. constructor; [|exact IH].
  destruct (ThermistorData.active t) eqn:Hact; cbn [negb].
  - unfold sameIdentity. cbn. repeat split; auto; try discriminate.
    intros _ Hch. destruct (Hall _ Hch) as [coeff Hc].
    exists coeff. rewrite Hc. split; reflexivity.
  - unfold sameIdentity. repeat split; auto. intros H. congruence.
Qed.

End Stored.

Lemma fetched_coefficients_refit_held_resistance_witness :
  Forall2
    (fun t t' =>
       sameIdentity t t' /\
       ThermistorData.resistance t' = ThermistorData.resistance t /\
       (ThermistorData.active t = false -> t' = t) /\
       (ThermistorData.active t = true ->
        (ThermistorData.id t + 28)%Z ∈ [29; 30; 31; 32]%Z ->
        exists coeff,
          sp_calibrationCoeffs
            (fetchCalibrationCoeffs Approx.log Approx.pow NotOk
               {| sp_thermistors := initialThermistors; sp_calibrationCoeffs := ∅ |})
            !! (ThermistorData.id t + 28)%Z = Some coeff /\
          ThermistorData.temperature t' =
            tempC Approx.log Approx.pow (ThermistorData.resistance t) (Some coeff)))
    initialThermistors
    (sp_thermistors
       (fetchCalibrationCoeffs Approx.log Approx.pow NotOk
          {| sp_thermistors := initialThermistors; sp_calibrationCoeffs := ∅ |})).
Proof.
  apply (fetched_coefficients_refit_held_resistance Approx.log Approx.pow NotOk
           {| sp_thermistors := initialThermistors; sp_calibrationCoeffs := ∅ |});
    discriminate.
Defined.

Example fetched_coefficients_partial_answer :
  sp_calibrationCoeffs
    (fetchCalibrationCoeffs Approx.log Approx.pow
       (Json (Some {[ 29%Z := {| A := 1; B := 2; C := 3; D := 4 |} ]}))
       {| sp_thermistors := []; sp_calibrationCoeffs := ∅ |})
  = computeDefaultCoeffs.
Proof. reflexivity. Qed.

(** ** Session storage *)

(** X21: neither logout touches the access token, and [PrivateRoute] looks
    at nothing else: after a login that stored a token, either logout
    leaves the private pages reachable, while the name shown falls back to
    Admin. *)
Theorem logout_keeps_private_pages_open (s : Session.Storage) (data : Session.LoginData) :
  Session.PrivateRoute (Session.logoutPage s) = Session.PrivateRoute s /\
  Session.PrivateRoute (Session.logoutIndex s) = Session.PrivateRoute s /\
  Session.shownUsername (Session.logoutPage s) = "Admin" /\
  Session.shownUsername (Session.logoutIndex s) = "Admin" /\
  (Session.access_token data <> EmptyString ->
   Session.PrivateRoute (Session.logoutPage (Session.handleLogin (Some data) s))
   = Session.Outlet /\
   Session.PrivateRoute (Session.logoutIndex (Session.handleLogin (Some data) s))
   = Session.Outlet).
Proof.
  assert (Hp : forall s, Session.PrivateRoute (Session.logoutPage s) = Session.PrivateRoute s).
  { intros s0. unfold Session.PrivateRoute, Session.logoutPage.
    now rewrite !lookup_delete_ne by discriminate. }
  assert (Hi : forall s, Session.PrivateRoute (Session.logoutIndex s) = Session.PrivateRoute s).
  { intros s0. unfold Session.PrivateRoute, Session.logoutIndex.
    now rewrite !lookup_delete_ne by discriminate. }
  split; [apply Hp|]. split; [apply Hi|]. split; [|split].
  - unfold Session.shownUsername, Session.logoutPage. now rewrite lookup_delete_eq.
  - unfold Session.shownUsername, Session.logoutIndex.
    rewrite lookup_delete_ne by discriminate. now rewrite lookup_delete_eq.
  - intros Htoken. rewrite Hp, Hi.
    assert (Hl : Session.PrivateRoute (Session.handleLogin (Some data) s) = Session.Outlet).
    { unfold Session.PrivateRoute, Session.handleLogin.
      rewrite !lookup_insert_ne by discriminate. rewrite lookup_insert_eq.
      destruct (Session.access_token data); [congruence | reflexivity]. }
    now rewrite Hl.
Qed.

Example logout_after_login :
  Session.PrivateRoute
    (Session.logoutIndex
       (Session.handleLogin
          (Some {| Session.access_token := "abc"; Session.username := "ann";
                   Session.permission := "1"; Session.user_id := "7" |}) ∅))
  = Session.Outlet.
Proof. vm_compute. reflexivity. Qed.

(** ** The dashboard *)

(** X22: a confirmed deletion that the server accepts removes the entry
    from the list of the render in which the button was drawn. Hence two
    deletions started from the same render do not add up: when the second
    settles, the entry removed by the first is back in the list. Started
    one after the other, each from the list the previous one left, they do
    add up. *)
Theorem overlapping_deletions_restore_the_first
    (calibrations : list Index.Calibration) (cal : Index.Calibration) (other : string) :
  cal ∈ calibrations -> Index.id cal <> other ->
  let afterFirst :=
    Index.handleDelete calibrations (Index.id cal) true true calibrations in
  (cal ∉ afterFirst) /\
  cal ∈ Index.handleDelete calibrations other true true afterFirst /\
  (cal ∉ Index.handleDelete afterFirst other true true afterFirst).
Proof.
  intros Hin Hne. cbv zeta. unfold Index.handleDelete. cbn [andb].
  rewrite !list_elem_of_filter. intuition.
Qed.

Lemma overlapping_deletions_restore_the_first_witness :
  {| Index.id := "a"; Index.name := "first"; Index.createdAt := "t"; Index.user := "u" |}
  ∈ Index.handleDelete
      [{| Index.id := "a"; Index.name := "first"; Index.createdAt := "t"; Index.user := "u" |};
       {| Index.id := "b"; Index.name := "second"; Index.createdAt := "t"; Index.user := "u" |}]
      "b" true true
      (Index.handleDelete
         [{| Index.id := "a"; Index.name := "first"; Index.createdAt := "t"; Index.user := "u" |};
          {| Index.id := "b"; Index.name := "second"; Index.createdAt := "t"; Index.user := "u" |}]
         "a" true true
         [{| Index.id := "a"; Index.name := "first"; Index.createdAt := "t"; Index.user := "u" |};
          {| Index.id := "b"; Index.name := "second"; Index.createdAt := "t"; Index.user := "u" |}]).
Proof.
  apply (overlapping_deletions_restore_the_first
           [{| Index.id := "a"; Index.name := "first"; Index.createdAt := "t"; Index.user := "u" |};
            {| Index.id := "b"; Index.name := "second"; Index.createdAt := "t"; Index.user := "u" |}]
           {| Index.id := "a"; Index.name := "first"; Index.createdAt := "t"; Index.user := "u" |}
           "b").
  - apply list_elem_of_here.
  - discriminate.
Defined.

(** X23: a calibration whose name is white space only is never created:
    the list stays as it is, whatever the server would have answered. A
    creation that goes through puts the new entry after the entries of the
    render in which the form was drawn, so that of two creations started
    from the same render only the second is listed in the end. *)
Theorem creation_needs_a_name_and_overwrites
    (calibrations current : list Index.Calibration) (blank name1 name2 : string)
    (project : option Index.Calibration) (first second : Index.Calibration) :
  allWhiteSpace blank ->
  Str.trim name1 <> EmptyString -> Str.trim name2 <> EmptyString ->
  Index.handleCreateNew calibrations blank project current = current /\
  Index.handleCreateNew calibrations name2 (Some second)
    (Index.handleCreateNew calibrations name1 (Some first) calibrations)
  = calibrations ++ [second] /\
  Index.handleCreateNew (calibrations ++ [first]) name2 (Some second)
    (Index.handleCreateNew calibrations name1 (Some first) calibrations)
  = calibrations ++ [first; second].
Proof.
  intros Hblank H1 H2. unfold Index.handleCreateNew. split; [|split].
  - unfold Str.trim. now rewrite (trimStart_blank _ Hblank).
  - destruct (Str.trim name2); [congruence | reflexivity].
  - destruct (Str.trim name2); [congruence|]. now rewrite <- app_assoc.
Qed.

Lemma creation_needs_a_name_and_overwrites_witness :
  Index.handleCreateNew [] "  " None [] = [] /\
  Index.handleCreateNew [] "two" 
    (Some {| Index.id := "b"; Index.name := "two"; Index.createdAt := "t"; Index.user := "u" |})
    (Index.handleCreateNew [] "one"
       (Some {| Index.id := "a"; Index.name := "one"; Index.createdAt := "t"; Index.user := "u" |})
       [])
  = [] ++ [{| Index.id := "b"; Index.name := "two"; Index.createdAt := "t"; Index.user := "u" |}] /\
  Index.handleCreateNew
    ([] ++ [{| Index.id := "a"; Index.name := "one"; Index.createdAt := "t"; Index.user := "u" |}])
    "two"
    (Some {| Index.id := "b"; Index.name := "two"; Index.createdAt := "t"; Index.user := "u" |})
    (Index.handleCreateNew [] "one"
       (Some {| Index.id := "a"; Index.name := "one"; Index.createdAt := "t"; Index.user := "u" |})
       [])
  = [] ++ [{| Index.id := "a"; Index.name := "one"; Index.createdAt := "t"; Index.user := "u" |};
           {| Index.id := "b"; Index.name := "two"; Index.createdAt := "t"; Index.user := "u" |}].
Proof.
  apply (creation_needs_a_name_and_overwrites [] [] "  " "one" "two" None).
  - cbn. auto.
  - discriminate.
  - discriminate.
Defined.

(** ** Pacing of the device simulator *)

(** X24: the pacing test of the sketch is right across the wrap-around of
    its 32-bit millisecond clock: with [now] and [previous] the true times
    of the current pass and of the last line sent, less than [2 ^ 32] ms
    apart, the test on the wrapped clocks says whether 500 ms have
    elapsed. *)
Theorem pacing_survives_clock_wraparound (now previous : Z) :
  (0 <= now - previous < 2 ^ 32)%Z ->
  Sketch.due (Sketch.wrap now) (Sketch.wrap previous) = (500 <=? now - previous)%Z.
Proof.
  intros Hd. unfold Sketch.due, Sketch.wrap, Sketch.interval.
  rewrite <- Zminus_mod, Z.mod_small by exact Hd. reflexivity.
Qed.

Lemma pacing_survives_clock_wraparound_witness :
  Sketch.due (Sketch.wrap (2 ^ 32 + 100)) (Sketch.wrap (2 ^ 32 - 450)) = true.
Proof.
  apply (pacing_survives_clock_wraparound (2 ^ 32 + 100) (2 ^ 32 - 450)). lia.
Defined.

(** ** The exported file *)

Lemma unterminated_app s t : unterminated s -> unterminated t -> unterminated (s +:+ t).
Proof.
  induction s as [|ch s IH]; [auto|]. intros [Hc Hs] Ht.
  rewrite append_cons. split; [exact Hc | exact (IH Hs Ht)].
Qed.

Lemma unterminated_join sep fields :
  unterminated sep -> Forall unterminated fields -> unterminated (Num.join sep fields).
Proof.
  intros Hsep Hf. induction Hf as [|f fields Hf Hfs IH]; [exact I|].
  destruct fields as [|g fields]; [exact Hf|].
  change (Num.join sep (f :: g :: fields))
    with (f +:+ sep +:+ Num.join sep (g :: fields)).
  auto using unterminated_app.
Qed.

Lemma unterminated_digitsOf fuel z acc :
  unterminated acc -> unterminated (Num.digitsOf fuel z acc).
Proof.
  revert z acc. induction fuel as [|fuel IH]; intros z acc Hacc; [exact Hacc|].
  cbn [Num.digitsOf].
  assert (Hd : unterminated
                 (String (ascii_of_nat (48 + Z.to_nat (z mod 10))) acc)).
  { split; [|exact Hacc].
    assert (Hm : (0 <= z mod 10 < 10)%Z) by (apply Z.mod_pos_bound; lia).
    assert (Hk : (Z.to_nat (z mod 10) < 10)%nat) by lia.
    revert Hk. generalize (Z.to_nat (z mod 10)) as k. intros k Hk.
    do 10 (destruct k as [|k]; [discriminate|]). lia. }
  destruct (z / 10 =? 0)%Z; [exact Hd | exact (IH _ _ Hd)].
Qed.

Lemma unterminated_intToString z : unterminated (Num.intToString z).
Proof.
  unfold Num.intToString. destruct (z <? 0)%Z.
  - split; [discriminate|]. now apply unterminated_digitsOf.
  - now apply unterminated_digitsOf.
Qed.

Lemma split_line l s :
  unterminated l ->
  Str.split newline (l +:+ String newline s) = l :: Str.split newline s.
Proof.
  induction l as [|ch l IH]; intros Hl.
  - rewrite append_nil, split_cons. reflexivity.
  - destruct Hl as [Hc Hl]. rewrite append_cons, split_cons, (IH Hl).
    destruct (Ascii.eqb_spec ch newline); [contradiction | reflexivity].
Qed.

Lemma split_join_lines lines :
  Forall unterminated lines -> lines <> [] ->
  Str.split newline (Num.join (String newline EmptyString) lines) = lines.
Proof.
  intros Hl. induction Hl as [|l lines Hl Hls IH]; [congruence|]. intros _.
  destruct lines as [|l' lines]; [exact (split_unterminated l Hl)|].
  change (Num.join (String newline EmptyString) (l :: l' :: lines))
    with (l +:+ String newline EmptyString
            +:+ Num.join (String newline EmptyString) (l' :: lines)).
  rewrite append_cons, append_nil, (split_line _ _ Hl), IH by discriminate.
  reflexivity.
Qed.

Section Exported.

Variable numberToString : float -> string.
Variable toFixed2 : float -> string.

(** X26: nothing is exported for an empty log. Otherwise, as long as no
    time stamp and no rendered number contains a line break, the file
    read back line by line is the header line followed by one line per
    log entry, in the order of the log. *)
Theorem export_has_one_line_per_entry (calibrationLog : list CalibrationLogEntry) :
  (forall x, unterminated (numberToString x)) ->
  (forall x, unterminated (toFixed2 x)) ->
  Forall (fun log => unterminated (time log)) calibrationLog ->
  match Csv.exportCalibrationLog numberToString toFixed2 calibrationLog with
  | None => calibrationLog = []
  | Some csv =>
      calibrationLog <> [] /\
      Str.split newline csv
      = Num.join "," Csv.headers
          :: map (Csv.row numberToString toFixed2) calibrationLog
  end.
Proof.
  intros Hnum Hfix Htimes.
  destruct calibrationLog as [|log logs]; [reflexivity|].
  cbn [Csv.exportCalibrationLog]. split; [discriminate|].
  generalize dependent (log :: logs). intros entries Htimes.
  apply split_join_lines; [|discriminate]. constructor.
  - cbn. repeat split; discriminate.
  - apply Forall_fmap. eapply Forall_impl; [exact Htimes|].
    intros e He. apply unterminated_join; [cbn; split; [discriminate | exact I]|].
    unfold Csv.cell.
    repeat constructor; auto using unterminated_intToString;
      destruct (Csv.truthy _); try exact I; apply Hfix.
Qed.

(** X27: a thermistor that is switched off when an instant capture is
    taken, or whose reading is unavailable then, gets an empty cell in
    the exported row (not [0.00], not [NaN]), whatever [toFixed] does. *)
Theorem export_blank_cell_when_off_or_unavailable
    (st : PageState) (isoTime : string) (measured : float)
    (entry : CalibrationLogEntry) (k : nat) (t : Thermistor) :
  instantEntry st isoTime measured = Ok entry ->
  (k < 4)%nat -> thermistors st !! k = Some t ->
  ThermistorData.active t = false \/ isNaN (ThermistorData.resistance t) = true ->
  Csv.cell toFixed2 (channelResistance (29 + Z.of_nat k) entry) = EmptyString.
Proof.
  intros He Hk Ht Hoff. unfold instantEntry in He.
  destruct (thermistors st) as [|t0 [|t1 [|t2 [|t3 ts]]]]; try discriminate.
  cbn in He. injection He as <-.
  assert (Hcell : forall t, ThermistorData.active t = false \/
                            isNaN (ThermistorData.resistance t) = true ->
            Csv.cell toFixed2
              (if ThermistorData.active t then ThermistorData.resistance t else 0%float)
            = EmptyString).
  { intros t' [Hoff'|Hnan]; unfold Csv.cell, Csv.truthy.
    - rewrite Hoff'. reflexivity.
    - destruct (ThermistorData.active t'); [now rewrite Hnan | reflexivity]. }
  destruct k as [|[|[|[|k]]]]; try lia; cbn in Ht; injection Ht as ->;
    cbn; apply Hcell, Hoff.
Qed.

End Exported.

Lemma export_has_one_line_per_entry_witness :
  match Csv.exportCalibrationLog (fun _ => "25") (fun _ => "1000.00") negativeLog with
  | None => negativeLog = []
  | Some csv =>
      negativeLog <> [] /\
      Str.split newline csv
      = Num.join "," Csv.headers
          :: map (Csv.row (fun _ => "25") (fun _ => "1000.00")) negativeLog
  end.
Proof.
  apply (export_has_one_line_per_entry (fun _ => "25") (fun _ => "1000.00") negativeLog).
  - intros _. cbn. repeat split; discriminate.
  - intros _. cbn. repeat split; discriminate.
  - unfold negativeLog. apply Forall_fmap, Forall_forall. intros z _.
    cbn. repeat split; discriminate.
Defined.

Lemma export_blank_cell_when_off_or_unavailable_witness :
  Csv.cell (fun _ => "1000.00")
    (channelResistance (29 + Z.of_nat 0)
       {| calibrationNumber := 1; time := "t"; measuredTemperature := 25;
          measuredResistanceT1 := 0; measuredResistanceT2 := 0;
          measuredResistanceT3 := 0; measuredResistanceT4 := 0 |})
  = EmptyString.
Proof.
  apply (export_blank_cell_when_off_or_unavailable (fun _ => "1000.00")
           (with_thermistors (fst (handleThermistorToggle 1 initialThermistors))
              initialState)
           "t" 25 _ 0 (ThermistorData.mk 1 "Thermistor 1" 0 0 "#FF5733" false)).
  - reflexivity.
  - lia.
  - reflexivity.
  - left. reflexivity.
Defined.

(** ** The solver on the store computes what the solver on values computes *)

Module HeapRefinement.

Import Repr.

Lemma run_bind {T U} (m : Heap.M T) (k : T -> Heap.M U) h a h' :
  m h = (Ok a, h') -> Heap.bind m k h = k a h'.
Proof. intros H. unfold Heap.bind. now rewrite H. Qed.

Lemma run_bind_throw {T U} (m : Heap.M T) (k : T -> Heap.M U) h e h' :
  m h = (Throw e, h') -> Heap.bind m k h = (Throw e, h').
Proof. intros H. unfold Heap.bind. now rewrite H. Qed.

Lemma run_getIndex h l arr i :
  h !! l = Some arr -> Heap.getIndex (Heap.Ref l) i h = (Ok (nth i arr Heap.Undefined), h).
Proof. intros H. cbn. unfold Heap.bind, Heap.readArray. now rewrite H. Qed.

Lemma run_setIndex h l arr i x :
  h !! l = Some arr -> (i < length arr)%nat ->
  Heap.setIndex (Heap.Ref l) i x h = (Ok tt, <[l := <[i := x]> arr]> h).
Proof.
  intros H Hi. cbn. unfold Heap.bind, Heap.readArray, Heap.writeArray. rewrite H.
  unfold set_index. destruct (Nat.ltb_spec i (length arr)); [reflexivity | lia].
Qed.

Lemma nth_Num xs i : (i < length xs)%nat ->
  nth i (map Heap.Num xs) Heap.Undefined = Heap.Num (nth i xs NaN).
Proof.
  revert i. induction xs as [|x xs IH]; intros [|i] Hi; cbn in *; try lia; auto.
  apply IH. lia.
Qed.

Lemma nth_Ref locs i : (i < length locs)%nat ->
  nth i (map Heap.Ref locs) Heap.Undefined = Heap.Ref (nth i locs 0%nat).
Proof.
  revert i. induction locs as [|x xs IH]; intros [|i] Hi; cbn in *; try lia; auto.
  apply IH. lia.
Qed.

Lemma run_swap h l (arr : list Heap.value) i m :
  h !! l = Some arr -> (i < length arr)%nat -> (m < length arr)%nat ->
  Heap.swap (Heap.Ref l) i m h = (Ok tt, <[l := swap arr i m]> h).
Proof.
  intros H Hi Hm. unfold Heap.swap.
  rewrite (run_bind _ _ _ _ _ (run_getIndex h l _ m H)).
  rewrite (run_bind _ _ _ _ _ (run_getIndex h l _ i H)).
  rewrite (run_bind _ _ _ _ _ (run_setIndex h l arr i _ H Hi)).
  assert (Hl : (l < length h)%nat) by (apply lookup_lt_is_Some; eauto).
  rewrite (run_setIndex _ l (<[i := nth m arr Heap.Undefined]> arr) m).
  - rewrite list_insert_insert_eq. unfold swap.
    destruct (lookup_lt_is_Some_2 arr i Hi) as [x Hx].
    destruct (lookup_lt_is_Some_2 arr m Hm) as [y Hy].
    rewrite Hx, Hy.
    now rewrite (nth_lookup_Some _ _ _ _ Hx), (nth_lookup_Some _ _ _ _ Hy).
  - now rewrite list_lookup_insert_eq.
  - now rewrite length_insert.
Qed.

Lemma swap_fmap {T U} (f : T -> U) (l : list T) i m :
  swap (map f l) i m = map f (swap l i m).
Proof.
  unfold swap. change (map f l) with (f <$> l). rewrite !list_lookup_fmap.
  destruct (l !! i), (l !! m); cbn; try reflexivity.
  now rewrite !list_fmap_insert.
Qed.

(** The transposition of [i] and [m]. *)
Lemma swap_elem_of {T} (l : list T) i m x :
  (i < length l)%nat -> (m < length l)%nat -> x ∈ swap l i m <-> x ∈ l.
Proof.
  intros Hi Hm. rewrite !list_elem_of_lookup. split; intros [k Hk].
  - rewrite swap_lookup in Hk by assumption. eauto.
  - exists (if Nat.eq_dec k m then i else if Nat.eq_dec k i then m else k).
    rewrite swap_lookup by assumption.
    destruct (Nat.eq_dec k m) as [->|Hkm].
    + destruct (Nat.eq_dec i m) as [->|Him]; [exact Hk|].
      destruct (Nat.eq_dec i i); [exact Hk | congruence].
    + destruct (Nat.eq_dec k i) as [->|Hki].
      * destruct (Nat.eq_dec m m); [exact Hk | congruence].
      * destruct (Nat.eq_dec k m); [congruence|].
        destruct (Nat.eq_dec k i); [congruence | exact Hk].
Qed.

Lemma swap_NoDup {T} (l : list T) i m :
  (i < length l)%nat -> (m < length l)%nat -> NoDup l -> NoDup (swap l i m).
Proof.
  intros Hi Hm Hnd. apply NoDup_alt. intros j k x Hj Hk.
  rewrite swap_lookup in Hj, Hk by assumption.
  pose proof (proj1 (NoDup_alt l) Hnd _ _ _ Hj Hk) as Heq.
  destruct (Nat.eq_dec j m), (Nat.eq_dec j i), (Nat.eq_dec k m), (Nat.eq_dec k i);
    congruence.
Qed.

Lemma swap_Forall {T} (P : T -> Prop) (l : list T) i m :
  Forall P l -> Forall P (swap l i m).
Proof.
  intros Hl. unfold swap.
  destruct (l !! i) as [x|] eqn:Hx; [|exact Hl].
  destruct (l !! m) as [y|] eqn:Hy; [|exact Hl].
  apply Forall_insert; [apply Forall_insert; [exact Hl|] |].
  - eapply Forall_lookup_1; eauto.
  - eapply Forall_lookup_1; eauto.
Qed.

Lemma swap_Forall2 {T U} (P : T -> U -> Prop) (l : list T) (k : list U) i m :
  Forall2 P l k -> Forall2 P (swap l i m) (swap k i m).
Proof.
  intros Hlk. unfold swap.
  destruct (l !! i) as [x|] eqn:Hx.
  - destruct (Forall2_lookup_l _ _ _ _ _ Hlk Hx) as (x' & Hx' & Hxx). rewrite Hx'.
    destruct (l !! m) as [y|] eqn:Hy.
    + destruct (Forall2_lookup_l _ _ _ _ _ Hlk Hy) as (y' & Hy' & Hyy). rewrite Hy'.
      apply Forall2_insert; [apply Forall2_insert|]; assumption.
    + pose proof (Forall2_length _ _ _ Hlk) as Hlen.
      apply lookup_ge_None in Hy. rewrite (proj2 (lookup_ge_None k m)) by lia.
      exact Hlk.
  - pose proof (Forall2_length _ _ _ Hlk) as Hlen.
    apply lookup_ge_None in Hx. rewrite (proj2 (lookup_ge_None k i)) by lia.
    exact Hlk.
Qed.

Lemma run_get1_at h l (x : vector) j :
  h !! l = Some (map Heap.Num x) -> (j < length x)%nat ->
  Heap.get1 (Heap.Ref l) j h = (Ok (vget x j), h).
Proof.
  intros Hl Hj. unfold Heap.get1.
  rewrite (run_bind _ _ _ _ _ (run_getIndex h l _ j Hl)).
  rewrite nth_Num by exact Hj. reflexivity.
Qed.

Section Working.

Variables a c : Heap.loc.

(** The row of [A] at index [k]. *)
Lemma working_row h rows b k :
  working h a c rows b -> (k < 4)%nat ->
  exists locs l row,
    h !! a = Some (map Heap.Ref locs) /\ length locs = 4%nat /\
    locs !! k = Some l /\ rows !! k = Some row /\ length row = 4%nat /\
    h !! l = Some (map Heap.Num row) /\ l <> a /\ l <> c.
Proof.
  intros [(Hlen & Hrows & Hb) (locs & Ha & Hnd & Hcells & Hc)] Hk.
  pose proof (Forall2_length _ _ _ Hcells) as Hll.
  destruct (lookup_lt_is_Some_2 locs k ltac:(lia)) as [l Hl].
  destruct (lookup_lt_is_Some_2 rows k ltac:(lia)) as [row Hrow].
  exists locs, l, row. repeat split; auto; try lia.
  - rewrite Forall_forall in Hrows. apply Hrows.
    eapply list_elem_of_lookup_2; eauto.
  - eapply Forall2_lookup_lr in Hcells; eauto.
  - intros ->. apply NoDup_cons in Hnd as [Hna _]. apply Hna.
    right. eapply list_elem_of_lookup_2; eauto.
  - intros ->. apply NoDup_cons in Hnd as [_ Hnd].
    apply NoDup_cons in Hnd as [Hnc _]. apply Hnc.
    eapply list_elem_of_lookup_2; eauto.
Qed.

Lemma run_get2 h rows b k i :
  working h a c rows b -> (k < 4)%nat -> (i < 4)%nat ->
  Heap.get2 (Heap.Ref a) k i h = (Ok (mget rows k i), h).
Proof.
  intros Hw Hk Hi.
  destruct (working_row h rows b k Hw Hk)
    as (locs & l & row & Ha & Hll & Hl & Hrow & Hlr & Hcell & _).
  unfold Heap.get2.
  rewrite (run_bind _ _ _ _ _ (run_getIndex h a _ k Ha)).
  rewrite nth_Ref by lia. rewrite (nth_lookup_Some _ _ _ _ Hl).
  rewrite (run_bind _ _ _ _ _ (run_getIndex h l _ i Hcell)).
  rewrite nth_Num by lia. cbn. unfold mget.
  now rewrite (nth_lookup_Some _ _ _ _ Hrow).
Qed.

Lemma run_get1 h rows b k :
  working h a c rows b -> (k < 4)%nat ->
  Heap.get1 (Heap.Ref c) k h = (Ok (vget b k), h).
Proof.
  intros [(Hlen & Hrows & Hb) (locs & Ha & Hnd & Hcells & Hc)] Hk.
  unfold Heap.get1. rewrite (run_bind _ _ _ _ _ (run_getIndex h c _ k Hc)).
  rewrite nth_Num by lia. reflexivity.
Qed.

Lemma run_search h rows b i ks m :
  working h a c rows b -> (i < 4)%nat -> (m < 4)%nat ->
  Forall (fun k => (k < 4)%nat) ks ->
  Heap.forEach ks
    (fun k maxRow =>
       Heap.bind (Heap.get2 (Heap.Ref a) k i)
         (fun aki =>
            Heap.bind (Heap.get2 (Heap.Ref a) maxRow i)
              (fun ami =>
                 Heap.ret (if gt (abs aki) (abs ami) then k else maxRow))))
    m h
  = (Ok (fold_left
           (fun maxRow k =>
              if gt (abs (mget rows k i)) (abs (mget rows maxRow i)) then k
              else maxRow) ks m), h).
Proof.
  intros Hw Hi Hm Hks. revert m Hm.
  induction Hks as [|k ks Hk Hks IH]; intros m Hm; [reflexivity|].
  cbn [Heap.forEach fold_left].
  erewrite run_bind.
  2:{ erewrite run_bind by (apply (run_get2 h rows b k i Hw Hk Hi)).
      erewrite run_bind by (apply (run_get2 h rows b m i Hw Hm Hi)).
      reflexivity. }
  apply IH. destruct (gt _ _); assumption.
Qed.

Lemma below_bound i :
  Forall (fun k => (k < 4)%nat) (seq (i + 1) (n - (i + 1))).
Proof.
  apply Forall_forall. intros k Hk. apply elem_of_seq in Hk. unfold n in Hk. lia.
Qed.

Lemma run_findMaxRow h rows b i :
  working h a c rows b -> (i < 4)%nat ->
  Heap.findMaxRow (Heap.Ref a) i h = (Ok (findMaxRow rows i), h).
Proof.
  intros Hw Hi. apply (run_search h rows b i _ i Hw Hi Hi (below_bound i)).
Qed.

(** Writing an array of the store that is none of the rows' arrays. *)
Lemma cells_frame (h : Heap.heap) l arr (locs : list Heap.loc) (rows : matrix) :
  l ∉ locs ->
  Forall2 (fun l row => h !! l = Some (map Heap.Num row)) locs rows ->
  Forall2 (fun l0 row => <[l := arr]> h !! l0 = Some (map Heap.Num row)) locs rows.
Proof.
  intros Hl Hcells. induction Hcells as [|l0 row locs rows H0 Hcells IH];
    constructor.
  - rewrite list_lookup_insert_ne; [exact H0|]. intros ->. apply Hl. now left.
  - apply IH. intros Hin. apply Hl. now right.
Qed.

Lemma run_swap_rows h rows b i m :
  working h a c rows b -> (i < 4)%nat -> (m < 4)%nat ->
  exists h', Heap.swap (Heap.Ref a) i m h = (Ok tt, h') /\
             working h' a c (swap rows i m) b.
Proof.
  intros [(Hlen & Hrows & Hb) (locs & Ha & Hnd & Hcells & Hc)] Hi Hm.
  pose proof (Forall2_length _ _ _ Hcells) as Hll.
  eexists. split.
  - apply (run_swap h a _ i m Ha); rewrite length_map; lia.
  - assert (Hal : (a < length h)%nat) by (apply lookup_lt_is_Some; eauto).
    apply NoDup_cons in Hnd as [Hna Hnd]. apply NoDup_cons in Hnd as [Hnc Hnd].
    split.
    + repeat split; [now rewrite swap_length | now apply swap_Forall | exact Hb].
    + exists (swap locs i m). rewrite swap_fmap. split; [|split; [|split]].
      * now rewrite list_lookup_insert_eq.
      * apply NoDup_cons. split.
        -- intros [Hac|Hin]%elem_of_cons; [apply Hna; rewrite Hac; now left|].
           apply swap_elem_of in Hin; [|lia|lia]. apply Hna. now right.
        -- apply NoDup_cons. split.
           ++ intros Hin. apply swap_elem_of in Hin; [|lia|lia]. now apply Hnc.
           ++ apply swap_NoDup; [lia | lia | exact Hnd].
      * apply swap_Forall2. apply cells_frame; [|exact Hcells].
        intros Hin. apply Hna. now right.
      * rewrite list_lookup_insert_ne; [exact Hc|]. intros ->. apply Hna. now left.
Qed.

Lemma run_swap_rhs h rows b i m :
  working h a c rows b -> (i < 4)%nat -> (m < 4)%nat ->
  exists h', Heap.swap (Heap.Ref c) i m h = (Ok tt, h') /\
             working h' a c rows (swap b i m).
Proof.
  intros [(Hlen & Hrows & Hb) (locs & Ha & Hnd & Hcells & Hc)] Hi Hm.
  eexists. split.
  - apply (run_swap h c _ i m Hc); rewrite length_map; lia.
  - assert (Hcl : (c < length h)%nat) by (apply lookup_lt_is_Some; eauto).
    pose proof Hnd as Hnd0.
    apply NoDup_cons in Hnd as [Hna Hnd]. apply NoDup_cons in Hnd as [Hnc Hnd].
    split.
    + repeat split; [exact Hlen | exact Hrows | now rewrite swap_length].
    + exists locs. rewrite swap_fmap. split; [|split; [|split]].
      * rewrite list_lookup_insert_ne; [exact Ha|]. intros ->. apply Hna. now left.
      * exact Hnd0.
      * apply cells_frame; assumption.
      * now rewrite list_lookup_insert_eq.
Qed.

Lemma working_update_row h rows b k (locs : list Heap.loc) l row' :
  working h a c rows b -> (k < 4)%nat ->
  h !! a = Some (map Heap.Ref locs) -> locs !! k = Some l ->
  length row' = 4%nat ->
  working (<[l := map Heap.Num row']> h) a c (<[k := row']> rows) b.
Proof.
  intros [(Hlen & Hrows & Hb) (locs' & Ha' & Hnd & Hcells & Hc)] Hk Ha Hl Hrow'.
  assert (locs' = locs) as ->.
  { rewrite Ha in Ha'. injection Ha' as Heq.
    apply (list_fmap_eq_inj Heap.Ref); [|symmetry; exact Heq].
    intros x y [= ->]. reflexivity. }
  pose proof Hnd as Hnd0.
  apply NoDup_cons in Hnd as [Hna Hnd]. apply NoDup_cons in Hnd as [Hnc Hnd].
  assert (Hin : l ∈ locs) by (eapply list_elem_of_lookup_2; eauto).
  assert (Hla : l <> a) by (intros ->; apply Hna; now right).
  assert (Hlc : l <> c) by (intros ->; now apply Hnc).
  assert (Hll : (l < length h)%nat).
  { destruct (Forall2_lookup_l _ _ _ _ _ Hcells Hl) as (row & _ & Hcell).
    apply lookup_lt_is_Some. eauto. }
  split.
  - repeat split; [now rewrite length_insert | | exact Hb].
    apply Forall_insert; assumption.
  - exists locs. split; [|split; [|split]].
    + rewrite list_lookup_insert_ne by congruence. exact Ha.
    + exact Hnd0.
    + apply Forall2_lookup. intros k0.
      destruct (Nat.eq_dec k0 k) as [->|Hne].
      * rewrite Hl, list_lookup_insert_eq by lia. constructor.
        now rewrite list_lookup_insert_eq.
      * rewrite list_lookup_insert_ne by congruence.
        pose proof (proj1 (Forall2_lookup _ _ _) Hcells k0) as H0.
        destruct (locs !! k0) as [l0|] eqn:Hl0;
          destruct (rows !! k0) as [row0|] eqn:Hr0;
          inversion H0 as [? ? Hcell0|]; subst; constructor.
        rewrite list_lookup_insert_ne; [exact Hcell0|].
        intros ->.
        pose proof (proj1 (NoDup_alt locs) Hnd _ _ _ Hl0 Hl). congruence.
    + rewrite list_lookup_insert_ne by congruence. exact Hc.
Qed.

Lemma working_update_rhs h rows b b' :
  working h a c rows b -> length b' = 4%nat ->
  working (<[c := map Heap.Num b']> h) a c rows b'.
Proof.
  intros [(Hlen & Hrows & Hb) (locs & Ha & Hnd & Hcells & Hc)] Hb'.
  assert (Hcl : (c < length h)%nat) by (apply lookup_lt_is_Some; eauto).
  pose proof Hnd as Hnd0.
  apply NoDup_cons in Hnd as [Hna Hnd]. apply NoDup_cons in Hnd as [Hnc Hnd].
  split; [repeat split; assumption|].
  exists locs. split; [|split; [|split]].
  - rewrite list_lookup_insert_ne; [exact Ha|]. intros ->. apply Hna. now left.
  - exact Hnd0.
  - apply cells_frame; assumption.
  - now rewrite list_lookup_insert_eq.
Qed.

Lemma working_alloc h rows b arr :
  working h a c rows b -> working (h ++ [arr]) a c rows b.
Proof.
  intros [Hshape (locs & Ha & Hnd & Hcells & Hc)]. split; [exact Hshape|].
  exists locs. split; [|split; [|split]].
  - now apply lookup_app_l_Some.
  - exact Hnd.
  - eapply Forall2_impl; [exact Hcells|]. intros l row H.
    now apply lookup_app_l_Some.
  - now apply lookup_app_l_Some.
Qed.

(** A loop whose state lives in the store, against a fold on values. *)
Lemma run_loop {S} (R : S -> Heap.heap -> Prop) (body : nat -> unit -> Heap.M unit)
    (f : S -> nat -> S) (ok : nat -> Prop) ks s h :
  (forall j s h, ok j -> R s h ->
                 exists h', body j tt h = (Ok tt, h') /\ R (f s j) h') ->
  Forall ok ks -> R s h ->
  exists h', Heap.forEach ks body tt h = (Ok tt, h') /\ R (fold_left f ks s) h'.
Proof.
  intros Hbody Hks. revert s h.
  induction Hks as [|j ks Hj Hks IH]; intros s h HR; cbn [Heap.forEach fold_left].
  - exists h. split; [reflexivity | exact HR].
  - destruct (Hbody j s h Hj HR) as (h1 & Hrun & HR1).
    rewrite (run_bind _ _ _ _ _ Hrun). exact (IH _ _ HR1).
Qed.

(** A loop that only reads the store. *)
Lemma run_reading_loop {S} (body : nat -> S -> Heap.M S) (f : S -> nat -> S)
    (ok : nat -> Prop) ks s h :
  (forall j s, ok j -> body j s h = (Ok (f s j), h)) ->
  Forall ok ks ->
  Heap.forEach ks body s h = (Ok (fold_left f ks s), h).
Proof.
  intros Hbody Hks. revert s.
  induction Hks as [|j ks Hj Hks IH]; intros s; cbn [Heap.forEach fold_left].
  - reflexivity.
  - rewrite (run_bind _ _ _ _ _ (Hbody j s Hj)). apply IH.
Qed.

Lemma from_bound i : Forall (fun j => (j < 4)%nat) (seq i (n - i)).
Proof.
  apply Forall_forall. intros k Hk. apply elem_of_seq in Hk. unfold n in Hk. lia.
Qed.

Lemma run_elimRow h rows b i k factor :
  working h a c rows b -> (i < 4)%nat -> (k < 4)%nat ->
  exists h', Heap.elimRow (Heap.Ref a) i k factor h = (Ok tt, h') /\
             working h' a c (elimRow i k factor rows) b.
Proof.
  intros Hw Hi Hk. unfold Heap.elimRow, elimRow.
  apply (run_loop (fun rows h => working h a c rows b) _
           (fun A j => mset A k j (mget A k j - factor * mget A i j)%float)
           (fun j => (j < 4)%nat)); [|apply from_bound | exact Hw].
  clear h rows Hw. intros j rows h Hj Hw.
  destruct (working_row h rows b k Hw Hk)
    as (locs & l & row & Ha & Hll & Hl & Hrow & Hlr & Hcell & _).
  rewrite (run_bind _ _ _ _ _ (run_getIndex h a _ k Ha)).
  rewrite nth_Ref by lia. rewrite (nth_lookup_Some _ _ _ _ Hl).
  rewrite (run_bind _ _ _ _ _ (run_getIndex h l _ j Hcell)).
  rewrite nth_Num by lia.
  rewrite (run_bind _ _ _ _ _ (run_get2 h rows b i j Hw Hi Hj)).
  rewrite (run_setIndex h l _ j _ Hcell) by (rewrite length_map; lia).
  eexists. split; [reflexivity|].
  assert (Hkj : mget rows k j = nth j row NaN)
    by (unfold mget; now rewrite (nth_lookup_Some _ _ _ _ Hrow)).
  cbn [Heap.toNumber]. unfold mset.
  rewrite (nth_lookup_Some _ _ _ _ Hrow), Hkj.
  change (map Heap.Num row) with (Heap.Num <$> row).
  rewrite <- list_fmap_insert.
  apply (working_update_row h rows b k locs l _ Hw Hk Ha Hl).
  now rewrite length_insert.
Qed.

Lemma run_elimBelow h rows b i :
  working h a c rows b -> (i < 4)%nat ->
  exists h', Heap.elimBelow (Heap.Ref a) (Heap.Ref c) i h = (Ok tt, h') /\
             working h' a c (fst (elimBelow i (rows, b))) (snd (elimBelow i (rows, b))).
Proof.
  intros Hw Hi. unfold Heap.elimBelow, elimBelow.
  apply (run_loop (fun Ab h => working h a c (fst Ab) (snd Ab)) _
           (fun '(A, b) k =>
              let factor := (mget A k i / mget A i i)%float in
              let A' := elimRow i k factor A in
              (A', <[k := (vget b k - factor * vget b i)%float]> b))
           (fun k => (k < 4)%nat) _ (rows, b)); [|apply below_bound | exact Hw].
  clear h rows b Hw. intros k [rows b] h Hk Hw. cbn [fst snd] in *.
  rewrite (run_bind _ _ _ _ _ (run_get2 h rows b k i Hw Hk Hi)).
  rewrite (run_bind _ _ _ _ _ (run_get2 h rows b i i Hw Hi Hi)).
  destruct (run_elimRow h rows b i k (mget rows k i / mget rows i i)%float Hw Hi Hk)
    as (h1 & Hrun & Hw1).
  rewrite (run_bind _ _ _ _ _ Hrun).
  rewrite (run_bind _ _ _ _ _ (run_get1 h1 _ b k Hw1 Hk)).
  rewrite (run_bind _ _ _ _ _ (run_get1 h1 _ b i Hw1 Hi)).
  pose proof Hw1 as [Hshape1 (locs & Ha & Hnd & Hcells & Hc)].
  rewrite (run_setIndex h1 c _ k _ Hc)
    by (rewrite length_map; destruct Hshape1 as (_ & _ & ->); lia).
  eexists. split; [reflexivity|].
  change (map Heap.Num b) with (Heap.Num <$> b).
  rewrite <- list_fmap_insert.
  apply (working_update_rhs h1 _ b _ Hw1).
  rewrite length_insert. now destruct Hshape1 as (_ & _ & ->).
Qed.

(** The body of the loop of the forward phase. *)
Local Abbreviation pivotBody :=
  (fun (i : nat) (_ : unit) =>
     Heap.bind (Heap.findMaxRow (Heap.Ref a) i)
       (fun maxRow =>
          Heap.bind (Heap.swap (Heap.Ref a) i maxRow)
            (fun _ =>
               Heap.bind (Heap.swap (Heap.Ref c) i maxRow)
                 (fun _ =>
                    Heap.bind (Heap.get2 (Heap.Ref a) i i)
                      (fun aii =>
                         if lt (abs aii) threshold
                         then Heap.throw SingularMatrix
                         else Heap.elimBelow (Heap.Ref a) (Heap.Ref c) i))))).

Lemma run_pivotBody h rows b i :
  working h a c rows b -> (i < 4)%nat ->
  if lt (abs (mget (fst (pivotSwap i (rows, b))) i i)) threshold
  then exists h', pivotBody i tt h = (Throw SingularMatrix, h')
  else exists h',
      pivotBody i tt h = (Ok tt, h') /\
      working h' a c (fst (elimBelow i (pivotSwap i (rows, b))))
        (snd (elimBelow i (pivotSwap i (rows, b)))).
Proof.
  intros Hw Hi. unfold pivotSwap. cbn [fst].
  destruct (findMaxRow_spec rows i Hi) as [Hm _]. cbv zeta in Hm.
  assert (Hm4 : (findMaxRow rows i < 4)%nat) by lia.
  destruct (run_swap_rows h rows b i _ Hw Hi Hm4) as (h1 & Hrun1 & Hw1).
  destruct (run_swap_rhs h1 _ b i _ Hw1 Hi Hm4) as (h2 & Hrun2 & Hw2).
  rewrite (run_bind _ _ _ _ _ (run_findMaxRow h rows b i Hw Hi)).
  rewrite (run_bind _ _ _ _ _ Hrun1).
  rewrite (run_bind _ _ _ _ _ Hrun2).
  rewrite (run_bind _ _ _ _ _ (run_get2 h2 _ _ i i Hw2 Hi Hi)).
  destruct (lt (abs (mget (swap rows i (findMaxRow rows i)) i i)) threshold).
  - exists h2. reflexivity.
  - exact (run_elimBelow h2 _ _ i Hw2 Hi).
Qed.

Lemma run_eliminate steps h rows b :
  Forall (fun i => (i < 4)%nat) steps -> working h a c rows b ->
  match eliminate steps (rows, b) with
  | Ok Ab =>
      exists h', Heap.forEach steps pivotBody tt h = (Ok tt, h') /\
                 working h' a c (fst Ab) (snd Ab)
  | Throw e => exists h', Heap.forEach steps pivotBody tt h = (Throw e, h')
  end.
Proof.
  intros Hsteps. revert h rows b.
  induction Hsteps as [|i steps Hi Hsteps IH]; intros h rows b Hw.
  - cbn. exists h. split; [reflexivity | exact Hw].
  - cbn [eliminate Heap.forEach].
    pose proof (run_pivotBody h rows b i Hw Hi) as Hstep.
    destruct (lt (abs (mget (fst (pivotSwap i (rows, b))) i i)) threshold).
    + destruct Hstep as (h1 & Hrun). exists h1.
      exact (run_bind_throw _ _ _ _ _ Hrun).
    + destruct Hstep as (h1 & Hrun & Hw1).
      rewrite (run_bind _ _ _ _ _ Hrun).
      specialize (IH h1 _ _ Hw1).
      destruct (elimBelow i (pivotSwap i (rows, b))) as [rows1 b1].
      exact IH.
Qed.

(** The back substitution fills [x], the array allocated last. *)
Lemma run_backSubstitute h0 rows b :
  working h0 a c rows b ->
  Heap.backSubstitute (Heap.Ref a) (Heap.Ref c) (Heap.Ref (length h0))
    (h0 ++ [map Heap.Num (replicate n 0%float)])
  = (Ok tt, h0 ++ [map Heap.Num (backSubstitute rows b)]).
Proof.
  intros Hw. unfold Heap.backSubstitute, backSubstitute.
  set (f := fun (x : vector) (i : nat) =>
              <[i := ((vget b i
                       - fold_left (fun s j => (s + mget rows i j * vget x j)%float)
                           (seq (i + 1) (n - (i + 1))) 0%float)
                      / mget rows i i)%float]> x).
  assert (Hsteps : Forall (fun i => (i < 4)%nat) (rev (seq 0 n))).
  { apply Forall_forall. intros i Hi. apply list_elem_of_In in Hi.
    apply in_rev, in_seq in Hi. unfold n in Hi. lia. }
  destruct (run_loop
              (fun x h => h = h0 ++ [map Heap.Num x] /\ length x = 4%nat)
              (fun i _ =>
                 Heap.bind
                   (Heap.forEach (seq (i + 1) (n - (i + 1)))
                      (fun j sum =>
                         Heap.bind (Heap.get2 (Heap.Ref a) i j)
                           (fun aij =>
                              Heap.bind (Heap.get1 (Heap.Ref (length h0)) j)
                                (fun xj => Heap.ret (sum + aij * xj)%float)))
                      0%float)
                   (fun sum =>
                      Heap.bind (Heap.get1 (Heap.Ref c) i)
                        (fun bi =>
                           Heap.bind (Heap.get2 (Heap.Ref a) i i)
                             (fun aii =>
                                Heap.setIndex (Heap.Ref (length h0)) i
                                  (Heap.Num ((bi - sum) / aii)%float)))))
              f (fun i => (i < 4)%nat) (rev (seq 0 n)) (replicate n 0%float)
              (h0 ++ [map Heap.Num (replicate n 0%float)]))
    as (h' & Hrun & -> & _); [|exact Hsteps | split; reflexivity | exact Hrun].
  clear Hsteps. intros i x h Hi [-> Hx].
  pose proof (working_alloc h0 rows b (map Heap.Num x) Hw) as Hw'.
  assert (Hlx : (h0 ++ [map Heap.Num x]) !! length h0 = Some (map Heap.Num x))
    by apply list_lookup_middle, eq_refl.
  rewrite (run_bind _ _ _
             (fold_left (fun s j => (s + mget rows i j * vget x j)%float)
                (seq (i + 1) (n - (i + 1))) 0%float) (h0 ++ [map Heap.Num x])).
  2:{ apply (run_reading_loop _ _ (fun j => (j < 4)%nat)); [|apply below_bound].
      intros j s Hj.
      rewrite (run_bind _ _ _ _ _ (run_get2 _ rows b i j Hw' Hi Hj)).
      rewrite (run_bind _ _ _ _ _ (run_get1_at _ _ x j Hlx ltac:(lia))).
      reflexivity. }
  rewrite (run_bind _ _ _ _ _ (run_get1 _ rows b i Hw' Hi)).
  rewrite (run_bind _ _ _ _ _ (run_get2 _ rows b i i Hw' Hi Hi)).
  rewrite (run_setIndex _ _ _ i _ Hlx) by (rewrite length_map; lia).
  eexists. split; [reflexivity|]. split; [|unfold f; now rewrite length_insert].
  rewrite insert_app_r_alt by lia. rewrite Nat.sub_diag. cbn [list_insert].
  unfold f. change (map Heap.Num x) with (Heap.Num <$> x).
  now rewrite <- list_fmap_insert.
Qed.

End Working.

(** ** The copies *)

Lemma run_sliceAll h0 refs (rows : matrix) :
  Forall2 (holdsVector h0) refs rows ->
  forall ext,
    Heap.sliceAll refs (h0 ++ ext)
    = (Ok (map Heap.Ref (seq (length (h0 ++ ext)) (length rows))),
       (h0 ++ ext) ++ map (map Heap.Num) rows).
Proof.
  induction 1 as [|v row refs rows (l & -> & Hl) Hrest IH]; intros ext.
  - cbn. now rewrite app_nil_r.
  - cbn [Heap.sliceAll Heap.slice length seq map].
    assert (Hl' : (h0 ++ ext) !! l = Some (map Heap.Num row))
      by now apply lookup_app_l_Some.
    assert (Hslice :
              Heap.bind (Heap.readArray l)
                (fun arr => Heap.bind (Heap.alloc arr) (fun c => Heap.ret (Heap.Ref c)))
                (h0 ++ ext)
              = (Ok (Heap.Ref (length (h0 ++ ext))),
                 (h0 ++ ext) ++ [map Heap.Num row])).
    { unfold Heap.bind, Heap.readArray. rewrite Hl'. reflexivity. }
    rewrite (run_bind _ _ _ _ _ Hslice).
    rewrite <- (app_assoc h0 ext).
    rewrite (run_bind _ _ _ _ _ (IH (ext ++ [map Heap.Num row]))).
    cbn [Heap.ret]. unfold Heap.ret.
    rewrite !length_app. cbn [length].
    replace (length h0 + (length ext + 1))%nat with (S (length h0 + length ext)) by lia.
    rewrite <- !app_assoc. reflexivity.
Qed.

Lemma cells_allocated (h : Heap.heap) (rows : matrix) rest :
  Forall2 (fun l row => (h ++ map (map Heap.Num) rows ++ rest) !! l
                        = Some (map Heap.Num row))
    (seq (length h) (length rows)) rows.
Proof.
  revert h. induction rows as [|row rows IH]; intros h; cbn [length seq map].
  - constructor.
  - constructor.
    + apply list_lookup_middle. reflexivity.
    + specialize (IH (h ++ [map Heap.Num row])).
      rewrite length_app in IH. cbn [length] in IH.
      replace (length h + 1)%nat with (S (length h)) in IH by lia.
      rewrite <- app_assoc in IH. exact IH.
Qed.

(** X25: on a system of four equations, the solver that runs on the store
    (arrays as objects: the copies it allocates, every read and every
    write through a reference) computes what the solver on values
    computes: it throws when that one throws, with the same error, and
    otherwise returns a reference to an array holding the same four
    numbers. This holds whatever else the store holds and however the
    arguments share arrays: rows of [X] may be one and the same array, and
    so may a row and [Y]. *)
Theorem store_solver_computes_value_solver
    (h : Heap.heap) (Xv Yv : Heap.value) (X : matrix) (Y : vector) :
  shape4 X Y -> holdsMatrix h Xv X -> holdsVector h Yv Y ->
  agrees (solveLinearSystem X Y) (Heap.solveLinearSystem Xv Yv h).
Proof.
  intros Hshape (l & refs & -> & Hl & Hrefs) (ly & -> & Hy).
  pose proof Hshape as (HlenX & HrowsX & HlenY).
  set (h1 := h ++ map (map Heap.Num) X).
  set (a := length h1).
  set (h2 := h1 ++ [map Heap.Ref (seq (length h) (length X))]).
  set (c := length h2).
  set (h3 := h2 ++ [map Heap.Num Y]).
  assert (Hcopy : Heap.copyMatrix (Heap.Ref l) h = (Ok (Heap.Ref a), h2)).
  { unfold Heap.copyMatrix.
    rewrite (run_bind _ _ h refs h) by (unfold Heap.readArray; now rewrite Hl).
    pose proof (run_sliceAll h refs X Hrefs []) as Hs. rewrite app_nil_r in Hs.
    rewrite (run_bind _ _ _ _ _ Hs). reflexivity. }
  assert (Hb : Heap.slice (Heap.Ref ly) h2 = (Ok (Heap.Ref c), h3)).
  { unfold Heap.slice, Heap.bind, Heap.readArray.
    assert (Hy2 : h2 !! ly = Some (map Heap.Num Y))
      by (unfold h2, h1; now apply lookup_app_l_Some, lookup_app_l_Some).
    rewrite Hy2. reflexivity. }
  assert (Hw : working h3 a c X Y).
  { split; [exact Hshape|]. exists (seq (length h) (length X)).
    assert (Ha : a = (length h + 4)%nat)
      by (unfold a, h1; rewrite length_app, length_map; lia).
    assert (Hc : c = (length h + 5)%nat)
      by (unfold c, h2; rewrite length_app; cbn [length]; fold a; lia).
    split; [|split; [|split]].
    - unfold h3, h2. apply lookup_app_l_Some. apply list_lookup_middle. reflexivity.
    - rewrite HlenX. apply NoDup_cons. split.
      { rewrite elem_of_cons, elem_of_seq. lia. }
      apply NoDup_cons. split; [rewrite elem_of_seq; lia | apply NoDup_seq].
    - unfold h3, h2, h1. rewrite <- !app_assoc. apply cells_allocated.
    - unfold h3. apply list_lookup_middle. reflexivity. }
  unfold Heap.solveLinearSystem, solveLinearSystem.
  rewrite (run_bind _ _ _ _ _ Hcopy). rewrite (run_bind _ _ _ _ _ Hb).
  assert (Hsteps : Forall (fun i => (i < 4)%nat) (seq 0 n)).
  { apply Forall_forall. intros i Hi. apply elem_of_seq in Hi. unfold n in Hi. lia. }
  pose proof (run_eliminate a c (seq 0 n) h3 X Y Hsteps Hw) as He.
  unfold Heap.eliminate.
  destruct (eliminate (seq 0 n) (X, Y)) as [[rows b]|e]; cbn [mbind res_bind].
  - destruct He as (h4 & Hrun & Hw4). cbn [fst snd] in *.
    rewrite (run_bind _ _ _ _ _ Hrun).
    rewrite (run_bind _ _ h4 (length h4) (h4 ++ [map Heap.Num (replicate n 0%float)]))
      by reflexivity.
    rewrite (run_bind _ _ _ _ _ (run_backSubstitute a c h4 rows b Hw4)).
    cbn. exists (length h4). split; [reflexivity|].
    apply list_lookup_middle. reflexivity.
  - destruct He as (h4 & Hrun).
    rewrite (run_bind_throw _ _ _ _ _ Hrun). reflexivity.
Qed.

Lemma store_solver_computes_value_solver_witness :
  agrees (solveLinearSystem identity4 [1; 2; 3; 4]%float)
    (Heap.solveLinearSystem (Heap.Ref 4) (Heap.Ref 5)
       (map (map Heap.Num) identity4
        ++ [[Heap.Ref 0; Heap.Ref 1; Heap.Ref 2; Heap.Ref 3];
            map Heap.Num [1; 2; 3; 4]%float])).
Proof.
  apply store_solver_computes_value_solver.
  - repeat split; repeat constructor.
  - exists 4%nat, [Heap.Ref 0; Heap.Ref 1; Heap.Ref 2; Heap.Ref 3].
    split; [reflexivity|]. split; [reflexivity|].
    repeat constructor; eexists; (split; [reflexivity|]); reflexivity.
  - exists 5%nat. split; reflexivity.
Defined.

(** Four rows that are one array, which is the right-hand side as well. *)
Example store_solver_on_shared_rows :
  fst (Heap.solveLinearSystem (Heap.Ref 1) (Heap.Ref 0)
         [map Heap.Num [1; 2; 3; 4]%float;
          [Heap.Ref 0; Heap.Ref 0; Heap.Ref 0; Heap.Ref 0]])
  = Throw SingularMatrix /\
  solveLinearSystem (replicate 4 [1; 2; 3; 4]%float) [1; 2; 3; 4]%float
  = Throw SingularMatrix.
Proof. split; vm_compute; reflexivity. Qed.

End HeapRefinement.
